(** * TargetData: data size and alignment routines

    A shallow embedding of [lib/Target/TargetData.cpp]: the alignment table
    ([TargetAlignElem], [setAlignment], [getAlignment]), the parser and the
    printer of target description strings ([init],
    [getStringRepresentation]), the size and alignment queries
    ([getTypeSize], [getTypeSizeInBits], [getAlignment] on types), the
    structure layout ([StructLayout]) and [getIndexedOffset].

    Machine integers are integers of [Z] with their conversions written
    out; strings are lists of characters. *)

From Stdlib Require Import ZArith Ascii String Bool Lia Arith List.
Import ListNotations.
Local Open Scope Z_scope.

(** ** Machine integers *)

(** Conversion to an unsigned integer of [w] bits. *)
Definition to_unsigned (w x : Z) : Z := x mod 2 ^ w.

(** Conversion to a signed (two's complement) integer of [w] bits. *)
Definition to_signed (w x : Z) : Z :=
  let y := x mod 2 ^ w in
  if y <? 2 ^ (w - 1) then y else y - 2 ^ w.

Definition to_uchar : Z -> Z := to_unsigned 8.
Definition to_short : Z -> Z := to_signed 16.
Definition to_int : Z -> Z := to_signed 32.
Definition to_unsigned32 : Z -> Z := to_unsigned 32.
Definition to_int64 : Z -> Z := to_signed 64.
Definition to_uint64 : Z -> Z := to_unsigned 64.

(** ** Strings *)

Definition str : Type := list ascii.

Definition lit (s : string) : str := list_ascii_of_string s.

Definition char_code (c : ascii) : Z := Z.of_N (N_of_ascii c).

Definition is_delimiter (Delimiters : str) (c : ascii) : bool :=
  existsb (Ascii.eqb c) Delimiters.

(** [Source.find_first_not_of(Delimiters)]: what is left of [Source] from
    the first character that is not a delimiter on. *)
Fixpoint skip_delimiters (Delimiters : str) (Source : str) : str :=
  match Source with
  | [] => []
  | c :: rest =>
      if is_delimiter Delimiters c then skip_delimiters Delimiters rest
      else Source
  end.

(** From [Start]: the characters before the next delimiter, and what is
    left of the source from that delimiter on. *)
Fixpoint take_token (Delimiters : str) (Source : str) : str * str :=
  match Source with
  | [] => ([], [])
  | c :: rest =>
      if is_delimiter Delimiters c then ([], Source)
      else let (tok, left) := take_token Delimiters rest in (c :: tok, left)
  end.

(** Modelled from the spec: [getToken] of [StringExtras] is not among the
    sources; the description string is a sequence of hyphen-delimited
    tokens, each a sequence of colon-delimited fields.  [getToken] skips
    the leading delimiters of [Source], returns the characters up to the
    next delimiter and erases from [Source] all that it read; the pair is
    the token and the new value of [Source]. *)
Definition getToken (Source : str) (Delimiters : str) : str * str :=
  take_token Delimiters (skip_delimiters Delimiters Source).

(** C's [isspace] in the "C" locale. *)
Definition isspace (c : ascii) : bool :=
  (char_code c =? 32) || ((9 <=? char_code c) && (char_code c <=? 13)).

Definition digit_value (c : ascii) : option Z :=
  if (48 <=? char_code c) && (char_code c <=? 57)
  then Some (char_code c - 48) else None.

Fixpoint skip_space (s : str) : str :=
  match s with
  | [] => []
  | c :: rest => if isspace c then skip_space rest else s
  end.

Fixpoint atoi_digits (s : str) (acc : Z) : Z :=
  match s with
  | [] => acc
  | c :: rest =>
      match digit_value c with
      | Some d => atoi_digits rest (acc * 10 + d)
      | None => acc
      end
  end.

(** C's [atoi]: leading white space, an optional sign, then the longest
    run of decimal digits; 0 when there is none.  A value that does not fit
    an [int] is undefined in C, and what a C library returns for it
    varies; the model wraps it to 32 bits, and the statements that give
    the value read from a field ask that its number fits an [int]
    ([fits_int]). *)
Definition atoi (s : str) : Z :=
  match skip_space s with
  | c :: rest =>
      if Ascii.eqb c "-" then to_int (- atoi_digits rest 0)
      else if Ascii.eqb c "+" then to_int (atoi_digits rest 0)
      else to_int (atoi_digits (c :: rest) 0)
  | [] => 0
  end.



Definition digit_char (d : Z) : ascii := ascii_of_N (Z.to_N (48 + d)).

(** The decimal digits of [n], least significant first. *)
Fixpoint digits_le (fuel : nat) (n : Z) : str :=
  match fuel with
  | O => []
  | S fuel' =>
      digit_char (n mod 10)
        :: (if n <? 10 then [] else digits_le fuel' (n / 10))
  end.

Definition print_nonneg (n : Z) : str :=
  rev (digits_le (S (Z.to_nat (Z.log2 n))) n).

(** [os << n] for an integer [n]. *)
Definition print_int (n : Z) : str :=
  if n <? 0 then "-"%char :: print_nonneg (- n) else print_nonneg n.

(** ** TargetAlignElem *)

Inductive AlignTypeEnum : Type :=
| INTEGER_ALIGN
| PACKED_ALIGN
| FLOAT_ALIGN
| AGGREGATE_ALIGN.

(** Modelled from the spec: the enumeration is declared in [TargetData.h],
    which is not among the sources.  Its values are the kind characters of
    the description string ([i], [v], [f], [a]): [dump] prints the
    alignment type as the character that [init] reads back, and the
    default string in the comment before [init] lists the table in the
    order [a], [f], [i], [v]. *)
Definition AlignTypeEnum_char (k : AlignTypeEnum) : ascii :=
  match k with
  | INTEGER_ALIGN => "i"
  | PACKED_ALIGN => "v"
  | FLOAT_ALIGN => "f"
  | AGGREGATE_ALIGN => "a"
  end.

Definition AlignTypeEnum_value (k : AlignTypeEnum) : Z :=
  char_code (AlignTypeEnum_char k).

Definition AlignTypeEnum_eqb (a b : AlignTypeEnum) : bool :=
  AlignTypeEnum_value a =? AlignTypeEnum_value b.

Record TargetAlignElem : Type := mkTargetAlignElem {
  AlignType : AlignTypeEnum;
  ABIAlign : Z;        (* unsigned char *)
  PrefAlign : Z;       (* unsigned char *)
  TypeBitWidth : Z     (* short *)
}.

(** [TargetAlignElem::get] *)
Definition TargetAlignElem_get (align_type : AlignTypeEnum)
    (abi_align pref_align bit_width : Z) : TargetAlignElem :=
  {| AlignType := align_type; ABIAlign := abi_align;
     PrefAlign := pref_align; TypeBitWidth := bit_width |}.

(** [TargetAlignElem::operator<] *)
Definition TargetAlignElem_lt (lhs rhs : TargetAlignElem) : bool :=
  (AlignTypeEnum_value (AlignType lhs) <? AlignTypeEnum_value (AlignType rhs))
  || (AlignTypeEnum_eqb (AlignType lhs) (AlignType rhs)
      && (TypeBitWidth lhs <? TypeBitWidth rhs)).

(** [TargetAlignElem::operator==] *)
Definition TargetAlignElem_eqb (lhs rhs : TargetAlignElem) : bool :=
  AlignTypeEnum_eqb (AlignType lhs) (AlignType rhs)
  && (ABIAlign lhs =? ABIAlign rhs)
  && (PrefAlign lhs =? PrefAlign rhs)
  && (TypeBitWidth lhs =? TypeBitWidth rhs).

(** [TargetAlignElem::dump] *)
Definition dump (elem : TargetAlignElem) : str :=
  AlignTypeEnum_char (AlignType elem)
    :: print_int (TypeBitWidth elem)
    ++ ":"%char :: print_int (ABIAlign elem * 8)
    ++ ":"%char :: print_int (PrefAlign elem * 8).

(** ** TargetData *)

(** The members of [TargetData].  [PastEndReads] is not a member of the
    class: it counts the times the position [Alignments.end()] was
    dereferenced (see [setAlignment]). *)
Record TargetData : Type := mkTargetData {
  LittleEndian : bool;
  PointerMemSize : Z;      (* unsigned char *)
  PointerABIAlign : Z;     (* unsigned char *)
  PointerPrefAlign : Z;    (* unsigned char *)
  Alignments : list TargetAlignElem;
  PastEndReads : nat
}.

Definition set_LittleEndian (b : bool) (TD : TargetData) : TargetData :=
  mkTargetData b (PointerMemSize TD) (PointerABIAlign TD)
    (PointerPrefAlign TD) (Alignments TD) (PastEndReads TD).

Definition set_Pointer (size abi pref : Z) (TD : TargetData) : TargetData :=
  mkTargetData (LittleEndian TD) size abi pref (Alignments TD)
    (PastEndReads TD).

Definition set_Alignments (v : list TargetAlignElem) (TD : TargetData)
    : TargetData :=
  mkTargetData (LittleEndian TD) (PointerMemSize TD) (PointerABIAlign TD)
    (PointerPrefAlign TD) v (PastEndReads TD).

Definition count_PastEndRead (TD : TargetData) : TargetData :=
  mkTargetData (LittleEndian TD) (PointerMemSize TD) (PointerABIAlign TD)
    (PointerPrefAlign TD) (Alignments TD) (S (PastEndReads TD)).

(** [std::equal_range(first, last, val).first], by its contract: the
    position of the first element of the range that is not less than
    [val], the length of the range when there is none. *)
Fixpoint lower_bound (v : list TargetAlignElem) (val : TargetAlignElem)
    : nat :=
  match v with
  | [] => O
  | e :: rest =>
      if TargetAlignElem_lt e val then S (lower_bound rest val) else O
  end.

(** [Alignments.insert(I, elt)] *)
Definition vector_insert (I : nat) (elt : TargetAlignElem)
    (v : list TargetAlignElem) : list TargetAlignElem :=
  firstn I v ++ elt :: skipn I v.

(** Assignment to the element at position [I]. *)
Definition vector_assign (I : nat) (elt : TargetAlignElem)
    (v : list TargetAlignElem) : list TargetAlignElem :=
  firstn I v ++ elt :: skipn (S I) v.

(** [TargetData::setAlignment].  The source reads [I->AlignType] whatever
    [I] is.  When [I] is [Alignments.end()] that read is outside the
    vector: the model counts it in [PastEndReads] and goes on as the run
    does when the slot read does not hold the same key, with the
    insertion. *)
Definition setAlignment (align_type : AlignTypeEnum)
    (abi_align pref_align bit_width : Z) (TD : TargetData) : TargetData :=
  let elt := TargetAlignElem_get align_type abi_align pref_align bit_width in
  let I := lower_bound (Alignments TD) elt in
  match nth_error (Alignments TD) I with
  | Some e =>
      if AlignTypeEnum_eqb (AlignType e) align_type
         && (TypeBitWidth e =? bit_width)
      then
        set_Alignments
          (vector_assign I
             (mkTargetAlignElem (AlignType e) abi_align pref_align
                (TypeBitWidth e))
             (Alignments TD)) TD
      else set_Alignments (vector_insert I elt (Alignments TD)) TD
  | None =>
      count_PastEndRead
        (set_Alignments (vector_insert I elt (Alignments TD)) TD)
  end.

(** [TargetData::getAlignment(AlignTypeEnum, short)]: the element at the
    position found, [None] when that position is [Alignments.end()] (the
    reference returned is then outside the vector). *)
Definition getAlignment (TD : TargetData) (align_type : AlignTypeEnum)
    (bit_width : Z) : option TargetAlignElem :=
  nth_error (Alignments TD)
    (lower_bound (Alignments TD) (TargetAlignElem_get align_type 0 0 bit_width)).

(** The state [init] starts from: the members it assigns first, and the
    empty vector of a new object. *)
Definition init_members : TargetData :=
  {| LittleEndian := false; PointerMemSize := 8; PointerABIAlign := 8;
     PointerPrefAlign := 8; Alignments := []; PastEndReads := O |}.

(** The default alignments of [init]. *)
Definition init_defaults (TD : TargetData) : TargetData :=
  let TD := setAlignment INTEGER_ALIGN 1 1 1 TD in
  let TD := setAlignment INTEGER_ALIGN 1 1 8 TD in
  let TD := setAlignment INTEGER_ALIGN 2 2 16 TD in
  let TD := setAlignment INTEGER_ALIGN 4 4 32 TD in
  let TD := setAlignment INTEGER_ALIGN 0 8 64 TD in
  let TD := setAlignment FLOAT_ALIGN 4 4 32 TD in
  let TD := setAlignment FLOAT_ALIGN 0 8 64 TD in
  let TD := setAlignment PACKED_ALIGN 8 8 64 TD in
  let TD := setAlignment PACKED_ALIGN 16 16 128 TD in
  setAlignment AGGREGATE_ALIGN 0 0 0 TD.

(** [atoi(getToken(token, ":").c_str()) / 8] stored in an [unsigned char],
    with the new value of [token]. *)
Definition next_field_bytes (token : str) : Z * str :=
  let (field, token) := getToken token (lit ":") in
  (to_uchar (Z.quot (atoi field) 8), token).

(** The body of the loop of [init] after [token] was read. *)
Definition init_token (token : str) (TD : TargetData) : TargetData :=
  let (arg0, token) := getToken token (lit ":") in
  match arg0 with
  | [] => TD
  | c :: p =>
      if Ascii.eqb c "E" then set_LittleEndian false TD
      else if Ascii.eqb c "e" then set_LittleEndian true TD
      else if Ascii.eqb c "p" then
        let (size, token) := next_field_bytes token in
        let (abi, token) := next_field_bytes token in
        let (pref, token) := next_field_bytes token in
        set_Pointer size abi (if pref =? 0 then abi else pref) TD
      else if Ascii.eqb c "i" || Ascii.eqb c "v" || Ascii.eqb c "f"
              || Ascii.eqb c "a" then
        let align_type :=
          if Ascii.eqb c "i" then INTEGER_ALIGN
          else if Ascii.eqb c "f" then FLOAT_ALIGN
          else if Ascii.eqb c "v" then PACKED_ALIGN
          else AGGREGATE_ALIGN in
        let size := to_short (atoi p) in
        let (abi_align, token) := next_field_bytes token in
        let (pref_align, token) := next_field_bytes token in
        setAlignment align_type abi_align
          (if pref_align =? 0 then abi_align else pref_align) size TD
      else TD
  end.

(** The loop [while (!temp.empty())] of [init]; [None] when [fuel] turns
    of the loop do not empty [temp]. *)
Fixpoint init_loop (fuel : nat) (temp : str) (TD : TargetData)
    : option TargetData :=
  match temp with
  | [] => Some TD
  | _ :: _ =>
      match fuel with
      | O => None
      | S fuel' =>
          let (token, temp') := getToken temp (lit "-") in
          init_loop fuel' temp' (init_token token TD)
      end
  end.

(** One of the two adjustments that end [init]. *)
Definition init_cap (align_type : AlignTypeEnum) (TD : TargetData)
    : TargetData :=
  match getAlignment TD align_type 64 with
  | Some elem =>
      if ABIAlign elem =? 0
      then setAlignment align_type (PointerMemSize TD) (PointerMemSize TD) 64 TD
      else TD
  | None => count_PastEndRead TD
  end.

(** [TargetData::init] *)
Definition init (TargetDescription : str) : option TargetData :=
  match init_loop (length TargetDescription) TargetDescription
          (init_defaults init_members) with
  | Some TD => Some (init_cap FLOAT_ALIGN (init_cap INTEGER_ALIGN TD))
  | None => None
  end.

(** [os << "-" << elem] for every element, in order. *)
Fixpoint hyphen_delimited (v : list TargetAlignElem) : str :=
  match v with
  | [] => []
  | elem :: rest => "-"%char :: dump elem ++ hyphen_delimited rest
  end.

(** [TargetData::getStringRepresentation] *)
Definition getStringRepresentation (TD : TargetData) : str :=
  (if LittleEndian TD then lit "e" else lit "E")
    ++ lit "-p:" ++ print_int (PointerMemSize TD * 8)
    ++ lit ":" ++ print_int (PointerABIAlign TD * 8)
    ++ lit ":" ++ print_int (PointerPrefAlign TD * 8)
    ++ hyphen_delimited (Alignments TD).

(** ** Types *)

(** Modelled from the spec: the type system ([Type.h], [DerivedTypes.h])
    is not among the sources.  A type is one of the kinds the queries
    discriminate on, with what they read of it: the bit width of an
    integer, the element type of a pointer, the element type and the
    number of elements (64 bits, unsigned) of an array, the element type
    and the bit width of a vector, the element types of a structure.
    [OtherTy] stands for the kinds the queries do not handle. *)
#[local] Set Warnings "-register-all".

Inductive Ty : Type :=
| LabelTy
| VoidTy
| FloatTy
| DoubleTy
| IntegerTy (BitWidth : Z)
| PointerTy (ElementType : Ty)
| ArrayTy (ElementType : Ty) (NumElements : Z)
| PackedTy (ElementType : Ty) (BitWidth : Z)
| StructTy (ContainedTys : list Ty)
| OtherTy.

(** [Ty->isInteger()]: the type is an integer type. *)
Definition isInteger (T : Ty) : bool :=
  match T with IntegerTy _ => true | _ => false end.

(** Modelled from the spec: [Value] and [ConstantInt] are declared in
    files that are not among the sources.  An operand of
    [getIndexedOffset] is a constant integer, given by the width of its
    type and its bits, or any other value, of which only the type is
    known.  [getZExtValue] and [getSExtValue] read the bits as an unsigned
    and as a signed integer of that width. *)
Inductive Value : Type :=
| ConstantInt (BitWidth : Z) (Val : Z)
| OtherValue (T : Ty).

Definition getZExtValue (BitWidth Val : Z) : Z := to_unsigned BitWidth Val.
Definition getSExtValue (BitWidth Val : Z) : Z := to_signed BitWidth Val.

(** ** StructLayout *)

Record StructLayout : Type := mkStructLayout {
  StructSize : Z;            (* uint64_t *)
  StructAlignment : Z;       (* unsigned *)
  MemberOffsets : list Z     (* uint64_t each *)
}.

(** The body of the loop of the constructor for one element, given the
    alignment and the size read for it (both already [unsigned]); [None]
    when the alignment is 0, which the remainder divides by. *)
Definition StructLayout_place (TyAlign TySize : Z) (L : StructLayout)
    : option StructLayout :=
  if TyAlign =? 0 then None
  else
    let Size :=
      if negb (StructSize L mod TyAlign =? 0)
      then to_uint64 ((StructSize L / TyAlign + 1) * TyAlign)
      else StructSize L in
    Some {| StructSize := to_uint64 (Size + TySize);
            StructAlignment := Z.max TyAlign (StructAlignment L);
            MemberOffsets := MemberOffsets L ++ [Size] |}.

(** The loop of the constructor over the elements, with the two queries
    it makes of each. *)
Definition StructLayout_loop (getABITypeAlignment getTypeSize
    : Ty -> option Z) : list Ty -> StructLayout -> option StructLayout :=
  fix loop (elts : list Ty) (L : StructLayout) : option StructLayout :=
    match elts with
    | [] => Some L
    | T :: rest =>
        match getABITypeAlignment T, getTypeSize T with
        | Some TyAlign, Some TySize =>
            match StructLayout_place (to_unsigned32 TyAlign)
                    (to_unsigned32 TySize) L with
            | Some L' => loop rest L'
            | None => None
            end
        | _, _ => None
        end
    end.

(** What follows the loop: the alignment of an empty structure and the
    padding at the end. *)
Definition StructLayout_finish (L : StructLayout) : StructLayout :=
  let Alignment :=
    if StructAlignment L =? 0 then 1 else StructAlignment L in
  let Size :=
    if negb (StructSize L mod Alignment =? 0)
    then to_uint64 ((StructSize L / Alignment + 1) * Alignment)
    else StructSize L in
  {| StructSize := Size; StructAlignment := Alignment;
     MemberOffsets := MemberOffsets L |}.

(** [StructLayout::StructLayout] *)
Definition StructLayout_new (getABITypeAlignment getTypeSize
    : Ty -> option Z) (elts : list Ty) : option StructLayout :=
  option_map StructLayout_finish
    (StructLayout_loop getABITypeAlignment getTypeSize elts
       {| StructSize := 0; StructAlignment := 0; MemberOffsets := [] |}).

(** ** Sizes and alignments *)

Section Queries.

(** [Ty->isSized()], of the type system. *)
Variable isSized : Ty -> bool.

Variable TD : TargetData.

(** The cases of [getTypeSize] that look at no other type. *)
Definition getTypeSize_scalar (T : Ty) : option Z :=
  match T with
  | IntegerTy BitWidth =>
      if BitWidth <=? 8 then Some 1
      else if BitWidth <=? 16 then Some 2
      else if BitWidth <=? 32 then Some 4
      else if BitWidth <=? 64 then Some 8
      else None
  | VoidTy => Some 1
  | FloatTy => Some 4
  | DoubleTy => Some 8
  | PackedTy _ BitWidth => Some (Z.quot BitWidth 8)
  | _ => None
  end.

(** [TargetData::getTypeSize] and [TargetData::getAlignment(const Type *,
    bool)], here [getAlignmentTy].  The second calls the first on its own
    argument when that is an integer, [void], a floating point or a vector
    type: it is then one of the cases of [getTypeSize_scalar].  [None] stands for a failed assertion,
    [abort], a division by zero or a reference outside the alignment
    table.  The reference that the lookup in the table returns is never
    the object [InvalidAlignmentElem], so [validAlignment] holds of it and
    the branch that aborts is not taken.  The layout of a structure is a
    function of the object and of the type, so the cache of
    [getStructLayout] is left out and the layout is computed where it is
    asked for. *)
Fixpoint getTypeSize (T : Ty) {struct T} : option Z :=
  if negb (isSized T) then None
  else
    match T with
    | LabelTy | PointerTy _ => Some (PointerMemSize TD)
    | ArrayTy ElementType NumElements =>
        match getTypeSize ElementType, getAlignmentTy ElementType true with
        | Some Size, Some Alignment =>
            if Alignment =? 0 then None
            else
              let AlignedSize :=
                to_unsigned32
                  (to_uint64
                     (to_uint64 (Size + Alignment - 1) / Alignment
                      * Alignment)) in
              Some (to_uint64 (AlignedSize * NumElements))
        | _, _ => None
        end
    | StructTy elts =>
        option_map StructSize
          (StructLayout_new (fun E => getAlignmentTy E true) getTypeSize elts)
    | IntegerTy _ | VoidTy | FloatTy | DoubleTy | PackedTy _ _ =>
        getTypeSize_scalar T
    | OtherTy => None
    end

with getAlignmentTy (T : Ty) (abi_or_pref : bool) {struct T} : option Z :=
  if negb (isSized T) then None
  else
    let lookup (AlignType : AlignTypeEnum) :=
      match getTypeSize_scalar T with
      | Some Size =>
          match getAlignment TD AlignType (to_short (to_uint64 (Size * 8)))
          with
          | Some elem =>
              Some (if abi_or_pref then ABIAlign elem else PrefAlign elem)
          | None => None
          end
      | None => None
      end in
    match T with
    | LabelTy | PointerTy _ =>
        Some (if abi_or_pref then PointerABIAlign TD else PointerPrefAlign TD)
    | ArrayTy ElementType _ => getAlignmentTy ElementType abi_or_pref
    | StructTy elts =>
        match StructLayout_new (fun E => getAlignmentTy E true) getTypeSize
                elts, getAlignment TD AGGREGATE_ALIGN 0 with
        | Some Layout, Some elem =>
            let a := if abi_or_pref then ABIAlign elem else PrefAlign elem in
            Some (to_uchar
                    (if a <? StructAlignment Layout
                     then StructAlignment Layout else a))
        | _, _ => None
        end
    | IntegerTy _ | VoidTy => lookup INTEGER_ALIGN
    | FloatTy | DoubleTy => lookup FLOAT_ALIGN
    | PackedTy _ _ => lookup PACKED_ALIGN
    | OtherTy => None
    end.

Definition getABITypeAlignment (T : Ty) : option Z := getAlignmentTy T true.

Definition getPrefTypeAlignment (T : Ty) : option Z := getAlignmentTy T false.

(** [TargetData::getStructLayout], for the structure type of elements
    [elts].  The memory of the layout is taken to be there: the call of
    [malloc], whose result the function does not test, is left out. *)
Definition getStructLayout (elts : list Ty) : option StructLayout :=
  StructLayout_new getABITypeAlignment getTypeSize elts.

(** [TargetData::getTypeSizeInBits] *)
Definition getTypeSizeInBits (T : Ty) : option Z :=
  if isInteger T
  then match T with IntegerTy BitWidth => Some BitWidth | _ => None end
  else option_map (fun Size => to_uint64 (Size * 8)) (getTypeSize T).

(** Modelled from the spec: the iterator of [GetElementPtrTypeIterator.h]
    is not among the sources.  It holds the type the next operand indexes;
    incrementing it steps to the element type of a sequential type, or to
    the element of a structure type that a constant 32-bit operand
    selects; any other type, or operand, leaves it null. *)
Definition gep_type_next (CurTy : option Ty) (Operand : Value) : option Ty :=
  match CurTy with
  | Some (PointerTy E) | Some (ArrayTy E _) | Some (PackedTy E _) => Some E
  | Some (StructTy elts) =>
      match Operand with
      | ConstantInt BitWidth Val =>
          if BitWidth =? 32
          then nth_error elts (Z.to_nat (getZExtValue BitWidth Val))
          else None
      | OtherValue _ => None
      end
  | _ => None
  end.

(** The loop of [TargetData::getIndexedOffset]: [TI] is the iterator, [T]
    the variable [Ty] and [Result] the sum so far.  The product of the
    array index and the element size is a signed 64-bit product: the model
    wraps it. *)
Fixpoint getIndexedOffset_loop (TI : option Ty) (T : Ty)
    (Indices : list Value) (Result : Z) : option Z :=
  match Indices with
  | [] => Some Result
  | Idx :: rest =>
      match TI with
      | None => None
      | Some (StructTy elts) =>
          match Idx with
          | ConstantInt BitWidth Val =>
              if BitWidth =? 32 then
                let FieldNo :=
                  Z.to_nat (to_unsigned32 (getZExtValue BitWidth Val)) in
                match getStructLayout elts with
                | Some Layout =>
                    match nth_error (MemberOffsets Layout) FieldNo,
                          nth_error elts FieldNo with
                    | Some Offset, Some E =>
                        getIndexedOffset_loop (gep_type_next TI Idx) E rest
                          (to_uint64 (Result + Offset))
                    | _, _ => None
                    end
                | None => None
                end
              else None
          | OtherValue _ => None
          end
      | Some _ =>
          match T with
          | PointerTy E | ArrayTy E _ | PackedTy E _ =>
              match Idx with
              | ConstantInt BitWidth Val =>
                  let arrayIdx := getSExtValue BitWidth Val in
                  match getTypeSize E with
                  | Some Size =>
                      getIndexedOffset_loop (gep_type_next TI Idx) E rest
                        (to_uint64
                           (Result + to_int64 (arrayIdx * to_int64 Size)))
                  | None => None
                  end
              | OtherValue _ => None
              end
          | _ => None
          end
      end
  end.

(** [TargetData::getIndexedOffset] *)
Definition getIndexedOffset (ptrTy : Ty) (Indices : list Value) : option Z :=
  match ptrTy with
  | PointerTy _ => getIndexedOffset_loop (Some ptrTy) ptrTy Indices 0
  | _ => None
  end.

(** The walk of the specification: one current type and the sum of the
    offsets, an integer.  At a pointer or sequential type the walk descends
    to the element type and adds the index, read as a signed integer,
    times the size of that element type; at a structure type it takes the
    field [f] that a constant 32-bit index selects, adds
    [MemberOffsets[f]] and goes on in the type of that field. *)
Fixpoint indexed_offset_walk (cur_type : Ty) (idx : list Value)
    (offset : Z) : option Z :=
  match idx with
  | [] => Some offset
  | i :: rest =>
      match cur_type with
      | PointerTy elt | ArrayTy elt _ | PackedTy elt _ =>
          match i, getTypeSize elt with
          | ConstantInt w v, Some size =>
              indexed_offset_walk elt rest (offset + to_signed w v * size)
          | _, _ => None
          end
      | StructTy fields =>
          match i with
          | ConstantInt w v =>
              if w =? 32 then
                let f := Z.to_nat (to_unsigned 32 v) in
                match getStructLayout fields with
                | Some layout =>
                    match nth_error (MemberOffsets layout) f,
                          nth_error fields f with
                    | Some member_offset, Some field =>
                        indexed_offset_walk field rest
                          (offset + member_offset)
                    | _, _ => None
                    end
                | None => None
                end
              else None
          | OtherValue _ => None
          end
      | _ => None
      end
  end.

End Queries.

(** ** Predicates of the statements *)

(** The ABI or the preferred alignment of an element of the table. *)
Definition which_align (abi_or_pref : bool) (elem : TargetAlignElem) : Z :=
  if abi_or_pref then ABIAlign elem else PrefAlign elem.

(** Two objects that differ at most by the count of reads past the end. *)
Definition same_layout (a b : TargetData) : Prop :=
  LittleEndian a = LittleEndian b
  /\ PointerMemSize a = PointerMemSize b
  /\ PointerABIAlign a = PointerABIAlign b
  /\ PointerPrefAlign a = PointerPrefAlign b
  /\ Alignments a = Alignments b.

(** No element of the table has a negative bit width. *)
Definition widths_nonneg (TD : TargetData) : bool :=
  forallb (fun e => 0 <=? TypeBitWidth e) (Alignments TD).

(** The preferred alignment of the pointer and of every element of the
    table is at least the ABI alignment. *)
Definition pref_ge_abi (TD : TargetData) : bool :=
  (PointerABIAlign TD <=? PointerPrefAlign TD)
  && forallb (fun e => ABIAlign e <=? PrefAlign e) (Alignments TD).

(** Every type is sized: the assertion of the queries never fails. *)
Definition all_sized (T : Ty) : bool := true.

(** ** Auxiliary definitions of the proofs *)

(** The key of an element: its alignment type and its bit width. *)
Definition same_key (a b : TargetAlignElem) : bool :=
  AlignTypeEnum_eqb (AlignType a) (AlignType b)
  && (TypeBitWidth a =? TypeBitWidth b).

(** The table after [setAlignment], as a sorted insertion. *)
Fixpoint table_set (elt : TargetAlignElem) (v : list TargetAlignElem)
    : list TargetAlignElem :=
  match v with
  | [] => [elt]
  | e :: rest =>
      if TargetAlignElem_lt e elt then e :: table_set elt rest
      else if same_key e elt then elt :: rest
      else elt :: e :: rest
  end.

(** The element of the table with the key of [key], if any. *)
Definition lookup_key (key : TargetAlignElem) (v : list TargetAlignElem)
    : option TargetAlignElem :=
  find (fun e => same_key e key) v.

(** The table is in strictly increasing order of keys. *)
Fixpoint sorted (v : list TargetAlignElem) : Prop :=
  match v with
  | [] => True
  | e :: rest =>
      Forall (fun r => TargetAlignElem_lt e r = true) rest /\ sorted rest
  end.

(** The members of an element are in the range of their types, and a
    preferred alignment of 0 comes with an ABI alignment of 0. *)
Definition elem_ok (e : TargetAlignElem) : Prop :=
  0 <= ABIAlign e < 256 /\ 0 <= PrefAlign e < 256
  /\ -32768 <= TypeBitWidth e < 32768
  /\ (PrefAlign e = 0 -> ABIAlign e = 0).

(** [sorted] and [elem_ok] as tests. *)
Fixpoint sortedb (v : list TargetAlignElem) : bool :=
  match v with
  | [] => true
  | e :: rest => forallb (TargetAlignElem_lt e) rest && sortedb rest
  end.

Definition elem_okb (e : TargetAlignElem) : bool :=
  (0 <=? ABIAlign e) && (ABIAlign e <? 256)
  && (0 <=? PrefAlign e) && (PrefAlign e <? 256)
  && (-32768 <=? TypeBitWidth e) && (TypeBitWidth e <? 32768)
  && (negb (PrefAlign e =? 0) || (ABIAlign e =? 0)).

(** The table of the defaults, before any token is read. *)
Definition default_table : list TargetAlignElem :=
  Eval vm_compute in Alignments (init_defaults init_members).

(** What [init] maintains of the object. *)
Definition wf (TD : TargetData) : Prop :=
  sorted (Alignments TD)
  /\ Forall elem_ok (Alignments TD)
  /\ (forall e, In e default_table -> lookup_key e (Alignments TD) <> None)
  /\ 0 <= PointerMemSize TD < 256
  /\ 0 <= PointerABIAlign TD < 256
  /\ 0 <= PointerPrefAlign TD < 256
  /\ (PointerPrefAlign TD = 0 -> PointerABIAlign TD = 0).

(** The loop of [init] with the fuel of [init]: the length of [temp]. *)
Definition run (temp : str) (TD : TargetData) : option TargetData :=
  init_loop (length temp) temp TD.

(** [s] holds no character [d]. *)
Definition absent (d : ascii) (s : str) : bool :=
  forallb (fun c => negb (Ascii.eqb c d)) s.

(** The character is a decimal digit. *)
Definition is_digit (c : ascii) : bool :=
  match digit_value c with Some _ => true | None => false end.


(** The alignment type that the first character of a token selects. *)
Definition kind_of_char (c : ascii) : option AlignTypeEnum :=
  if Ascii.eqb c "i" then Some INTEGER_ALIGN
  else if Ascii.eqb c "f" then Some FLOAT_ALIGN
  else if Ascii.eqb c "v" then Some PACKED_ALIGN
  else if Ascii.eqb c "a" then Some AGGREGATE_ALIGN
  else None.




(** The element of 64 bits of type [k], when its ABI alignment is 0, has
    the alignments that [init] ends with: the size of the pointer. *)
Definition capped (k : AlignTypeEnum) (TD : TargetData) : Prop :=
  forall e,
    lookup_key (TargetAlignElem_get k 0 0 64) (Alignments TD) = Some e ->
    ABIAlign e = 0 -> PointerMemSize TD = 0 /\ PrefAlign e = 0.

(** The offsets [offs] place the elements [elts] one after the other from
    [start] on: each offset is a multiple of the ABI alignment of its
    element and leaves room for the element before it. *)
Fixpoint placed (getABITypeAlignment getTypeSize : Ty -> option Z)
    (elts : list Ty) (offs : list Z) (start : Z) : Prop :=
  match elts, offs with
  | [], [] => True
  | T :: elts', off :: offs' =>
      exists TyAlign TySize,
        getABITypeAlignment T = Some TyAlign
        /\ getTypeSize T = Some TySize
        /\ start <= off /\ off mod TyAlign = 0
        /\ placed getABITypeAlignment getTypeSize elts' offs' (off + TySize)
  | _, _ => False
  end.

(** The object that [init] builds from the empty string. *)
Definition default_TD : TargetData :=
  init_cap FLOAT_ALIGN (init_cap INTEGER_ALIGN (init_defaults init_members)).

(** ** Other members of StructLayout *)

(** [std::upper_bound(first, last, val)], by its contract: the position of
    the first element of the range that is greater than [val], the length
    of the range when there is none. *)
Fixpoint upper_bound (v : list Z) (val : Z) : nat :=
  match v with
  | [] => O
  | x :: rest => if x <=? val then S (upper_bound rest val) else O
  end.

(** [StructLayout::getElementContainingOffset]; [None] stands for a failed
    assertion.  [SI] is the position after the decrement. *)
Definition getElementContainingOffset (L : StructLayout) (Offset : Z)
    : option nat :=
  match upper_bound (MemberOffsets L) Offset with
  | O => None
  | S SI =>
      match nth_error (MemberOffsets L) SI with
      | Some x =>
          if negb (x <=? Offset) then None
          else if
            (match SI with
             | O => true
             | S before =>
                 match nth_error (MemberOffsets L) before with
                 | Some y => y <? Offset
                 | None => false
                 end
             end)
            && (match nth_error (MemberOffsets L) (S SI) with
                | Some z => Offset <? z
                | None => true
                end)
          then Some SI
          else None
      | None => None
      end
  end.

(** The offsets never decrease. *)
Fixpoint nondecreasing (v : list Z) : Prop :=
  match v with
  | [] => True
  | x :: rest => Forall (fun y => x <= y) rest /\ nondecreasing rest
  end.


(** ** Other queries of TargetData *)

(** Modelled from the spec: [Log2_32] is declared in [MathExtras.h], which
    is not among the sources.  It is the logarithm to base 2, rounded
    down, of a 32-bit value: 31 minus the number of its leading zeros,
    which for 0 is -1 as an [unsigned]. *)
Definition Log2_32 (Value : Z) : Z :=
  if Value =? 0 then to_unsigned32 (-1) else Z.log2 Value.

(** Modelled from the spec: a global variable, of which the queries read
    the element type of its pointer type, its alignment ([unsigned], 0
    when none was asked for) and whether it has an initializer. *)
Record GlobalVariable : Type := mkGlobalVariable {
  GV_ElementType : Ty;
  GV_Alignment : Z;
  GV_hasInitializer : bool
}.

Section OtherQueries.

Variable isSized : Ty -> bool.

Variable TD : TargetData.

(** [TargetData::getPreferredTypeAlignmentShift]; [None] also when the
    assertion on the power of two fails. *)
Definition getPreferredTypeAlignmentShift (T : Ty) : option Z :=
  match getPrefTypeAlignment isSized TD T with
  | Some a =>
      let Align := to_unsigned32 a in
      if negb (Z.land Align (to_unsigned32 (Align - 1)) =? 0) then None
      else Some (to_uchar (Log2_32 Align))
  | None => None
  end.

(** [TargetData::getIntPtrType]; [None] for the pointer sizes of the
    [default] label, where the assertion fails. *)
Definition getIntPtrType : option Ty :=
  if PointerMemSize TD =? 2 then Some (IntegerTy 16)
  else if PointerMemSize TD =? 4 then Some (IntegerTy 32)
  else if PointerMemSize TD =? 8 then Some (IntegerTy 64)
  else None.

(** [TargetData::getPreferredAlignmentLog]; the shift [1U << Alignment]
    is undefined from 32 on. *)
Definition getPreferredAlignmentLog (GV : GlobalVariable) : option Z :=
  let ElemType := GV_ElementType GV in
  match getPreferredTypeAlignmentShift ElemType with
  | Some Alignment =>
      if 32 <=? Alignment then None
      else
        let Alignment :=
          if to_unsigned32 (2 ^ Alignment) <? GV_Alignment GV
          then Log2_32 (GV_Alignment GV) else Alignment in
        if GV_hasInitializer GV && (Alignment <? 4) then
          match getTypeSize isSized TD ElemType with
          | Some Size => Some (if 128 <? Size then 4 else Alignment)
          | None => None
          end
        else Some Alignment
  | None => None
  end.

End OtherQueries.


(** ** Predicates of the statements on the queries *)

(** The keys that the queries on types look up in the table: the one of
    the aggregates, those of the integers of 1, 2, 4 and 8 bytes, those of
    [float] and [double], and any key of a vector. *)
Definition consulted (k : AlignTypeEnum) (w : Z) : bool :=
  match k with
  | AGGREGATE_ALIGN => w =? 0
  | INTEGER_ALIGN => (w =? 8) || (w =? 16) || (w =? 32) || (w =? 64)
  | FLOAT_ALIGN => (w =? 32) || (w =? 64)
  | PACKED_ALIGN => true
  end.

(** The alignment type that [getAlignment] chooses for a type that is
    neither a pointer nor an aggregate. *)
Definition scalar_AlignType (T : Ty) : AlignTypeEnum :=
  match T with
  | FloatTy | DoubleTy => FLOAT_ALIGN
  | PackedTy _ _ => PACKED_ALIGN
  | _ => INTEGER_ALIGN
  end.

(** An integer type of at most 64 bits, [void], [float] or [double]. *)
Definition supported_scalar (T : Ty) : bool :=
  match T with
  | IntegerTy BitWidth => BitWidth <=? 64
  | VoidTy | FloatTy | DoubleTy => true
  | _ => false
  end.

(** The types on which the queries can succeed: sized types made of
    labels, pointers, integers of at most 64 bits, [void], [float],
    [double], vectors of at most 128 bits, and arrays and structures of
    such types.  Every structure has at least one element: for the
    structure of no element [getStructLayout] asks [malloc] for the size
    of [getStructLayout_malloc_size], which is nearly 32 GiB where a
    [size_t] has 64 bits, and constructs the layout through the pointer
    returned without testing it. *)
Fixpoint supported (isSized : Ty -> bool) (T : Ty) : bool :=
  isSized T
  && match T with
     | LabelTy | VoidTy | FloatTy | DoubleTy | PointerTy _ => true
     | IntegerTy BitWidth => BitWidth <=? 64
     | ArrayTy ElementType _ => supported isSized ElementType
     | PackedTy _ BitWidth => (0 <=? BitWidth) && (BitWidth <? 136)
     | StructTy elts =>
         match elts with [] => false | _ :: _ => true end
         && forallb (supported isSized) elts
     | OtherTy => false
     end.

(** No ABI alignment is 0, but for the aggregates. *)
Definition no_zero_abi (TD : TargetData) : bool :=
  negb (PointerABIAlign TD =? 0)
  && forallb (fun e => AlignTypeEnum_eqb (AlignType e) AGGREGATE_ALIGN
                       || negb (ABIAlign e =? 0)) (Alignments TD).


(** ** The cache of the layouts *)

(** The types are unique objects, so that two pointers to types are equal
    exactly when the types are: [Ty_eqb] is the comparison of the
    pointers. *)
Fixpoint Ty_eqb (a b : Ty) {struct a} : bool :=
  match a, b with
  | LabelTy, LabelTy | VoidTy, VoidTy | FloatTy, FloatTy
  | DoubleTy, DoubleTy | OtherTy, OtherTy => true
  | IntegerTy x, IntegerTy y => x =? y
  | PointerTy x, PointerTy y => Ty_eqb x y
  | ArrayTy x n, ArrayTy y m => Ty_eqb x y && (n =? m)
  | PackedTy x n, PackedTy y m => Ty_eqb x y && (n =? m)
  | StructTy xs, StructTy ys =>
      (fix go (xs ys : list Ty) {struct xs} : bool :=
         match xs, ys with
         | [], [] => true
         | x :: xs', y :: ys' => Ty_eqb x y && go xs' ys'
         | _, _ => false
         end) xs ys
  | _, _ => false
  end.

(** [LayoutKey]: the address of the [TargetData] object and the structure
    type, given by its elements. *)
Definition LayoutKey : Type := (nat * list Ty)%type.

Definition LayoutKey_eqb (a b : LayoutKey) : bool :=
  Nat.eqb (fst a) (fst b) && Ty_eqb (StructTy (snd a)) (StructTy (snd b)).

(** What an entry of the map points to: the memory that [malloc] returned,
    before and after the constructor of [StructLayout] has run on it.
    Every entry owns the object it points to, so the entry holds the
    object. *)
Inductive Slot : Type :=
| Unbuilt
| Built (L : StructLayout).

(** Modelled from the spec: [DenseMap] is declared in [ADT/DenseMap.h],
    which is not among the sources.  It is a finite map, here the list of
    its entries; [DenseMap_find] is [find], [DenseMap_erase] is [erase]
    and [DenseMap_set] is the assignment through the reference that
    [operator[]] returns. *)
Definition LayoutInfoTy : Type := list (LayoutKey * Slot).

Fixpoint DenseMap_find (k : LayoutKey) (m : LayoutInfoTy) : option Slot :=
  match m with
  | [] => None
  | (k', v) :: rest =>
      if LayoutKey_eqb k' k then Some v else DenseMap_find k rest
  end.

Fixpoint DenseMap_erase (k : LayoutKey) (m : LayoutInfoTy) : LayoutInfoTy :=
  match m with
  | [] => []
  | (k', v) :: rest =>
      if LayoutKey_eqb k' k then DenseMap_erase k rest
      else (k', v) :: DenseMap_erase k rest
  end.

Definition DenseMap_set (k : LayoutKey) (v : Slot) (m : LayoutInfoTy)
    : LayoutInfoTy :=
  (k, v) :: DenseMap_erase k m.

(** Modelled from the spec: [ManagedStatic] is declared in
    [Support/ManagedStatic.h], which is not among the sources.  The
    object it manages is constructed when it is first dereferenced:
    [None] is the cache that is not constructed yet. *)
Definition ManagedStatic_get (LayoutInfo : option LayoutInfoTy)
    : LayoutInfoTy :=
  match LayoutInfo with Some TheMap => TheMap | None => [] end.

(** A computation that reads and extends the map, and that may fail. *)
Definition Cached (A : Type) : Type :=
  LayoutInfoTy -> option (A * LayoutInfoTy).

Definition Cached_ret {A : Type} (a : A) : Cached A :=
  fun TheMap => Some (a, TheMap).

Definition Cached_fail {A : Type} : Cached A := fun _ => None.

Definition Cached_lift {A : Type} (o : option A) : Cached A :=
  fun TheMap => match o with Some a => Some (a, TheMap) | None => None end.

Definition Cached_bind {A B : Type} (c : Cached A) (f : A -> Cached B)
    : Cached B :=
  fun TheMap =>
    match c TheMap with
    | Some (a, TheMap') => f a TheMap'
    | None => None
    end.

Notation "x <- c ;; k" := (Cached_bind c (fun x => k))
  (at level 61, c at next level, right associativity).

(** The loop of the constructor of [StructLayout], with the two queries
    reading the map: first the alignment, then the size. *)
Definition StructLayout_loop_c (getABITypeAlignment getTypeSize
    : Ty -> Cached Z) : list Ty -> StructLayout -> Cached StructLayout :=
  fix loop (elts : list Ty) (L : StructLayout) : Cached StructLayout :=
    match elts with
    | [] => Cached_ret L
    | T :: rest =>
        TyAlign <- getABITypeAlignment T ;;
        TySize <- getTypeSize T ;;
        match StructLayout_place (to_unsigned32 TyAlign)
                (to_unsigned32 TySize) L with
        | Some L' => loop rest L'
        | None => Cached_fail
        end
    end.

Section CachedQueries.

Variable isSized : Ty -> bool.

(** The address of the object, and the object. *)
Variable this : nat.

Variable TD : TargetData.

(** [TargetData::getStructLayout], given the two queries of the
    constructor.  The entry is set before the constructor runs; an entry
    found is returned as it is, and reading one on which the constructor
    has not run is undefined. *)
Definition getStructLayout_with (getABITypeAlignment getTypeSize
    : Ty -> Cached Z) (elts : list Ty) : Cached StructLayout :=
  fun TheMap =>
    match DenseMap_find (this, elts) TheMap with
    | Some (Built SL) => Some (SL, TheMap)
    | Some Unbuilt => None
    | None =>
        match StructLayout_loop_c getABITypeAlignment getTypeSize elts
                {| StructSize := 0; StructAlignment := 0;
                   MemberOffsets := [] |}
                (DenseMap_set (this, elts) Unbuilt TheMap) with
        | Some (L, TheMap') =>
            Some (StructLayout_finish L,
                  DenseMap_set (this, elts) (Built (StructLayout_finish L))
                    TheMap')
        | None => None
        end
    end.

(** [TargetData::getTypeSize] and [TargetData::getAlignment(const Type *,
    bool)] with the cache of [getStructLayout]. *)
Fixpoint getTypeSize_c (T : Ty) {struct T} : Cached Z :=
  if negb (isSized T) then Cached_fail
  else
    match T with
    | LabelTy | PointerTy _ => Cached_ret (PointerMemSize TD)
    | ArrayTy ElementType NumElements =>
        Size <- getTypeSize_c ElementType ;;
        Alignment <- getAlignmentTy_c ElementType true ;;
        if Alignment =? 0 then Cached_fail
        else
          let AlignedSize :=
            to_unsigned32
              (to_uint64
                 (to_uint64 (Size + Alignment - 1) / Alignment
                  * Alignment)) in
          Cached_ret (to_uint64 (AlignedSize * NumElements))
    | StructTy elts =>
        Layout <- getStructLayout_with (fun E => getAlignmentTy_c E true)
                    getTypeSize_c elts ;;
        Cached_ret (StructSize Layout)
    | IntegerTy _ | VoidTy | FloatTy | DoubleTy | PackedTy _ _ =>
        Cached_lift (getTypeSize_scalar T)
    | OtherTy => Cached_fail
    end

with getAlignmentTy_c (T : Ty) (abi_or_pref : bool) {struct T} : Cached Z :=
  if negb (isSized T) then Cached_fail
  else
    let lookup (AlignType : AlignTypeEnum) :=
      match getTypeSize_scalar T with
      | Some Size =>
          match getAlignment TD AlignType (to_short (to_uint64 (Size * 8)))
          with
          | Some elem =>
              Some (if abi_or_pref then ABIAlign elem else PrefAlign elem)
          | None => None
          end
      | None => None
      end in
    match T with
    | LabelTy | PointerTy _ =>
        Cached_ret
          (if abi_or_pref then PointerABIAlign TD else PointerPrefAlign TD)
    | ArrayTy ElementType _ => getAlignmentTy_c ElementType abi_or_pref
    | StructTy elts =>
        Layout <- getStructLayout_with (fun E => getAlignmentTy_c E true)
                    getTypeSize_c elts ;;
        match getAlignment TD AGGREGATE_ALIGN 0 with
        | Some elem =>
            let a := if abi_or_pref then ABIAlign elem else PrefAlign elem in
            Cached_ret
              (to_uchar
                 (if a <? StructAlignment Layout
                  then StructAlignment Layout else a))
        | None => Cached_fail
        end
    | IntegerTy _ | VoidTy => Cached_lift (lookup INTEGER_ALIGN)
    | FloatTy | DoubleTy => Cached_lift (lookup FLOAT_ALIGN)
    | PackedTy _ _ => Cached_lift (lookup PACKED_ALIGN)
    | OtherTy => Cached_fail
    end.

(** [TargetData::getStructLayout] *)
Definition getStructLayout_c (elts : list Ty) : Cached StructLayout :=
  getStructLayout_with (fun E => getAlignmentTy_c E true) getTypeSize_c elts.

(** [TargetData::InvalidateStructLayoutInfo] *)
Definition InvalidateStructLayoutInfo (elts : list Ty)
    (LayoutInfo : option LayoutInfoTy) : option LayoutInfoTy :=
  match LayoutInfo with
  | None => None
  | Some TheMap => Some (DenseMap_erase (this, elts) TheMap)
  end.

(** [TargetData::~TargetData]: the loop erases the entries of the
    object. *)
Definition TargetData_destroy (LayoutInfo : option LayoutInfoTy)
    : option LayoutInfoTy :=
  match LayoutInfo with
  | None => None
  | Some TheMap =>
      Some (filter (fun entry => negb (Nat.eqb (fst (fst entry)) this))
              TheMap)
  end.

(** Every entry of the object holds the layout of its structure type. *)
Definition coherent (TheMap : LayoutInfoTy) : Prop :=
  forall elts s,
    DenseMap_find (this, elts) TheMap = Some s ->
    exists L, s = Built L /\ getStructLayout isSized TD elts = Some L.

(** From [m] to [m']: the entries stay as they are, those of the other
    objects are the same, and the new ones hold the layout of their
    type. *)
Definition extends (m m' : LayoutInfoTy) : Prop :=
  (forall k s, DenseMap_find k m = Some s -> DenseMap_find k m' = Some s)
  /\ (forall k s,
        DenseMap_find k m = None -> DenseMap_find k m' = Some s ->
        fst k = this
        /\ exists L, s = Built L
                     /\ getStructLayout isSized TD (snd k) = Some L).

End CachedQueries.

(** The number of constructors of a type. *)
Fixpoint Ty_size (T : Ty) : nat :=
  match T with
  | PointerTy E | ArrayTy E _ | PackedTy E _ => S (Ty_size E)
  | StructTy elts => S (list_sum (map Ty_size elts))
  | _ => 1%nat
  end.

(** The entries of the object hold the layout of their type, but for
    those of types of more than [n] constructors, on which the constructor
    may not have run yet. *)
Definition slots_ok (isSized : Ty -> bool) (this : nat) (TD : TargetData)
    (n : nat) (m : LayoutInfoTy) : Prop :=
  forall elts s,
    DenseMap_find (this, elts) m = Some s ->
    match s with
    | Built L => getStructLayout isSized TD elts = Some L
    | Unbuilt => (n < Ty_size (StructTy elts))%nat
    end.


(** The computation [q] on a map within the bound [n] returns what [p]
    is, and extends the map. *)
Definition agrees (isSized : Ty -> bool) (this : nat) (TD : TargetData)
    {A : Type} (n : nat) (q : Cached A) (p : option A) : Prop :=
  forall m,
    slots_ok isSized this TD n m ->
    exists m',
      extends isSized this TD m m'
      /\ q m = option_map (fun a => (a, m')) p.


(** The size that [getStructLayout] asks of [malloc] for a structure type
    of [NumElts] elements: [NumElts - 1] is computed as an [unsigned], the
    product and the sum as a [size_t], of [size_t_bits] bits.
    [sizeof_StructLayout] is the size of the object with one offset, and
    the size of a [uint64_t] is 8. *)
Definition getStructLayout_malloc_size (size_t_bits sizeof_StructLayout
    NumElts : Z) : Z :=
  to_unsigned size_t_bits
    (sizeof_StructLayout
     + to_unsigned size_t_bits (to_unsigned32 (NumElts - 1) * 8)).


(** The offsets [offs] place the elements [elts] from [start] on with less
    padding before each element than its ABI alignment; [fin] is the end
    of the last element. *)
Fixpoint tight (getABITypeAlignment getTypeSize : Ty -> option Z)
    (elts : list Ty) (offs : list Z) (start fin : Z) : Prop :=
  match elts, offs with
  | [], [] => fin = start
  | T :: elts', off :: offs' =>
      exists TyAlign TySize,
        getABITypeAlignment T = Some TyAlign
        /\ getTypeSize T = Some TySize
        /\ off < start + TyAlign
        /\ tight getABITypeAlignment getTypeSize elts' offs' (off + TySize)
             fin
  | _, _ => False
  end.


(** * Properties *)

(** ** Machine integers *)

Lemma to_unsigned_range (w x : Z) : 0 <= w -> 0 <= to_unsigned w x < 2 ^ w.
Proof.
  intros Hw. unfold to_unsigned. apply Z.mod_pos_bound. apply Z.pow_pos_nonneg; lia.
Qed.

Lemma to_unsigned_small (w x : Z) : 0 <= x < 2 ^ w -> to_unsigned w x = x.
Proof. intros H. unfold to_unsigned. apply Z.mod_small; exact H. Qed.

Lemma to_uchar_range (x : Z) : 0 <= to_uchar x < 256.
Proof. apply (to_unsigned_range 8 x). lia. Qed.

Lemma to_uchar_small (x : Z) : 0 <= x < 256 -> to_uchar x = x.
Proof. intros H. apply (to_unsigned_small 8 x). exact H. Qed.

Lemma to_unsigned32_small (x : Z) : 0 <= x < 2 ^ 32 -> to_unsigned32 x = x.
Proof. apply to_unsigned_small. Qed.

Lemma to_uint64_small (x : Z) : 0 <= x < 2 ^ 64 -> to_uint64 x = x.
Proof. apply to_unsigned_small. Qed.

Lemma to_uint64_range (x : Z) : 0 <= to_uint64 x < 2 ^ 64.
Proof. apply (to_unsigned_range 64 x). lia. Qed.

Lemma to_signed_range (w x : Z) :
  0 < w -> - 2 ^ (w - 1) <= to_signed w x < 2 ^ (w - 1).
Proof.
  intros Hw. unfold to_signed.
  assert (H2 : 2 ^ w = 2 * 2 ^ (w - 1)).
  { replace w with (Z.succ (w - 1)) at 1 by lia. apply Z.pow_succ_r. lia. }
  pose proof (Z.mod_pos_bound x (2 ^ w)) as Hb.
  assert (0 < 2 ^ (w - 1)) by (apply Z.pow_pos_nonneg; lia).
  destruct (Z.ltb_spec (x mod 2 ^ w) (2 ^ (w - 1))); lia.
Qed.

Lemma to_signed_small (w x : Z) :
  0 < w -> - 2 ^ (w - 1) <= x < 2 ^ (w - 1) -> to_signed w x = x.
Proof.
  intros Hw Hx. unfold to_signed.
  assert (H2 : 2 ^ w = 2 * 2 ^ (w - 1)).
  { replace w with (Z.succ (w - 1)) at 1 by lia. apply Z.pow_succ_r. lia. }
  assert (0 < 2 ^ (w - 1)) by (apply Z.pow_pos_nonneg; lia).
  destruct (Z.lt_ge_cases x 0) as [Hneg | Hpos].
  - assert (Hm : x mod 2 ^ w = x + 2 ^ w).
    { symmetry. apply Z.mod_unique with (q := -1); lia. }
    rewrite Hm. destruct (Z.ltb_spec (x + 2 ^ w) (2 ^ (w - 1))); lia.
  - rewrite Z.mod_small by lia.
    destruct (Z.ltb_spec x (2 ^ (w - 1))); lia.
Qed.

Lemma to_short_range (x : Z) : -32768 <= to_short x < 32768.
Proof. apply (to_signed_range 16 x). lia. Qed.

Lemma to_short_small (x : Z) : -32768 <= x < 32768 -> to_short x = x.
Proof. intros H. apply (to_signed_small 16 x); [lia | exact H]. Qed.

Lemma to_int_small (x : Z) : - 2 ^ 31 <= x < 2 ^ 31 -> to_int x = x.
Proof. intros H. apply (to_signed_small 32 x); [lia | exact H]. Qed.

(** ** The order of the keys *)

Lemma AlignTypeEnum_value_inj (a b : AlignTypeEnum) :
  AlignTypeEnum_value a = AlignTypeEnum_value b -> a = b.
Proof. destruct a, b; vm_compute; congruence. Qed.

Lemma AlignTypeEnum_eqb_eq (a b : AlignTypeEnum) :
  AlignTypeEnum_eqb a b = true <-> a = b.
Proof.
  unfold AlignTypeEnum_eqb. rewrite Z.eqb_eq. split.
  - apply AlignTypeEnum_value_inj.
  - intros ->. reflexivity.
Qed.

Lemma lt_true (a b : TargetAlignElem) :
  TargetAlignElem_lt a b = true <->
  AlignTypeEnum_value (AlignType a) < AlignTypeEnum_value (AlignType b)
  \/ (AlignTypeEnum_value (AlignType a) = AlignTypeEnum_value (AlignType b)
      /\ TypeBitWidth a < TypeBitWidth b).
Proof.
  unfold TargetAlignElem_lt, AlignTypeEnum_eqb.
  rewrite orb_true_iff, andb_true_iff, Z.ltb_lt, Z.eqb_eq, Z.ltb_lt.
  reflexivity.
Qed.

Lemma lt_false (a b : TargetAlignElem) :
  TargetAlignElem_lt a b = false <->
  AlignTypeEnum_value (AlignType b) < AlignTypeEnum_value (AlignType a)
  \/ (AlignTypeEnum_value (AlignType a) = AlignTypeEnum_value (AlignType b)
      /\ TypeBitWidth b <= TypeBitWidth a).
Proof.
  rewrite <- not_true_iff_false, lt_true. lia.
Qed.

Lemma same_key_true (a b : TargetAlignElem) :
  same_key a b = true <->
  AlignTypeEnum_value (AlignType a) = AlignTypeEnum_value (AlignType b)
  /\ TypeBitWidth a = TypeBitWidth b.
Proof.
  unfold same_key, AlignTypeEnum_eqb.
  rewrite andb_true_iff, !Z.eqb_eq. reflexivity.
Qed.

Lemma same_key_false (a b : TargetAlignElem) :
  same_key a b = false <->
  AlignTypeEnum_value (AlignType a) <> AlignTypeEnum_value (AlignType b)
  \/ TypeBitWidth a <> TypeBitWidth b.
Proof.
  rewrite <- not_true_iff_false, same_key_true. lia.
Qed.

(** Turns the comparisons of elements in the goal and the hypotheses into
    comparisons of integers. *)
Ltac key_order :=
  repeat match goal with
  | H : TargetAlignElem_lt _ _ = true |- _ => apply lt_true in H
  | H : TargetAlignElem_lt _ _ = false |- _ => apply lt_false in H
  | H : same_key _ _ = true |- _ => apply same_key_true in H
  | H : same_key _ _ = false |- _ => apply same_key_false in H
  | |- TargetAlignElem_lt _ _ = true => apply lt_true
  | |- TargetAlignElem_lt _ _ = false => apply lt_false
  | |- same_key _ _ = true => apply same_key_true
  | |- same_key _ _ = false => apply same_key_false
  end.

Lemma same_key_eq (a b : TargetAlignElem) :
  same_key a b = true ->
  AlignType a = AlignType b /\ TypeBitWidth a = TypeBitWidth b.
Proof.
  intros H. key_order. destruct H as [Hk Hw].
  split; [apply AlignTypeEnum_value_inj; exact Hk | exact Hw].
Qed.

(** ** The table as a sorted list *)

Lemma lower_bound_le (v : list TargetAlignElem) (val : TargetAlignElem) :
  (lower_bound v val <= length v)%nat.
Proof.
  induction v as [| e rest IH]; simpl; [lia |].
  destruct (TargetAlignElem_lt e val); lia.
Qed.

Lemma lower_bound_find (v : list TargetAlignElem) (val : TargetAlignElem) :
  nth_error v (lower_bound v val)
  = find (fun e => negb (TargetAlignElem_lt e val)) v.
Proof.
  induction v as [| e rest IH]; simpl; [reflexivity |].
  destruct (TargetAlignElem_lt e val); simpl; [exact IH | reflexivity].
Qed.

Lemma table_set_spec (elt : TargetAlignElem) (v : list TargetAlignElem) :
  table_set elt v
  = let I := lower_bound v elt in
    match nth_error v I with
    | Some e =>
        if same_key e elt
        then vector_assign I
               (mkTargetAlignElem (AlignType e) (ABIAlign elt) (PrefAlign elt)
                  (TypeBitWidth e)) v
        else vector_insert I elt v
    | None => vector_insert I elt v
    end.
Proof.
  induction v as [| e rest IH]; simpl; [reflexivity |].
  destruct (TargetAlignElem_lt e elt) eqn:Hlt; simpl.
  - rewrite IH. simpl.
    destruct (nth_error rest (lower_bound rest elt)) as [e' |]; [| reflexivity].
    destruct (same_key e' elt); reflexivity.
  - unfold vector_assign, vector_insert. simpl.
    destruct (same_key e elt) eqn:Hk; [| reflexivity].
    apply same_key_eq in Hk. destruct Hk as [Hk Hw].
    destruct elt as [k a p w]. simpl in *. subst. reflexivity.
Qed.

Lemma setAlignment_Alignments (k : AlignTypeEnum) (a p w : Z)
    (TD : TargetData) :
  Alignments (setAlignment k a p w TD)
  = table_set (TargetAlignElem_get k a p w) (Alignments TD).
Proof.
  rewrite table_set_spec. unfold setAlignment. cbv zeta.
  destruct (nth_error (Alignments TD)
              (lower_bound (Alignments TD) (TargetAlignElem_get k a p w)))
    as [e |]; [| reflexivity].
  unfold same_key. simpl.
  destruct (AlignTypeEnum_eqb (AlignType e) k && (TypeBitWidth e =? w));
    reflexivity.
Qed.

Lemma setAlignment_frame (k : AlignTypeEnum) (a p w : Z) (TD : TargetData) :
  LittleEndian (setAlignment k a p w TD) = LittleEndian TD
  /\ PointerMemSize (setAlignment k a p w TD) = PointerMemSize TD
  /\ PointerABIAlign (setAlignment k a p w TD) = PointerABIAlign TD
  /\ PointerPrefAlign (setAlignment k a p w TD) = PointerPrefAlign TD
  /\ (PastEndReads TD <= PastEndReads (setAlignment k a p w TD))%nat.
Proof.
  unfold setAlignment. cbv zeta.
  destruct (nth_error _ _) as [e |]; simpl.
  - destruct (_ && _); simpl; repeat split; lia.
  - repeat split; lia.
Qed.

Lemma sorted_table_set (elt : TargetAlignElem) (v : list TargetAlignElem) :
  sorted v -> sorted (table_set elt v).
Proof.
  induction v as [| e rest IH]; simpl; intros Hs.
  - split; [constructor | exact I].
  - destruct Hs as [Hall Hs].
    destruct (TargetAlignElem_lt e elt) eqn:Hlt.
    + simpl. split; [| apply IH; exact Hs].
      clear IH Hs. induction rest as [| r rest IH]; simpl.
      * constructor; [exact Hlt | constructor].
      * inversion Hall as [| ? ? Hr Hrest]; subst.
        destruct (TargetAlignElem_lt r elt).
        -- constructor; [exact Hr | apply IH; exact Hrest].
        -- destruct (same_key r elt).
           ++ constructor; [exact Hlt | exact Hrest].
           ++ constructor; [exact Hlt | constructor; assumption].
    + destruct (same_key e elt) eqn:Hk; simpl.
      * split; [| exact Hs].
        eapply Forall_impl; [| exact Hall].
        intros r Hr. simpl in Hr. key_order. lia.
      * split; [| split; assumption].
        assert (He : TargetAlignElem_lt elt e = true) by (key_order; lia).
        constructor; [exact He |].
        eapply Forall_impl; [| exact Hall].
        intros r Hr. simpl in Hr. key_order. lia.
Qed.

Lemma Forall_table_set (P : TargetAlignElem -> Prop) (elt : TargetAlignElem)
    (v : list TargetAlignElem) :
  P elt -> Forall P v -> Forall P (table_set elt v).
Proof.
  intros He. induction 1 as [| e rest Hx Hrest IH]; simpl.
  - constructor; [exact He | constructor].
  - destruct (TargetAlignElem_lt e elt).
    + constructor; assumption.
    + destruct (same_key e elt); repeat (constructor; try assumption).
Qed.

Lemma In_table_set (elt x : TargetAlignElem) (v : list TargetAlignElem) :
  In x (table_set elt v) -> x = elt \/ In x v.
Proof.
  induction v as [| e rest IH]; simpl.
  - intros [<- | []]. left; reflexivity.
  - destruct (TargetAlignElem_lt e elt); simpl.
    + intros [<- | H]; [right; left; reflexivity |].
      destruct (IH H) as [-> | Hin]; [left; reflexivity | right; right; exact Hin].
    + destruct (same_key e elt); simpl; intuition auto.
Qed.

Lemma lookup_key_table_set (key elt : TargetAlignElem)
    (v : list TargetAlignElem) :
  lookup_key key (table_set elt v)
  = if same_key elt key then Some elt else lookup_key key v.
Proof.
  unfold lookup_key. induction v as [| e rest IH]; simpl.
  - reflexivity.
  - destruct (TargetAlignElem_lt e elt) eqn:Hlt; simpl.
    + rewrite IH. destruct (same_key elt key) eqn:Hk; [| reflexivity].
      assert (Hne : same_key e key = false) by (key_order; lia).
      rewrite Hne. reflexivity.
    + destruct (same_key e elt) eqn:Hee; simpl.
      * destruct (same_key elt key) eqn:Hk; [reflexivity |].
        assert (Hne : same_key e key = false) by (key_order; lia).
        rewrite Hne. reflexivity.
      * reflexivity.
Qed.

Lemma lookup_key_In (key e : TargetAlignElem) (v : list TargetAlignElem) :
  lookup_key key v = Some e -> In e v /\ same_key e key = true.
Proof. unfold lookup_key. intros H. apply find_some in H. exact H. Qed.

Lemma lookup_key_above (key e : TargetAlignElem) (v : list TargetAlignElem) :
  TargetAlignElem_lt e key = false ->
  Forall (fun r => TargetAlignElem_lt e r = true) v ->
  lookup_key key v = None.
Proof.
  intros He Hall. unfold lookup_key.
  induction Hall as [| r rest Hr Hrest IH]; simpl; [reflexivity |].
  assert (Hne : same_key r key = false) by (key_order; lia).
  rewrite Hne. exact IH.
Qed.

Lemma lookup_key_sorted_In (e : TargetAlignElem) (v : list TargetAlignElem) :
  sorted v -> In e v -> lookup_key e v = Some e.
Proof.
  unfold lookup_key. induction v as [| x rest IH]; simpl; [intros _ [] |].
  intros [Hall Hs] [-> | Hin].
  - assert (Hk : same_key e e = true) by (key_order; lia).
    rewrite Hk. reflexivity.
  - rewrite Forall_forall in Hall. pose proof (Hall e Hin) as Hlt.
    assert (Hne : same_key x e = false) by (key_order; lia).
    rewrite Hne. apply IH; assumption.
Qed.

(** A table in strictly increasing order is determined by what is found
    under each key. *)
Lemma sorted_ext (v1 v2 : list TargetAlignElem) :
  sorted v1 -> sorted v2 ->
  (forall key, lookup_key key v1 = lookup_key key v2) -> v1 = v2.
Proof.
  revert v2. induction v1 as [| e1 r1 IH]; intros [| e2 r2] Hs1 Hs2 Hext.
  - reflexivity.
  - specialize (Hext e2). rewrite (lookup_key_sorted_In e2 (e2 :: r2)) in Hext
      by (auto; left; reflexivity). discriminate.
  - specialize (Hext e1). rewrite (lookup_key_sorted_In e1 (e1 :: r1)) in Hext
      by (auto; left; reflexivity). discriminate.
  - destruct Hs1 as [Hall1 Hs1]. destruct Hs2 as [Hall2 Hs2].
    assert (Hself : forall x, same_key x x = true) by (intros; key_order; lia).
    assert (He : e1 = e2).
    { pose proof (Hext e1) as H1. pose proof (Hext e2) as H2.
      unfold lookup_key in H1, H2. simpl in H1, H2.
      rewrite Hself in H1. rewrite Hself in H2.
      destruct (same_key e2 e1) eqn:H21; [congruence |].
      destruct (same_key e1 e2) eqn:H12; [congruence |].
      symmetry in H1. apply find_some in H1. destruct H1 as [Hin1 Hk1].
      apply find_some in H2. destruct H2 as [Hin2 Hk2].
      rewrite Forall_forall in Hall1, Hall2.
      pose proof (Hall2 _ Hin1) as Ha. pose proof (Hall1 _ Hin2) as Hb.
      exfalso. key_order. lia. }
    subst e2. f_equal. apply IH; try assumption.
    intros key. specialize (Hext key). unfold lookup_key in *. simpl in Hext.
    destruct (same_key e1 key) eqn:Hk; [| exact Hext].
    assert (Hnlt : TargetAlignElem_lt e1 key = false) by (key_order; lia).
    pose proof (lookup_key_above key e1 r1 Hnlt Hall1) as Hn1.
    pose proof (lookup_key_above key e1 r2 Hnlt Hall2) as Hn2.
    unfold lookup_key in Hn1, Hn2. congruence.
Qed.

(** ** What [init] maintains *)

Lemma wf_setAlignment (k : AlignTypeEnum) (a p w : Z) (TD : TargetData) :
  wf TD -> 0 <= a < 256 -> 0 <= p < 256 -> -32768 <= w < 32768 ->
  (p = 0 -> a = 0) -> wf (setAlignment k a p w TD).
Proof.
  intros (Hs & Hok & Hseed & Hptr) Ha Hp Hw Hpa.
  destruct (setAlignment_frame k a p w TD) as (_ & E1 & E2 & E3 & _).
  unfold wf. rewrite E1, E2, E3, setAlignment_Alignments.
  split; [apply sorted_table_set; exact Hs |].
  split; [apply Forall_table_set; [repeat split; simpl; lia || auto | exact Hok] |].
  split; [| exact Hptr].
  intros e He. rewrite lookup_key_table_set.
  destruct (same_key _ e); [discriminate | apply Hseed; exact He].
Qed.

Lemma sortedb_sound (v : list TargetAlignElem) : sortedb v = true -> sorted v.
Proof.
  induction v as [| e rest IH]; simpl; [trivial |].
  rewrite andb_true_iff, forallb_forall. intros [Hall Hs].
  split; [apply Forall_forall; exact Hall | apply IH; exact Hs].
Qed.

Lemma elem_okb_sound (e : TargetAlignElem) : elem_okb e = true -> elem_ok e.
Proof.
  unfold elem_okb, elem_ok.
  rewrite !andb_true_iff, orb_true_iff, negb_true_iff, !Z.leb_le, !Z.ltb_lt,
    Z.eqb_neq, Z.eqb_eq.
  lia.
Qed.

Lemma init_defaults_eq :
  init_defaults init_members = mkTargetData false 8 8 8 default_table 7.
Proof. vm_compute. reflexivity. Qed.

Lemma default_table_eq :
  default_table
  = [ mkTargetAlignElem AGGREGATE_ALIGN 0 0 0;
      mkTargetAlignElem FLOAT_ALIGN 4 4 32;
      mkTargetAlignElem FLOAT_ALIGN 0 8 64;
      mkTargetAlignElem INTEGER_ALIGN 1 1 1;
      mkTargetAlignElem INTEGER_ALIGN 1 1 8;
      mkTargetAlignElem INTEGER_ALIGN 2 2 16;
      mkTargetAlignElem INTEGER_ALIGN 4 4 32;
      mkTargetAlignElem INTEGER_ALIGN 0 8 64;
      mkTargetAlignElem PACKED_ALIGN 8 8 64;
      mkTargetAlignElem PACKED_ALIGN 16 16 128 ].
Proof. reflexivity. Qed.

Lemma default_table_sorted : sorted default_table.
Proof. apply sortedb_sound. vm_compute. reflexivity. Qed.

Lemma default_table_ok : Forall elem_ok default_table.
Proof.
  apply Forall_forall. intros e He. apply elem_okb_sound.
  revert e He. apply forallb_forall. vm_compute. reflexivity.
Qed.

Lemma default_table_keys (e : TargetAlignElem) :
  In e default_table -> lookup_key e default_table <> None.
Proof.
  intros He. rewrite default_table_eq in He. simpl in He.
  repeat (destruct He as [<- | He]; [vm_compute; discriminate |]).
  destruct He.
Qed.

Lemma wf_defaults : wf (init_defaults init_members).
Proof.
  rewrite init_defaults_eq.
  refine (conj default_table_sorted
            (conj default_table_ok (conj default_table_keys _))).
  simpl. lia.
Qed.

Lemma next_field_bytes_range (token : str) :
  0 <= fst (next_field_bytes token) < 256.
Proof.
  unfold next_field_bytes. destruct (getToken token (lit ":")) as [field rest].
  simpl. apply to_uchar_range.
Qed.

Lemma wf_init_token (token : str) (TD : TargetData) :
  wf TD -> wf (init_token token TD).
Proof.
  intros Hwf. unfold init_token.
  destruct (getToken token (lit ":")) as [arg0 rest].
  destruct arg0 as [| c p]; [exact Hwf |].
  destruct (Ascii.eqb c "E"); [exact Hwf |].
  destruct (Ascii.eqb c "e"); [exact Hwf |].
  destruct (Ascii.eqb c "p").
  - pose proof (next_field_bytes_range rest) as H1.
    destruct (next_field_bytes rest) as [size r1].
    pose proof (next_field_bytes_range r1) as H2.
    destruct (next_field_bytes r1) as [abi r2].
    pose proof (next_field_bytes_range r2) as H3.
    destruct (next_field_bytes r2) as [pref r3].
    simpl in H1, H2, H3.
    destruct Hwf as (Hs & Hok & Hseed & _).
    unfold wf. simpl. repeat split; try assumption; try lia.
    + destruct (Z.eqb_spec pref 0); lia.
    + destruct (Z.eqb_spec pref 0); lia.
    + destruct (Z.eqb_spec pref 0); lia.
  - destruct (_ || _); [| exact Hwf].
    pose proof (next_field_bytes_range rest) as H1.
    destruct (next_field_bytes rest) as [abi r1].
    pose proof (next_field_bytes_range r1) as H2.
    destruct (next_field_bytes r1) as [pref r2].
    simpl in H1, H2.
    apply wf_setAlignment; try assumption.
    + destruct (Z.eqb_spec pref 0); lia.
    + apply to_short_range.
    + destruct (Z.eqb_spec pref 0); lia.
Qed.

Lemma getAlignment_In (TD : TargetData) (k : AlignTypeEnum) (w : Z)
    (e : TargetAlignElem) :
  getAlignment TD k w = Some e -> In e (Alignments TD).
Proof. unfold getAlignment. apply nth_error_In. Qed.

Lemma wf_init_cap (k : AlignTypeEnum) (TD : TargetData) :
  wf TD -> wf (init_cap k TD).
Proof.
  intros Hwf. unfold init_cap.
  destruct (getAlignment TD k 64) as [e |].
  - destruct (ABIAlign e =? 0); [| exact Hwf].
    destruct Hwf as (Hs & Hok & Hseed & Hsz & Hrest).
    apply wf_setAlignment; try lia; try auto.
    repeat split; tauto.
  - exact Hwf.
Qed.

(** ** The loop of [init] ends *)

Lemma skip_delimiters_length (D s : str) :
  (length (skip_delimiters D s) <= length s)%nat.
Proof.
  induction s as [| c rest IH]; simpl; [lia |].
  destruct (is_delimiter D c); simpl; lia.
Qed.

Lemma take_token_length (D s : str) :
  (length (snd (take_token D s)) <= length s)%nat.
Proof.
  induction s as [| c rest IH]; simpl; [lia |].
  destruct (is_delimiter D c); simpl; [lia |].
  destruct (take_token D rest) as [tok left]. simpl in *. lia.
Qed.

Lemma getToken_shorter (D : str) (c : ascii) (s : str) :
  (length (snd (getToken (c :: s) D)) < length (c :: s))%nat.
Proof.
  unfold getToken. simpl. destruct (is_delimiter D c) eqn:Hc.
  - pose proof (take_token_length D (skip_delimiters D s)).
    pose proof (skip_delimiters_length D s). lia.
  - simpl. rewrite Hc. pose proof (take_token_length D s).
    destruct (take_token D s). simpl in *. lia.
Qed.

Lemma init_loop_S (fuel : nat) (c : ascii) (s : str) (TD : TargetData) :
  init_loop (S fuel) (c :: s) TD
  = let (token, temp') := getToken (c :: s) (lit "-") in
    init_loop fuel temp' (init_token token TD).
Proof. reflexivity. Qed.

Lemma init_loop_fuel (f1 f2 : nat) (temp : str) (TD : TargetData) :
  (length temp <= f1)%nat -> (length temp <= f2)%nat ->
  init_loop f1 temp TD = init_loop f2 temp TD.
Proof.
  revert f2 temp TD. induction f1 as [| f1 IH]; intros f2 temp TD H1 H2.
  - destruct temp; [destruct f2; reflexivity | simpl in H1; lia].
  - destruct temp as [| c s]; [destruct f2; reflexivity |].
    destruct f2 as [| f2]; [simpl in H2; lia |].
    rewrite !init_loop_S. pose proof (getToken_shorter (lit "-") c s) as Hlen.
    destruct (getToken (c :: s) (lit "-")) as [token temp'].
    simpl in Hlen, H1, H2. apply IH; lia.
Qed.

Lemma init_loop_total (fuel : nat) (temp : str) (TD : TargetData) :
  (length temp <= fuel)%nat -> exists TD', init_loop fuel temp TD = Some TD'.
Proof.
  revert temp TD. induction fuel as [| fuel IH]; intros temp TD H.
  - destruct temp; [exists TD; reflexivity | simpl in H; lia].
  - destruct temp as [| c s]; [exists TD; reflexivity |].
    rewrite init_loop_S. pose proof (getToken_shorter (lit "-") c s) as Hlen.
    destruct (getToken (c :: s) (lit "-")) as [token temp'].
    simpl in Hlen, H. apply IH; lia.
Qed.

Lemma init_loop_inv (P : TargetData -> Prop) :
  (forall token TD, P TD -> P (init_token token TD)) ->
  forall fuel temp TD TD',
    P TD -> init_loop fuel temp TD = Some TD' -> P TD'.
Proof.
  intros Hstep. induction fuel as [| fuel IH]; intros temp TD TD' HP H.
  - destruct temp; simpl in H; [congruence | discriminate].
  - destruct temp as [| c s]; [simpl in H; congruence |].
    rewrite init_loop_S in H.
    destruct (getToken (c :: s) (lit "-")) as [token temp'].
    eapply IH; [| exact H]. apply Hstep. exact HP.
Qed.

Lemma init_total (s : str) : exists TD, init s = Some TD.
Proof.
  unfold init.
  destruct (init_loop_total (length s) s (init_defaults init_members))
    as [TD H]; [lia |].
  rewrite H. eexists. reflexivity.
Qed.

Lemma init_wf (s : str) (TD : TargetData) : init s = Some TD -> wf TD.
Proof.
  unfold init. intros H.
  destruct (init_loop _ _ _) as [TD1 |] eqn:Hloop; [| discriminate].
  injection H as <-.
  apply wf_init_cap, wf_init_cap.
  eapply init_loop_inv; [apply wf_init_token | apply wf_defaults | exact Hloop].
Qed.

Lemma init_empty : init [] = Some default_TD.
Proof. vm_compute. reflexivity. Qed.

(** ** The lookup in the table *)

Lemma find_ext_eq (A : Type) (f g : A -> bool) (l : list A) :
  (forall x, f x = g x) -> find f l = find g l.
Proof.
  intros H. induction l as [| x rest IH]; simpl; [reflexivity |].
  rewrite H, IH. reflexivity.
Qed.

Lemma find_first_sorted (key e : TargetAlignElem) (v : list TargetAlignElem) :
  sorted v ->
  find (fun x => negb (TargetAlignElem_lt x key)) v = Some e ->
  forall r, In r v -> TargetAlignElem_lt r key = false ->
            TargetAlignElem_lt r e = false.
Proof.
  induction v as [| x rest IH]; simpl; [discriminate |].
  intros [Hall Hs] Hfind r Hin Hr.
  destruct (TargetAlignElem_lt x key) eqn:Hx; simpl in Hfind.
  - destruct Hin as [-> | Hin]; [congruence |].
    apply IH; assumption.
  - injection Hfind as <-.
    destruct Hin as [-> | Hin]; [key_order; lia |].
    rewrite Forall_forall in Hall. pose proof (Hall r Hin) as Hxr.
    key_order. lia.
Qed.

Lemma getAlignment_spec (TD : TargetData) (k : AlignTypeEnum) (w : Z) :
  sorted (Alignments TD) ->
  let key := TargetAlignElem_get k 0 0 w in
  match getAlignment TD k w with
  | Some e =>
      In e (Alignments TD) /\ TargetAlignElem_lt e key = false
      /\ (forall r, In r (Alignments TD) ->
            TargetAlignElem_lt r key = false -> TargetAlignElem_lt r e = false)
  | None => forall r, In r (Alignments TD) -> TargetAlignElem_lt r key = true
  end.
Proof.
  intros Hs key. unfold getAlignment. fold key. rewrite lower_bound_find.
  destruct (find _ _) as [e |] eqn:Hfind.
  - pose proof (find_some _ _ Hfind) as [Hin He].
    apply negb_true_iff in He.
    split; [exact Hin | split; [exact He |]].
    apply find_first_sorted; assumption.
  - intros r Hin. pose proof (find_none _ _ Hfind r Hin) as Hr.
    apply negb_false_iff in Hr. exact Hr.
Qed.

(** An element stored under the key asked for is the one returned. *)
Lemma getAlignment_exact (TD : TargetData) (k : AlignTypeEnum) (w : Z)
    (e : TargetAlignElem) :
  sorted (Alignments TD) ->
  lookup_key (TargetAlignElem_get k 0 0 w) (Alignments TD) = Some e ->
  getAlignment TD k w = Some e.
Proof.
  intros Hs Hl. apply lookup_key_In in Hl. destruct Hl as [Hin Hk].
  pose proof (getAlignment_spec TD k w Hs) as H. cbv zeta in H.
  destruct (getAlignment TD k w) as [e' |].
  - destruct H as (Hin' & Hge & Hmin).
    assert (He : TargetAlignElem_lt e (TargetAlignElem_get k 0 0 w) = false)
      by (key_order; lia).
    pose proof (Hmin e Hin He) as Hee.
    assert (Hsame : same_key e' e = true) by (key_order; lia).
    pose proof (lookup_key_sorted_In e' _ Hs Hin') as H1.
    pose proof (lookup_key_sorted_In e _ Hs Hin) as H2.
    unfold lookup_key in H1, H2.
    assert (Hfun : forall x, same_key x e' = same_key x e).
    { intros x. destruct (same_key x e') eqn:Ha, (same_key x e) eqn:Hb;
        try reflexivity; exfalso; key_order; lia. }
    rewrite (find_ext_eq _ _ _ _ Hfun) in H1. congruence.
  - specialize (H e Hin). key_order. lia.
Qed.

Lemma wf_seed (TD : TargetData) (k : AlignTypeEnum) (a p w : Z) :
  wf TD -> In (mkTargetAlignElem k a p w) default_table ->
  exists e, getAlignment TD k w = Some e /\ In e (Alignments TD)
            /\ AlignType e = k /\ TypeBitWidth e = w.
Proof.
  intros (Hs & _ & Hseed & _) Hin.
  specialize (Hseed _ Hin).
  destruct (lookup_key _ (Alignments TD)) as [e |] eqn:Hl; [| congruence].
  assert (Hl' : lookup_key (TargetAlignElem_get k 0 0 w) (Alignments TD) = Some e).
  { unfold lookup_key in *. rewrite <- Hl. apply find_ext_eq. intros x.
    unfold same_key. reflexivity. }
  exists e. split; [apply getAlignment_exact; assumption |].
  apply lookup_key_In in Hl. destruct Hl as [Hi Hk].
  apply same_key_eq in Hk. simpl in Hk. tauto.
Qed.



(** ** Reads past the end of the table *)

Lemma init_token_PastEndReads (token : str) (TD : TargetData) :
  (PastEndReads TD <= PastEndReads (init_token token TD))%nat.
Proof.
  unfold init_token.
  destruct (getToken token (lit ":")) as [arg0 rest].
  destruct arg0 as [| c p]; [lia |].
  destruct (Ascii.eqb c "E"); [simpl; lia |].
  destruct (Ascii.eqb c "e"); [simpl; lia |].
  destruct (Ascii.eqb c "p").
  - destruct (next_field_bytes rest) as [size r1].
    destruct (next_field_bytes r1) as [abi r2].
    destruct (next_field_bytes r2) as [pref r3]. simpl. lia.
  - destruct (_ || _); [| lia].
    destruct (next_field_bytes rest) as [abi r1].
    destruct (next_field_bytes r1) as [pref r2].
    apply setAlignment_frame.
Qed.

Lemma init_cap_PastEndReads (k : AlignTypeEnum) (TD : TargetData) :
  (PastEndReads TD <= PastEndReads (init_cap k TD))%nat.
Proof.
  unfold init_cap. destruct (getAlignment TD k 64) as [e |].
  - destruct (ABIAlign e =? 0); [apply setAlignment_frame | lia].
  - simpl. lia.
Qed.

(** C10: the position that the search of [setAlignment] returns is
    dereferenced when it is the end of the vector.  The first call that
    [init] makes, on the empty table, finds position 0 of a vector of
    length 0 and reads it; seven of the ten default insertions of every
    run of [init] read the position past the end, and so does the lookup
    of a vector type of 256 bits in the default table. *)
Theorem setAlignment_reads_past_the_end :
  lower_bound (Alignments init_members) (TargetAlignElem_get INTEGER_ALIGN 1 1 1)
  = length (Alignments init_members)
  /\ PastEndReads (setAlignment INTEGER_ALIGN 1 1 1 init_members) = 1%nat
  /\ (forall s : str,
        exists TD, init s = Some TD /\ (7 <= PastEndReads TD)%nat)
  /\ getAlignment default_TD PACKED_ALIGN 256 = None.
Proof.
  split; [reflexivity | split; [reflexivity | split; [| reflexivity]]].
  intros s. destruct (init_total s) as [TD HTD]. exists TD.
  split; [exact HTD |]. unfold init in HTD.
  destruct (init_loop _ _ _) as [TD1 |] eqn:Hloop; [| discriminate].
  injection HTD as <-.
  assert (H1 : (7 <= PastEndReads TD1)%nat).
  { eapply (init_loop_inv (fun d => (7 <= PastEndReads d)%nat));
      [| | exact Hloop].
    - intros token d Hd. pose proof (init_token_PastEndReads token d). lia.
    - vm_compute. lia. }
  pose proof (init_cap_PastEndReads INTEGER_ALIGN TD1).
  pose proof (init_cap_PastEndReads FLOAT_ALIGN (init_cap INTEGER_ALIGN TD1)).
  lia.
Qed.

(** ** Sizes in bits *)

(** C7 (counterexample): [i1] is an integer type whose width is a power of
    two; its size in bits is 1, and not 8 times its size in bytes, 1. *)
Lemma getTypeSizeInBits_i1 :
  getTypeSizeInBits all_sized default_TD (IntegerTy 1) = Some 1
  /\ getTypeSize all_sized default_TD (IntegerTy 1) = Some 1
  /\ 1 <> 8 * 1.
Proof. split; [vm_compute; reflexivity | split; [vm_compute; reflexivity | lia]]. Qed.

(** C7 (amended): the size in bits is the bit width for every integer
    type, whatever the width; for an integer type of at most 64 bits that
    is 8 times the size in bytes exactly when the width is 8, 16, 32 or
    64.  For every other type it is 8 times the size in bytes, in unsigned
    64-bit arithmetic, and undefined when the size in bytes is. *)
Theorem getTypeSizeInBits_spec :
  forall (isSized : Ty -> bool) (TD : TargetData),
    (forall BitWidth : Z,
       getTypeSizeInBits isSized TD (IntegerTy BitWidth) = Some BitWidth)
    /\ (forall BitWidth Size : Z,
          getTypeSize isSized TD (IntegerTy BitWidth) = Some Size ->
          (BitWidth = 8 * Size <->
           BitWidth = 8 \/ BitWidth = 16 \/ BitWidth = 32 \/ BitWidth = 64))
    /\ (forall T : Ty,
          isInteger T = false ->
          getTypeSizeInBits isSized TD T
          = option_map (fun Size => to_uint64 (Size * 8))
              (getTypeSize isSized TD T)).
Proof.
  intros isSized TD. split; [| split].
  - intros BitWidth. reflexivity.
  - intros BitWidth Size. simpl.
    destruct (negb (isSized (IntegerTy BitWidth))); [discriminate |].
    destruct (Z.leb_spec BitWidth 8); [intros [= <-]; lia |].
    destruct (Z.leb_spec BitWidth 16); [intros [= <-]; lia |].
    destruct (Z.leb_spec BitWidth 32); [intros [= <-]; lia |].
    destruct (Z.leb_spec BitWidth 64); [intros [= <-]; lia | discriminate].
  - intros T HT. unfold getTypeSizeInBits. rewrite HT. reflexivity.
Qed.

(** C7 (witness): [i16] is sized with size 2, and 16 = 8 * 2. *)
Lemma getTypeSizeInBits_spec_witness :
  getTypeSizeInBits all_sized default_TD (IntegerTy 16) = Some 16
  /\ (16 = 8 * 2 <-> 16 = 8 \/ 16 = 16 \/ 16 = 32 \/ 16 = 64)
  /\ getTypeSizeInBits all_sized default_TD DoubleTy
     = option_map (fun Size => to_uint64 (Size * 8))
         (getTypeSize all_sized default_TD DoubleTy).
Proof.
  destruct (getTypeSizeInBits_spec all_sized default_TD) as (H1 & H2 & H3).
  split; [apply H1 | split; [apply (H2 16 2); reflexivity | apply H3; reflexivity]].
Defined.

(** ** Alignments are bytes *)

Lemma getAlignmentTy_range (isSized : Ty -> bool) (TD : TargetData) (T : Ty)
    (b : bool) (a : Z) :
  wf TD -> getAlignmentTy isSized TD T b = Some a -> 0 <= a < 256.
Proof.
  intros (Hs & Hok & _ & _ & Hpa & Hpp & _). revert a.
  assert (Hlook : forall k w a,
            match getAlignment TD k w with
            | Some elem => Some (if b then ABIAlign elem else PrefAlign elem)
            | None => None
            end = Some a -> 0 <= a < 256).
  { intros k w a H. destruct (getAlignment TD k w) as [e |] eqn:He;
      [| discriminate].
    apply getAlignment_In in He. rewrite Forall_forall in Hok.
    destruct (Hok e He) as (Ha & Hp & _). injection H as <-.
    destruct b; assumption. }
  induction T; intros a; simpl;
    destruct (negb (isSized _)); try discriminate;
    try (intros [= <-]; destruct b; assumption);
    try (apply Hlook).
  - destruct (_ <=? 8); [apply Hlook |].
    destruct (_ <=? 16); [apply Hlook |].
    destruct (_ <=? 32); [apply Hlook |].
    destruct (_ <=? 64); [apply Hlook | discriminate].
  - apply IHT.
  - destruct (StructLayout_new _ _ _); [| discriminate].
    destruct (getAlignment TD AGGREGATE_ALIGN 0); [| discriminate].
    intros [= <-]. apply to_uchar_range.
Qed.

Lemma StructLayout_place_align (TyAlign TySize : Z) (L L' : StructLayout)
    (bound : Z) :
  StructLayout_place TyAlign TySize L = Some L' ->
  0 <= TyAlign <= bound -> 0 <= StructAlignment L <= bound ->
  0 <= StructAlignment L' <= bound.
Proof.
  unfold StructLayout_place. destruct (TyAlign =? 0); [discriminate |].
  intros [= <-]. simpl. lia.
Qed.

Lemma StructLayout_loop_align (f g : Ty -> option Z) (elts : list Ty)
    (L L' : StructLayout) :
  (forall T a, f T = Some a -> 0 <= a < 256) ->
  StructLayout_loop f g elts L = Some L' ->
  0 <= StructAlignment L <= 255 -> 0 <= StructAlignment L' <= 255.
Proof.
  intros Hf. revert L. induction elts as [| T rest IH]; intros L; simpl.
  - intros [= <-]. trivial.
  - destruct (f T) as [a |] eqn:Ha; [| discriminate].
    destruct (g T) as [sz |]; [| discriminate].
    destruct (StructLayout_place _ _ L) as [L1 |] eqn:Hp; [| discriminate].
    intros Hloop HL. apply (IH L1 Hloop).
    apply (StructLayout_place_align _ _ _ _ 255 Hp); [| exact HL].
    pose proof (Hf T a Ha). rewrite to_unsigned32_small; lia.
Qed.

Lemma StructLayout_new_align (f g : Ty -> option Z) (elts : list Ty)
    (L : StructLayout) :
  (forall T a, f T = Some a -> 0 <= a < 256) ->
  StructLayout_new f g elts = Some L -> 1 <= StructAlignment L <= 255.
Proof.
  intros Hf. unfold StructLayout_new.
  destruct (StructLayout_loop f g elts _) as [L0 |] eqn:Hloop; [| discriminate].
  intros [= <-]. apply StructLayout_loop_align in Hloop; [| exact Hf | simpl; lia].
  unfold StructLayout_finish. simpl.
  destruct (Z.eqb_spec (StructAlignment L0) 0); lia.
Qed.

Lemma getStructLayout_align (isSized : Ty -> bool) (TD : TargetData)
    (elts : list Ty) (L : StructLayout) :
  wf TD -> getStructLayout isSized TD elts = Some L ->
  1 <= StructAlignment L <= 255.
Proof.
  intros Hwf. apply StructLayout_new_align.
  intros T a. apply getAlignmentTy_range. exact Hwf.
Qed.

Lemma getAlignmentTy_struct (isSized : Ty -> bool) (TD : TargetData)
    (elts : list Ty) (b : bool) :
  getAlignmentTy isSized TD (StructTy elts) b
  = if negb (isSized (StructTy elts)) then None
    else match getStructLayout isSized TD elts,
               getAlignment TD AGGREGATE_ALIGN 0 with
         | Some Layout, Some elem =>
             Some (to_uchar
                     (if which_align b elem <? StructAlignment Layout
                      then StructAlignment Layout else which_align b elem))
         | _, _ => None
         end.
Proof. reflexivity. Qed.

(** C3: for the object built from any description string and a sized
    structure type whose layout is defined, the alignment returned is the
    ABI (or preferred) alignment of the element of key (AGGREGATE, 0) of
    the table when that is not less than the alignment of the layout, and
    the alignment of the layout otherwise; it is never less than the
    alignment of the layout. *)
Theorem getAlignment_struct :
  forall (isSized : Ty -> bool) (s : str) (TD : TargetData)
         (elts : list Ty) (abi_or_pref : bool) (Layout : StructLayout),
    init s = Some TD ->
    isSized (StructTy elts) = true ->
    getStructLayout isSized TD elts = Some Layout ->
    exists elem r,
      lookup_key (TargetAlignElem_get AGGREGATE_ALIGN 0 0 0) (Alignments TD)
      = Some elem
      /\ getAlignmentTy isSized TD (StructTy elts) abi_or_pref = Some r
      /\ r = (if which_align abi_or_pref elem <? StructAlignment Layout
              then StructAlignment Layout
              else which_align abi_or_pref elem)
      /\ StructAlignment Layout <= r.
Proof.
  intros isSized s TD elts b L Hinit Hsized HL.
  pose proof (init_wf s TD Hinit) as Hwf.
  pose proof (getStructLayout_align isSized TD elts L Hwf HL) as HSA.
  destruct Hwf as (Hs & Hok & Hseed & _).
  destruct (lookup_key (TargetAlignElem_get AGGREGATE_ALIGN 0 0 0)
              (Alignments TD)) as [elem |] eqn:Hl.
  2:{ exfalso. apply (Hseed (mkTargetAlignElem AGGREGATE_ALIGN 0 0 0));
        [rewrite default_table_eq; simpl; tauto | exact Hl]. }
  pose proof (getAlignment_exact TD AGGREGATE_ALIGN 0 elem Hs Hl) as Hg.
  apply lookup_key_In in Hl. destruct Hl as [Hin _].
  rewrite Forall_forall in Hok. destruct (Hok elem Hin) as (Ha & Hp & _).
  assert (Hw : 0 <= which_align b elem < 256) by (destruct b; assumption).
  exists elem.
  exists (if which_align b elem <? StructAlignment L
          then StructAlignment L else which_align b elem).
  split; [reflexivity |].
  rewrite getAlignmentTy_struct, Hsized, HL, Hg. simpl.
  rewrite to_uchar_small;
    [split; [reflexivity | split; [reflexivity |]] |];
    destruct (Z.ltb_spec (which_align b elem) (StructAlignment L)); lia.
Qed.

(** C3 (witness): the structure of an [i8], an [i32] and an [i8] under
    the default description. *)
Lemma getAlignment_struct_witness :
  let elts := [IntegerTy 8; IntegerTy 32; IntegerTy 8] in
  let Layout :=
    {| StructSize := 12; StructAlignment := 4; MemberOffsets := [0; 4; 8] |} in
  getStructLayout all_sized default_TD elts = Some Layout
  /\ exists elem r,
       lookup_key (TargetAlignElem_get AGGREGATE_ALIGN 0 0 0)
         (Alignments default_TD) = Some elem
       /\ getAlignmentTy all_sized default_TD (StructTy elts) false = Some r
       /\ r = (if which_align false elem <? StructAlignment Layout
               then StructAlignment Layout else which_align false elem)
       /\ StructAlignment Layout <= r.
Proof.
  intros elts Layout.
  assert (HL : getStructLayout all_sized default_TD elts = Some Layout)
    by (vm_compute; reflexivity).
  split; [exact HL |].
  exact (getAlignment_struct all_sized [] default_TD elts false Layout
           init_empty eq_refl HL).
Defined.

(** ** Preferred and ABI alignment *)

(** C8 (counterexample): the token [i32:64:32] gives [i32] an ABI
    alignment of 8 bytes and a preferred alignment of 4 bytes. *)
Lemma pref_below_abi :
  exists TD, init (lit "i32:64:32") = Some TD
    /\ getABITypeAlignment all_sized TD (IntegerTy 32) = Some 8
    /\ getPrefTypeAlignment all_sized TD (IntegerTy 32) = Some 4.
Proof.
  destruct (init (lit "i32:64:32")) as [TD |] eqn:H;
    [| vm_compute in H; discriminate].
  exists TD. split; [reflexivity |].
  vm_compute in H. injection H as <-. split; vm_compute; reflexivity.
Qed.

(** C8 (amended): for the object built from a description string, when
    the preferred alignment of the pointer and of every element of the
    table is at least its ABI alignment, the preferred alignment of every
    type is at least its ABI alignment, where both are defined. *)
Theorem pref_alignment_ge_abi :
  forall (isSized : Ty -> bool) (s : str) (TD : TargetData) (T : Ty)
         (abi pref : Z),
    init s = Some TD ->
    pref_ge_abi TD = true ->
    getABITypeAlignment isSized TD T = Some abi ->
    getPrefTypeAlignment isSized TD T = Some pref ->
    abi <= pref.
Proof.
  intros isSized s TD T abi pref Hinit Hge.
  pose proof (init_wf s TD Hinit) as Hwf.
  unfold pref_ge_abi in Hge. apply andb_true_iff in Hge.
  destruct Hge as [Hptr Htab]. apply Z.leb_le in Hptr.
  rewrite forallb_forall in Htab.
  unfold getABITypeAlignment, getPrefTypeAlignment. revert abi pref.
  assert (Hlook : forall k w abi pref,
            match getAlignment TD k w with
            | Some elem => Some (ABIAlign elem) | None => None
            end = Some abi ->
            match getAlignment TD k w with
            | Some elem => Some (PrefAlign elem) | None => None
            end = Some pref -> abi <= pref).
  { intros k w abi pref. destruct (getAlignment TD k w) as [e |] eqn:He;
      [| discriminate].
    intros [= <-] [= <-]. apply Z.leb_le, Htab.
    apply (getAlignment_In TD k w). exact He. }
  induction T; intros abi pref; simpl;
    destruct (negb (isSized _)); try discriminate;
    try (intros [= <-] [= <-]; exact Hptr);
    try (apply Hlook).
  - destruct (_ <=? 8); [apply Hlook |].
    destruct (_ <=? 16); [apply Hlook |].
    destruct (_ <=? 32); [apply Hlook |].
    destruct (_ <=? 64); [apply Hlook | discriminate].
  - apply IHT.
  - destruct (StructLayout_new _ _ _) as [L |] eqn:HL; [| discriminate].
    pose proof (getStructLayout_align isSized TD _ L Hwf HL) as HSA.
    destruct (getAlignment TD AGGREGATE_ALIGN 0) as [e |] eqn:He;
      [| discriminate].
    apply getAlignment_In in He. pose proof (Htab e He) as Hle.
    apply Z.leb_le in Hle.
    destruct Hwf as (_ & Hok & _). rewrite Forall_forall in Hok.
    destruct (Hok e He) as (Ha & Hp & _).
    intros [= <-] [= <-]. rewrite !to_uchar_small.
    + destruct (Z.ltb_spec (ABIAlign e) (StructAlignment L)),
               (Z.ltb_spec (PrefAlign e) (StructAlignment L)); lia.
    + destruct (Z.ltb_spec (PrefAlign e) (StructAlignment L)); lia.
    + destruct (Z.ltb_spec (ABIAlign e) (StructAlignment L)); lia.
Qed.

(** C8 (witness): the default description and the structure of an [i8]
    and an [i64]. *)
Lemma pref_alignment_ge_abi_witness :
  let T := StructTy [IntegerTy 8; IntegerTy 64] in
  pref_ge_abi default_TD = true
  /\ getABITypeAlignment all_sized default_TD T = Some 8
  /\ getPrefTypeAlignment all_sized default_TD T = Some 8
  /\ 8 <= 8.
Proof.
  intros T.
  assert (H1 : pref_ge_abi default_TD = true) by (vm_compute; reflexivity).
  assert (H2 : getABITypeAlignment all_sized default_TD T = Some 8)
    by (vm_compute; reflexivity).
  assert (H3 : getPrefTypeAlignment all_sized default_TD T = Some 8)
    by (vm_compute; reflexivity).
  split; [exact H1 | split; [exact H2 | split; [exact H3 |]]].
  exact (pref_alignment_ge_abi all_sized [] default_TD T 8 8
           init_empty H1 H2 H3).
Defined.

(** ** Sizes that do not fit 32 bits *)

(** C1: under the default description the array of 4294967296 [i8] has
    size 4294967296, and the layout of the structure of that array and an
    [i8] places the second member at offset 0: the constructor converts
    the size of a member to [unsigned] before it adds it. *)
Theorem StructLayout_member_size_truncated :
  getTypeSize all_sized default_TD (ArrayTy (IntegerTy 8) 4294967296)
  = Some 4294967296
  /\ getStructLayout all_sized default_TD
       [ArrayTy (IntegerTy 8) 4294967296; IntegerTy 8]
     = Some {| StructSize := 1; StructAlignment := 1;
               MemberOffsets := [0; 0] |}.
Proof. split; vm_compute; reflexivity. Qed.

(** C2: under the default description the array of 4294967296 [i8] has
    size 4294967296 and ABI alignment 1, and the array of one such array
    has size 0: the element size rounded up is stored in an [unsigned]
    before it is multiplied. *)
Theorem getTypeSize_array_stride_truncated :
  getTypeSize all_sized default_TD (ArrayTy (IntegerTy 8) 4294967296)
  = Some 4294967296
  /\ getABITypeAlignment all_sized default_TD
       (ArrayTy (IntegerTy 8) 4294967296) = Some 1
  /\ getTypeSize all_sized default_TD
       (ArrayTy (ArrayTy (IntegerTy 8) 4294967296) 1) = Some 0.
Proof. repeat split; vm_compute; reflexivity. Qed.

(** ** The offset of an indexed address *)

Lemma to_uint64_add_l (a b : Z) : to_uint64 (to_uint64 a + b) = to_uint64 (a + b).
Proof. unfold to_uint64, to_unsigned. apply Zplus_mod_idemp_l. Qed.

Lemma to_uint64_add_r (a b : Z) : to_uint64 (a + to_uint64 b) = to_uint64 (a + b).
Proof. unfold to_uint64, to_unsigned. apply Zplus_mod_idemp_r. Qed.

Lemma to_int64_mod (x : Z) : to_uint64 (to_int64 x) = to_uint64 x.
Proof.
  unfold to_uint64, to_int64, to_unsigned, to_signed. cbv zeta.
  destruct (x mod 2 ^ 64 <? 2 ^ (64 - 1)).
  - apply Z.mod_mod. lia.
  - rewrite Zminus_mod, Z.mod_same, Z.sub_0_r, !Z.mod_mod by lia. reflexivity.
Qed.

Lemma to_uint64_mul_r (a b : Z) : to_uint64 (a * to_int64 b) = to_uint64 (a * b).
Proof.
  pose proof (to_int64_mod b) as H. unfold to_uint64, to_unsigned in *.
  rewrite Z.mul_mod, H, <- Z.mul_mod by lia. reflexivity.
Qed.

Lemma to_uint64_index (acc i size : Z) :
  to_uint64 (to_uint64 acc + to_int64 (i * to_int64 size))
  = to_uint64 (acc + i * size).
Proof.
  rewrite to_uint64_add_l, <- to_uint64_add_r, to_int64_mod, to_uint64_mul_r,
    to_uint64_add_r.
  reflexivity.
Qed.

Lemma getIndexedOffset_loop_walk (isSized : Ty -> bool) (TD : TargetData)
    (Indices : list Value) :
  forall (T : Ty) (acc : Z),
    getIndexedOffset_loop isSized TD (Some T) T Indices (to_uint64 acc)
    = option_map to_uint64 (indexed_offset_walk isSized TD T Indices acc).
Proof.
  induction Indices as [| Idx rest IH]; intros T acc; [reflexivity |].
  destruct T; try reflexivity.
  - (* pointer *)
    simpl. destruct Idx as [w v | U]; [| reflexivity].
    destruct (getTypeSize isSized TD T) as [size |]; [| reflexivity].
    rewrite to_uint64_index. apply IH.
  - (* array *)
    simpl. destruct Idx as [w v | U]; [| reflexivity].
    destruct (getTypeSize isSized TD T) as [size |]; [| reflexivity].
    rewrite to_uint64_index. apply IH.
  - (* vector *)
    simpl. destruct Idx as [w v | U]; [| reflexivity].
    destruct (getTypeSize isSized TD T) as [size |]; [| reflexivity].
    rewrite to_uint64_index. apply IH.
  - (* structure *)
    simpl. destruct Idx as [w v | U]; [| reflexivity].
    destruct (Z.eqb_spec w 32) as [-> | Hw]; [| reflexivity].
    assert (Hf : to_unsigned32 (getZExtValue 32 v) = to_unsigned 32 v).
    { unfold to_unsigned32, getZExtValue, to_unsigned. apply Z.mod_mod. lia. }
    rewrite Hf.
    destruct (getStructLayout isSized TD ContainedTys) as [L |]; [| reflexivity].
    destruct (nth_error (MemberOffsets L) _) as [off |]; [| reflexivity].
    unfold getZExtValue.
    destruct (nth_error ContainedTys _) as [E |]; [| reflexivity].
    rewrite to_uint64_add_l. apply IH.
Qed.

(** C5: [getIndexedOffset] requires a pointer type and returns, modulo
    2^64, the sum that the walk of the specification computes from 0: at
    each pointer or sequential type the index, signed, times the size of
    the element type it descends to; at each structure type the offset of
    the member that the constant 32-bit index selects, going on in the
    type of that member.  It is undefined exactly when the walk is. *)
Theorem getIndexedOffset_walk :
  forall (isSized : Ty -> bool) (TD : TargetData) (ptrTy : Ty)
         (Indices : list Value),
    getIndexedOffset isSized TD ptrTy Indices
    = match ptrTy with
      | PointerTy _ =>
          option_map to_uint64 (indexed_offset_walk isSized TD ptrTy Indices 0)
      | _ => None
      end.
Proof.
  intros isSized TD ptrTy Indices. unfold getIndexedOffset.
  destruct ptrTy; try reflexivity.
  change 0 with (to_uint64 0) at 1. apply getIndexedOffset_loop_walk.
Qed.

(** ** Tokens *)

Lemma take_token_app (D tok rest : str) :
  Forall (fun c => is_delimiter D c = false) tok ->
  match rest with [] => True | d :: _ => is_delimiter D d = true end ->
  take_token D (tok ++ rest) = (tok, rest).
Proof.
  intros Htok Hrest. induction Htok as [| c t Hc Ht IH]; simpl.
  - destruct rest as [| d r]; [reflexivity |]. simpl. rewrite Hrest. reflexivity.
  - rewrite Hc, IH. reflexivity.
Qed.

Lemma getToken_token (D : str) (c : ascii) (t rest : str) :
  Forall (fun c => is_delimiter D c = false) (c :: t) ->
  match rest with [] => True | d :: _ => is_delimiter D d = true end ->
  getToken ((c :: t) ++ rest) D = (c :: t, rest).
Proof.
  intros Htok Hrest. unfold getToken.
  assert (Hc : is_delimiter D c = false) by (inversion Htok; assumption).
  simpl skip_delimiters. rewrite Hc.
  apply (take_token_app D (c :: t) rest); assumption.
Qed.

Lemma getToken_skip (D : str) (d : ascii) (s : str) :
  is_delimiter D d = true -> getToken (d :: s) D = getToken s D.
Proof. intros Hd. unfold getToken. simpl. rewrite Hd. reflexivity. Qed.

Lemma getToken_nil (D : str) : getToken [] D = ([], []).
Proof. reflexivity. Qed.


Lemma absent_delimiter (d : ascii) (s : str) :
  absent d s = true <->
  Forall (fun c => is_delimiter [d] c = false) s.
Proof.
  unfold absent. rewrite forallb_forall, Forall_forall.
  split; intros H c Hc; specialize (H c Hc); unfold is_delimiter in *;
    simpl in *; destruct (Ascii.eqb c d); simpl in *; congruence.
Qed.

Lemma absent_app (d : ascii) (a b : str) :
  absent d (a ++ b) = absent d a && absent d b.
Proof. unfold absent. apply forallb_app. Qed.

(** ** The loop of [init], token by token *)

Lemma init_token_nil (TD : TargetData) : init_token [] TD = TD.
Proof. reflexivity. Qed.


Lemma run_cons (c : ascii) (s : str) (TD : TargetData) :
  run (c :: s) TD
  = run (snd (getToken (c :: s) (lit "-")))
      (init_token (fst (getToken (c :: s) (lit "-"))) TD).
Proof.
  unfold run. change (length (c :: s)) with (S (length s)).
  rewrite init_loop_S.
  pose proof (getToken_shorter (lit "-") c s) as Hlen.
  destruct (getToken (c :: s) (lit "-")) as [token temp']. simpl in *.
  apply init_loop_fuel; lia.
Qed.

Lemma run_hyphen (s : str) (TD : TargetData) :
  run ("-"%char :: s) TD = run s TD.
Proof.
  rewrite run_cons. rewrite (getToken_skip (lit "-") "-" s) by reflexivity.
  destruct s as [| c s'].
  - rewrite getToken_nil. reflexivity.
  - rewrite run_cons. reflexivity.
Qed.

Lemma run_token (c : ascii) (t rest : str) (TD : TargetData) :
  absent "-" (c :: t) = true ->
  match rest with [] => True | d :: _ => d = "-"%char end ->
  run ((c :: t) ++ rest) TD = run rest (init_token (c :: t) TD).
Proof.
  intros Htok Hrest. change ((c :: t) ++ rest) with (c :: (t ++ rest)).
  rewrite run_cons. change (c :: (t ++ rest)) with ((c :: t) ++ rest).
  rewrite (getToken_token (lit "-") c t rest).
  - reflexivity.
  - apply absent_delimiter. exact Htok.
  - destruct rest as [| d r]; [exact I | subst d; reflexivity].
Qed.


Lemma init_run (s : str) :
  init s
  = match run s (init_defaults init_members) with
    | Some TD => Some (init_cap FLOAT_ALIGN (init_cap INTEGER_ALIGN TD))
    | None => None
    end.
Proof. reflexivity. Qed.

(** ** Decimal numbers *)

Lemma digit_value_digit_char (d : Z) :
  0 <= d <= 9 -> digit_value (digit_char d) = Some d.
Proof.
  intros H.
  assert (Hd : d = 0 \/ d = 1 \/ d = 2 \/ d = 3 \/ d = 4 \/ d = 5 \/ d = 6
               \/ d = 7 \/ d = 8 \/ d = 9) by lia.
  repeat (destruct Hd as [-> | Hd]; [reflexivity |]). subst d. reflexivity.
Qed.

Lemma is_digit_code (c : ascii) : is_digit c = true -> 48 <= char_code c <= 57.
Proof.
  unfold is_digit, digit_value.
  destruct (Z.leb_spec 48 (char_code c)), (Z.leb_spec (char_code c) 57);
    simpl; try discriminate. lia.
Qed.

Lemma is_digit_not (c d : ascii) :
  is_digit c = true -> is_digit d = false -> Ascii.eqb c d = false.
Proof.
  intros Hc Hd. destruct (Ascii.eqb_spec c d); [congruence | reflexivity].
Qed.

Lemma is_digit_isspace (c : ascii) : is_digit c = true -> isspace c = false.
Proof.
  intros H. apply is_digit_code in H. unfold isspace.
  destruct (Z.eqb_spec (char_code c) 32), (Z.leb_spec 9 (char_code c)),
    (Z.leb_spec (char_code c) 13); simpl; try reflexivity; lia.
Qed.

Lemma digits_le_digits (fuel : nat) (n : Z) :
  0 <= n -> Forall (fun c => is_digit c = true) (digits_le fuel n).
Proof.
  revert n. induction fuel as [| fuel IH]; intros n Hn; simpl; constructor.
  - unfold is_digit. rewrite digit_value_digit_char; [reflexivity |].
    pose proof (Z.mod_pos_bound n 10). lia.
  - destruct (n <? 10); [constructor |]. apply IH. apply Z.div_pos; lia.
Qed.

Lemma atoi_digits_app (ds rest : str) (acc : Z) :
  Forall (fun c => is_digit c = true) ds ->
  atoi_digits (ds ++ rest) acc = atoi_digits rest (atoi_digits ds acc).
Proof.
  intros H. revert acc. induction H as [| c ds Hc Hds IH]; intros acc; simpl.
  - reflexivity.
  - unfold is_digit in Hc. destruct (digit_value c); [apply IH | discriminate].
Qed.

Lemma digits_le_S (fuel : nat) (n : Z) :
  digits_le (S fuel) n
  = digit_char (n mod 10)
      :: (if n <? 10 then [] else digits_le fuel (n / 10)).
Proof. reflexivity. Qed.

Lemma rev_cons_app (A : Type) (x : A) (l : list A) : rev (x :: l) = rev l ++ [x].
Proof. reflexivity. Qed.

Lemma atoi_digits_last (n acc : Z) :
  0 <= n -> atoi_digits [digit_char (n mod 10)] acc = acc * 10 + n mod 10.
Proof.
  intros Hn. simpl.
  rewrite digit_value_digit_char by (pose proof (Z.mod_pos_bound n 10); lia).
  reflexivity.
Qed.

Lemma digits_le_value (fuel : nat) (n : Z) :
  0 <= n < 2 ^ Z.of_nat (S fuel) ->
  atoi_digits (rev (digits_le (S fuel) n)) 0 = n.
Proof.
  revert n. induction fuel as [| fuel IH]; intros n Hn;
    rewrite digits_le_S, rev_cons_app.
  - assert (Hlt : (n <? 10) = true) by (apply Z.ltb_lt; simpl in Hn; lia).
    rewrite Hlt. simpl app. rewrite atoi_digits_last by lia.
    simpl in Hn. rewrite Z.mod_small; lia.
  - destruct (Z.ltb_spec n 10) as [Hlt | Hge].
    + simpl app. rewrite atoi_digits_last by lia. rewrite Z.mod_small; lia.
    + rewrite atoi_digits_app
        by (apply Forall_rev, digits_le_digits, Z.div_pos; lia).
      rewrite IH.
      * rewrite atoi_digits_last by lia. pose proof (Z.div_mod n 10). lia.
      * split; [apply Z.div_pos; lia |].
        apply Z.div_lt_upper_bound; [lia |].
        rewrite (Nat2Z.inj_succ (S fuel)), Z.pow_succ_r in Hn by lia. lia.
Qed.

Lemma print_int_nonneg (n : Z) :
  0 <= n ->
  Forall (fun c => is_digit c = true) (print_int n)
  /\ print_int n <> []
  /\ atoi_digits (print_int n) 0 = n.
Proof.
  intros Hn. unfold print_int.
  assert (Hlt : (n <? 0) = false) by (apply Z.ltb_ge; lia). rewrite Hlt.
  unfold print_nonneg. split; [| split].
  - apply Forall_rev, digits_le_digits. exact Hn.
  - simpl. intros H. apply app_eq_nil in H. destruct H as [_ H]. discriminate.
  - apply digits_le_value. split; [exact Hn |].
    destruct (Z.eq_dec n 0) as [-> | Hne]; [reflexivity |].
    rewrite Nat2Z.inj_succ, Z2Nat.id by apply Z.log2_nonneg.
    apply Z.log2_spec. lia.
Qed.

Lemma atoi_print_int (n : Z) : 0 <= n < 2 ^ 31 -> atoi (print_int n) = n.
Proof.
  intros Hn. destruct (print_int_nonneg n) as (Hd & Hne & Hv); [lia |].
  unfold atoi. destruct (print_int n) as [| c r] eqn:Hp; [congruence |].
  pose proof (Forall_inv Hd) as Hc.
  cbn [skip_space]. rewrite (is_digit_isspace c Hc). cbv iota.
  rewrite (is_digit_not c "-" Hc), (is_digit_not c "+" Hc) by reflexivity.
  rewrite Hv. apply to_int_small. lia.
Qed.

Lemma print_int_absent (n : Z) (d : ascii) :
  0 <= n -> is_digit d = false -> absent d (print_int n) = true.
Proof.
  intros Hn Hd. destruct (print_int_nonneg n Hn) as (H & _).
  unfold absent. apply forallb_forall. rewrite Forall_forall in H.
  intros c Hc. rewrite (is_digit_not c d (H c Hc) Hd). reflexivity.
Qed.


(** ** What a token does *)



Lemma next_field_bytes_colon (f rest : str) :
  absent ":" f = true -> f <> [] ->
  match rest with [] => True | d :: _ => d = ":"%char end ->
  next_field_bytes (":"%char :: f ++ rest)
  = (to_uchar (Z.quot (atoi f) 8), rest).
Proof.
  intros Hf Hne Hrest. unfold next_field_bytes.
  rewrite (getToken_skip (lit ":") ":") by reflexivity.
  destruct f as [| c t]; [congruence |].
  rewrite (getToken_token (lit ":") c t rest).
  - reflexivity.
  - apply absent_delimiter. exact Hf.
  - destruct rest as [| d r]; [exact I | subst d; reflexivity].
Qed.

Lemma next_field_bytes_last (f : str) :
  absent ":" f = true ->
  next_field_bytes (":"%char :: f) = (to_uchar (Z.quot (atoi f) 8), []).
Proof.
  intros Hf. destruct f as [| c t]; [reflexivity |].
  rewrite <- (app_nil_r (c :: t)) at 1.
  apply next_field_bytes_colon; [exact Hf | discriminate | exact I].
Qed.

Lemma init_token_arg0 (c : ascii) (p token rest : str) (TD : TargetData) :
  getToken token (lit ":") = (c :: p, rest) ->
  init_token token TD
  = if Ascii.eqb c "E" then set_LittleEndian false TD
    else if Ascii.eqb c "e" then set_LittleEndian true TD
    else if Ascii.eqb c "p" then
      let (size, token) := next_field_bytes rest in
      let (abi, token) := next_field_bytes token in
      let (pref, token) := next_field_bytes token in
      set_Pointer size abi (if pref =? 0 then abi else pref) TD
    else match kind_of_char c with
         | Some align_type =>
             let size := to_short (atoi p) in
             let (abi_align, token) := next_field_bytes rest in
             let (pref_align, token) := next_field_bytes token in
             setAlignment align_type abi_align
               (if pref_align =? 0 then abi_align else pref_align) size TD
         | None => TD
         end.
Proof.
  intros H. unfold init_token. rewrite H. unfold kind_of_char.
  destruct (Ascii.eqb c "E"); [reflexivity |].
  destruct (Ascii.eqb c "e"); [reflexivity |].
  destruct (Ascii.eqb c "p"); [reflexivity |].
  destruct (Ascii.eqb c "i"); [reflexivity |].
  destruct (Ascii.eqb c "f"); simpl; [rewrite orb_true_r; reflexivity |].
  destruct (Ascii.eqb c "v"); [reflexivity |].
  destruct (Ascii.eqb c "a"); reflexivity.
Qed.

Lemma kind_of_char_known (c : ascii) (k : AlignTypeEnum) :
  kind_of_char c = Some k ->
  Ascii.eqb c "E" = false /\ Ascii.eqb c "e" = false
  /\ Ascii.eqb c "p" = false /\ Ascii.eqb c ":" = false
  /\ c = AlignTypeEnum_char k.
Proof.
  unfold kind_of_char.
  destruct (Ascii.eqb_spec c "i") as [-> | _]; [intros [= <-]; repeat split |].
  destruct (Ascii.eqb_spec c "f") as [-> | _]; [intros [= <-]; repeat split |].
  destruct (Ascii.eqb_spec c "v") as [-> | _]; [intros [= <-]; repeat split |].
  destruct (Ascii.eqb_spec c "a") as [-> | _]; [intros [= <-]; repeat split |].
  discriminate.
Qed.

Lemma kind_of_char_AlignTypeEnum_char (k : AlignTypeEnum) :
  kind_of_char (AlignTypeEnum_char k) = Some k.
Proof. destruct k; reflexivity. Qed.

Lemma init_token_align (kc : ascii) (k : AlignTypeEnum) (ws f1 f2 : str)
    (TD : TargetData) :
  kind_of_char kc = Some k ->
  absent ":" ws = true -> absent ":" f1 = true -> f1 <> [] ->
  absent ":" f2 = true ->
  init_token (kc :: ws ++ ":"%char :: f1 ++ ":"%char :: f2) TD
  = setAlignment k (to_uchar (Z.quot (atoi f1) 8))
      (if to_uchar (Z.quot (atoi f2) 8) =? 0
       then to_uchar (Z.quot (atoi f1) 8)
       else to_uchar (Z.quot (atoi f2) 8))
      (to_short (atoi ws)) TD.
Proof.
  intros Hk Hws Hf1 Hne Hf2.
  destruct (kind_of_char_known kc k Hk) as (HE & He & Hp & Hc & _).
  rewrite (init_token_arg0 kc ws _ (":"%char :: f1 ++ ":"%char :: f2)).
  - rewrite HE, He, Hp, Hk.
    rewrite (next_field_bytes_colon f1 (":"%char :: f2) Hf1 Hne eq_refl).
    rewrite (next_field_bytes_last f2 Hf2). reflexivity.
  - change (kc :: ws ++ ":"%char :: f1 ++ ":"%char :: f2)
      with ((kc :: ws) ++ ":"%char :: f1 ++ ":"%char :: f2).
    apply getToken_token; [| reflexivity].
    apply absent_delimiter. simpl. rewrite Hc, Hws. reflexivity.
Qed.

Lemma init_token_pointer (f1 f2 f3 : str) (TD : TargetData) :
  absent ":" f1 = true -> f1 <> [] -> absent ":" f2 = true -> f2 <> [] ->
  absent ":" f3 = true ->
  init_token ("p"%char :: ":"%char :: f1 ++ ":"%char :: f2 ++ ":"%char :: f3)
    TD
  = set_Pointer (to_uchar (Z.quot (atoi f1) 8))
      (to_uchar (Z.quot (atoi f2) 8))
      (if to_uchar (Z.quot (atoi f3) 8) =? 0
       then to_uchar (Z.quot (atoi f2) 8)
       else to_uchar (Z.quot (atoi f3) 8)) TD.
Proof.
  intros H1 N1 H2 N2 H3.
  rewrite (init_token_arg0 "p" [] _
             (":"%char :: f1 ++ ":"%char :: f2 ++ ":"%char :: f3)).
  - change (Ascii.eqb "p" "E") with false.
    change (Ascii.eqb "p" "e") with false.
    change (Ascii.eqb "p" "p") with true. cbv iota.
    rewrite (next_field_bytes_colon f1 (":"%char :: f2 ++ ":"%char :: f3)
               H1 N1 eq_refl).
    rewrite (next_field_bytes_colon f2 (":"%char :: f3) H2 N2 eq_refl).
    rewrite (next_field_bytes_last f3 H3). reflexivity.
  - apply (getToken_token (lit ":") "p" []); [| reflexivity].
    constructor; [reflexivity | constructor].
Qed.


(** ** Malformed description strings *)


(** ** Printing and reading back *)

Lemma same_layout_refl (a : TargetData) : same_layout a a.
Proof. unfold same_layout. tauto. Qed.

Lemma same_layout_trans (a b c : TargetData) :
  same_layout a b -> same_layout b c -> same_layout a c.
Proof.
  unfold same_layout.
  intros (H1 & H2 & H3 & H4 & H5) (G1 & G2 & G3 & G4 & G5).
  repeat split; congruence.
Qed.

Lemma wf_same_layout (a b : TargetData) : same_layout a b -> wf b -> wf a.
Proof.
  unfold same_layout, wf. intros (H1 & H2 & H3 & H4 & H5).
  rewrite H2, H3, H4, H5. trivial.
Qed.

Lemma capped_same_layout (k : AlignTypeEnum) (a b : TargetData) :
  same_layout a b -> capped k b -> capped k a.
Proof.
  unfold same_layout, capped. intros (H1 & H2 & H3 & H4 & H5).
  rewrite H2, H5. trivial.
Qed.

Lemma lookup_key_same_key (k1 k2 : TargetAlignElem)
    (v : list TargetAlignElem) :
  same_key k1 k2 = true -> lookup_key k1 v = lookup_key k2 v.
Proof.
  intros H. unfold lookup_key. apply find_ext_eq. intros x.
  destruct (same_key x k1) eqn:Ha, (same_key x k2) eqn:Hb;
    try reflexivity; exfalso; key_order; lia.
Qed.

Lemma table_set_same (e : TargetAlignElem) (v : list TargetAlignElem) :
  sorted v -> In e v -> table_set e v = v.
Proof.
  intros Hs Hin. apply sorted_ext; [apply sorted_table_set; exact Hs | exact Hs |].
  intros key. rewrite lookup_key_table_set.
  destruct (same_key e key) eqn:Hk; [| reflexivity].
  rewrite <- (lookup_key_same_key e key v Hk).
  symmetry. apply lookup_key_sorted_In; assumption.
Qed.

Lemma seed64 (TD : TargetData) (k : AlignTypeEnum) :
  wf TD -> k = INTEGER_ALIGN \/ k = FLOAT_ALIGN ->
  exists e, getAlignment TD k 64 = Some e
    /\ lookup_key (TargetAlignElem_get k 0 0 64) (Alignments TD) = Some e
    /\ In e (Alignments TD) /\ AlignType e = k /\ TypeBitWidth e = 64.
Proof.
  intros Hwf Hk.
  destruct (wf_seed TD k 0 8 64 Hwf) as (e & Hg & Hin & Hke & Hwe).
  { rewrite default_table_eq. destruct Hk as [-> | ->]; simpl; tauto. }
  exists e. repeat split; try assumption.
  destruct Hwf as (Hs & _).
  rewrite <- (lookup_key_same_key e _ (Alignments TD)).
  - apply lookup_key_sorted_In; assumption.
  - key_order. simpl. rewrite Hke, Hwe. lia.
Qed.

Lemma capped_init_cap (k : AlignTypeEnum) (TD : TargetData) :
  wf TD -> k = INTEGER_ALIGN \/ k = FLOAT_ALIGN -> capped k (init_cap k TD).
Proof.
  intros Hwf Hk. destruct (seed64 TD k Hwf Hk) as (e & Hg & Hl & _).
  unfold init_cap. rewrite Hg.
  destruct (Z.eqb_spec (ABIAlign e) 0) as [Hz | Hnz].
  - unfold capped. rewrite setAlignment_Alignments, lookup_key_table_set.
    assert (Hsk : same_key (TargetAlignElem_get k (PointerMemSize TD)
                              (PointerMemSize TD) 64)
                    (TargetAlignElem_get k 0 0 64) = true)
      by (key_order; simpl; lia).
    rewrite Hsk. intros e' [= <-]. simpl.
    destruct (setAlignment_frame k (PointerMemSize TD) (PointerMemSize TD) 64 TD)
      as (_ & -> & _). intros Hp. rewrite Hp. split; reflexivity.
  - unfold capped. rewrite Hl. intros e' [= <-] Habs. contradiction.
Qed.

Lemma capped_init_cap_other (k k' : AlignTypeEnum) (TD : TargetData) :
  k <> k' -> capped k TD -> capped k (init_cap k' TD).
Proof.
  intros Hne Hc. unfold init_cap.
  destruct (getAlignment TD k' 64) as [e |]; [| exact Hc].
  destruct (ABIAlign e =? 0); [| exact Hc].
  unfold capped. rewrite setAlignment_Alignments, lookup_key_table_set.
  assert (Hsk : same_key (TargetAlignElem_get k' (PointerMemSize TD)
                            (PointerMemSize TD) 64)
                  (TargetAlignElem_get k 0 0 64) = false).
  { key_order. simpl. left. intros H. apply AlignTypeEnum_value_inj in H.
    congruence. }
  rewrite Hsk.
  destruct (setAlignment_frame k' (PointerMemSize TD) (PointerMemSize TD) 64 TD)
    as (_ & -> & _). exact Hc.
Qed.

Lemma init_capped (s : str) (TD : TargetData) :
  init s = Some TD -> capped INTEGER_ALIGN TD /\ capped FLOAT_ALIGN TD.
Proof.
  unfold init. intros H.
  destruct (init_loop _ _ _) as [TD1 |] eqn:Hloop; [| discriminate].
  injection H as <-.
  assert (Hwf : wf TD1).
  { eapply init_loop_inv; [apply wf_init_token | apply wf_defaults | exact Hloop]. }
  split.
  - apply capped_init_cap_other; [discriminate |].
    apply capped_init_cap; [exact Hwf | left; reflexivity].
  - apply capped_init_cap; [apply wf_init_cap; exact Hwf | right; reflexivity].
Qed.

Lemma init_cap_noop (k : AlignTypeEnum) (TD : TargetData) :
  wf TD -> k = INTEGER_ALIGN \/ k = FLOAT_ALIGN -> capped k TD ->
  same_layout (init_cap k TD) TD.
Proof.
  intros Hwf Hk Hc.
  destruct (seed64 TD k Hwf Hk) as (e & Hg & Hl & Hin & Hke & Hwe).
  unfold init_cap. rewrite Hg.
  destruct (Z.eqb_spec (ABIAlign e) 0) as [Hz | Hnz];
    [| apply same_layout_refl].
  destruct (Hc e Hl Hz) as [Hp Hpref].
  destruct (setAlignment_frame k (PointerMemSize TD) (PointerMemSize TD) 64 TD)
    as (E1 & E2 & E3 & E4 & _).
  unfold same_layout. rewrite E1, E2, E3, E4, setAlignment_Alignments.
  repeat split.
  assert (He : TargetAlignElem_get k (PointerMemSize TD) (PointerMemSize TD) 64
               = e).
  { destruct e as [ke ae pe we]. simpl in *. subst. rewrite Hp. reflexivity. }
  rewrite He. apply table_set_same; [apply Hwf | exact Hin].
Qed.

Lemma fold_table_set_sorted (l t0 : list TargetAlignElem) :
  sorted t0 -> sorted (fold_left (fun t e => table_set e t) l t0).
Proof.
  revert t0. induction l as [| e l IH]; intros t0 Hs; simpl; [exact Hs |].
  apply IH, sorted_table_set, Hs.
Qed.

Lemma fold_table_set_lookup (l t0 : list TargetAlignElem)
    (key : TargetAlignElem) :
  sorted l ->
  lookup_key key (fold_left (fun t e => table_set e t) l t0)
  = match lookup_key key l with
    | Some e => Some e
    | None => lookup_key key t0
    end.
Proof.
  revert t0. induction l as [| e l IH]; intros t0 Hs; [reflexivity |].
  destruct Hs as [Hall Hs]. simpl fold_left. rewrite (IH _ Hs).
  rewrite lookup_key_table_set. unfold lookup_key at 3. simpl find.
  fold (lookup_key key l).
  destruct (same_key e key) eqn:Hk; [| reflexivity].
  rewrite (lookup_key_above key e l); [reflexivity | | exact Hall].
  key_order. lia.
Qed.

(** Storing every element of a sorted table over a table whose keys it
    holds gives that table back. *)
Lemma fold_table_set_id (l t0 : list TargetAlignElem) :
  sorted l -> sorted t0 ->
  (forall e, In e t0 -> lookup_key e l <> None) ->
  fold_left (fun t e => table_set e t) l t0 = l.
Proof.
  intros Hl Ht Hkeys.
  apply sorted_ext; [apply fold_table_set_sorted; exact Ht | exact Hl |].
  intros key. rewrite (fold_table_set_lookup l t0 key Hl).
  destruct (lookup_key key l) as [e |] eqn:He; [reflexivity |].
  destruct (lookup_key key t0) as [x |] eqn:Hx; [| reflexivity].
  apply lookup_key_In in Hx. destruct Hx as [Hin Hk].
  exfalso. apply (Hkeys x Hin).
  rewrite (lookup_key_same_key x key l Hk). exact He.
Qed.

Lemma fold_setAlignment (v : list TargetAlignElem) (X : TargetData) :
  let Y :=
    fold_left
      (fun d e =>
         setAlignment (AlignType e) (ABIAlign e) (PrefAlign e)
           (TypeBitWidth e) d) v X in
  LittleEndian Y = LittleEndian X
  /\ PointerMemSize Y = PointerMemSize X
  /\ PointerABIAlign Y = PointerABIAlign X
  /\ PointerPrefAlign Y = PointerPrefAlign X
  /\ Alignments Y = fold_left (fun t e => table_set e t) v (Alignments X).
Proof.
  revert X. induction v as [| e v IH]; intros X; simpl; [tauto |].
  specialize (IH (setAlignment (AlignType e) (ABIAlign e) (PrefAlign e)
                    (TypeBitWidth e) X)).
  cbv zeta in IH. destruct IH as (H1 & H2 & H3 & H4 & H5).
  destruct (setAlignment_frame (AlignType e) (ABIAlign e) (PrefAlign e)
              (TypeBitWidth e) X) as (E1 & E2 & E3 & E4 & _).
  rewrite H1, H2, H3, H4, H5, E1, E2, E3, E4, setAlignment_Alignments.
  repeat split. destruct e. reflexivity.
Qed.

Lemma field_bytes_print (a : Z) :
  0 <= a < 256 -> to_uchar (Z.quot (atoi (print_int (a * 8))) 8) = a.
Proof.
  intros Ha. rewrite atoi_print_int by lia.
  rewrite Z.quot_mul by lia. apply to_uchar_small. exact Ha.
Qed.

Lemma colon_not_digit : is_digit ":" = false.
Proof. reflexivity. Qed.

Lemma hyphen_not_digit : is_digit "-" = false.
Proof. reflexivity. Qed.

Lemma absent_cons (d c : ascii) (s : str) :
  absent d (c :: s) = negb (Ascii.eqb c d) && absent d s.
Proof. reflexivity. Qed.

Lemma dump_token (e : TargetAlignElem) (TD : TargetData) :
  elem_ok e -> 0 <= TypeBitWidth e ->
  absent "-" (dump e) = true
  /\ init_token (dump e) TD
     = setAlignment (AlignType e) (ABIAlign e) (PrefAlign e) (TypeBitWidth e)
         TD.
Proof.
  intros (Ha & Hp & Hw & Hpa) Hw0. unfold dump. split.
  - repeat (rewrite absent_cons || rewrite absent_app).
    rewrite !print_int_absent by (lia || exact hyphen_not_digit).
    destruct (AlignType e); reflexivity.
  - rewrite (init_token_align _ (AlignType e)).
    + rewrite !field_bytes_print by assumption.
      rewrite atoi_print_int by lia. rewrite to_short_small by lia.
      destruct (Z.eqb_spec (PrefAlign e) 0) as [Hz | Hnz]; [| reflexivity].
      rewrite Hz, (Hpa Hz). reflexivity.
    + apply kind_of_char_AlignTypeEnum_char.
    + apply print_int_absent; [lia | exact colon_not_digit].
    + apply print_int_absent; [lia | exact colon_not_digit].
    + apply print_int_nonneg. lia.
    + apply print_int_absent; [lia | exact colon_not_digit].
Qed.

Lemma hyphen_delimited_head (v : list TargetAlignElem) :
  match hyphen_delimited v with [] => True | d :: _ => d = "-"%char end.
Proof. destruct v; simpl; trivial. Qed.

Lemma hyphen_delimited_cons (e : TargetAlignElem)
    (v : list TargetAlignElem) :
  hyphen_delimited (e :: v) = "-"%char :: dump e ++ hyphen_delimited v.
Proof. reflexivity. Qed.

Lemma run_hyphen_delimited (v : list TargetAlignElem) (TD : TargetData) :
  Forall elem_ok v -> Forall (fun e => 0 <= TypeBitWidth e) v ->
  run (hyphen_delimited v) TD
  = Some (fold_left
            (fun d e =>
               setAlignment (AlignType e) (ABIAlign e) (PrefAlign e)
                 (TypeBitWidth e) d) v TD).
Proof.
  intros Hok. revert TD. induction Hok as [| e v He Hv IH]; intros TD Hw.
  - reflexivity.
  - inversion Hw as [| ? ? Hwe Hwv]; subst.
    destruct (dump_token e TD He Hwe) as [Habs Htok].
    rewrite hyphen_delimited_cons, run_hyphen.
    destruct (dump e) as [| c t] eqn:Hd; [unfold dump in Hd; discriminate |].
    rewrite (run_token c t (hyphen_delimited v) TD Habs
               (hyphen_delimited_head v)).
    rewrite Htok. simpl fold_left. apply IH. exact Hwv.
Qed.

Lemma getStringRepresentation_shape (TD : TargetData) :
  getStringRepresentation TD
  = [if LittleEndian TD then "e"%char else "E"%char]
      ++ "-"%char
         :: ("p"%char :: ":"%char :: print_int (PointerMemSize TD * 8)
               ++ ":"%char :: print_int (PointerABIAlign TD * 8)
               ++ ":"%char :: print_int (PointerPrefAlign TD * 8))
            ++ hyphen_delimited (Alignments TD).
Proof.
  unfold getStringRepresentation.
  change (lit "-p:") with ["-"%char; "p"%char; ":"%char].
  change (lit ":") with [":"%char].
  change (lit "e") with ["e"%char]. change (lit "E") with ["E"%char].
  destruct (LittleEndian TD); cbn [app]; rewrite <- !app_assoc; cbn [app];
    rewrite <- !app_assoc; reflexivity.
Qed.

Lemma init_token_endian (b : bool) (TD : TargetData) :
  init_token [if b then "e"%char else "E"%char] TD = set_LittleEndian b TD.
Proof. destruct b; reflexivity. Qed.

Lemma run_getStringRepresentation (TD D : TargetData) :
  wf TD -> widths_nonneg TD = true ->
  run (getStringRepresentation TD) D
  = Some (fold_left
            (fun d e =>
               setAlignment (AlignType e) (ABIAlign e) (PrefAlign e)
                 (TypeBitWidth e) d)
            (Alignments TD)
            (set_Pointer (PointerMemSize TD) (PointerABIAlign TD)
               (PointerPrefAlign TD)
               (set_LittleEndian (LittleEndian TD) D))).
Proof.
  intros (Hs & Hok & Hseed & Hsz & Hpa & Hpp & Hp0) Hnn.
  rewrite getStringRepresentation_shape.
  rewrite (run_token _ [] _ D); [| destruct (LittleEndian TD); reflexivity
                                 | reflexivity].
  rewrite run_hyphen, init_token_endian.
  assert (Hc := colon_not_digit). assert (Hh := hyphen_not_digit).
  rewrite run_token.
  - rewrite init_token_pointer;
      try (apply print_int_absent; [lia | exact Hc]);
      try (apply print_int_nonneg; lia).
    rewrite !field_bytes_print by assumption.
    rewrite run_hyphen_delimited.
    + destruct (Z.eqb_spec (PointerPrefAlign TD) 0) as [Hz | Hnz];
        [| reflexivity].
      rewrite Hz, (Hp0 Hz). reflexivity.
    + exact Hok.
    + unfold widths_nonneg in Hnn. rewrite forallb_forall in Hnn.
      apply Forall_forall. intros e He. apply Z.leb_le, Hnn, He.
  - repeat (rewrite absent_cons || rewrite absent_app).
    rewrite !print_int_absent by (lia || exact Hh). reflexivity.
  - apply hyphen_delimited_head.
Qed.

(** C4 (counterexample): the width 65535 of the token [i65535:8:8] is
    stored in a [short] as -1 and printed as [i-1:8:8]; read back, the
    hyphen of [-1] ends the token, and the table read has an element of
    key (INTEGER, 0) where the table printed has one of key
    (INTEGER, -1). *)
Lemma negative_width_not_read_back :
  exists TD TD',
    init (lit "i65535:8:8") = Some TD
    /\ getStringRepresentation TD
       = lit "E-p:64:64:64-a0:0:0-f32:32:32-f64:64:64-i-1:8:8-i1:8:8-i8:8:8-i16:16:16-i32:32:32-i64:64:64-v64:64:64-v128:128:128"
    /\ init (getStringRepresentation TD) = Some TD'
    /\ lookup_key (TargetAlignElem_get INTEGER_ALIGN 0 0 (-1)) (Alignments TD)
       = Some (mkTargetAlignElem INTEGER_ALIGN 1 1 (-1))
    /\ lookup_key (TargetAlignElem_get INTEGER_ALIGN 0 0 (-1)) (Alignments TD')
       = None
    /\ lookup_key (TargetAlignElem_get INTEGER_ALIGN 0 0 0) (Alignments TD')
       = Some (mkTargetAlignElem INTEGER_ALIGN 0 0 0)
    /\ ~ same_layout TD' TD.
Proof.
  destruct (init (lit "i65535:8:8")) as [TD |] eqn:H;
    [| vm_compute in H; discriminate].
  vm_compute in H. injection H as <-.
  eexists. eexists. split; [reflexivity |].
  split; [vm_compute; reflexivity |].
  split; [vm_compute; reflexivity |].
  split; [vm_compute; reflexivity |].
  split; [vm_compute; reflexivity |].
  split; [vm_compute; reflexivity |].
  unfold same_layout. intros (_ & _ & _ & _ & Habs).
  vm_compute in Habs. discriminate.
Qed.

(** C4 (amended): for the object built by [init] from any description
    string, when no element of its table has a negative bit width, [init]
    of the string that [getStringRepresentation] prints builds an object
    with the same endianness, the same pointer size and pointer
    alignments, and the same table. *)
Theorem init_getStringRepresentation :
  forall (s : str) (TD : TargetData),
    init s = Some TD ->
    widths_nonneg TD = true ->
    exists TD',
      init (getStringRepresentation TD) = Some TD' /\ same_layout TD' TD.
Proof.
  intros s TD Hinit Hnn.
  pose proof (init_wf s TD Hinit) as Hwf.
  destruct (init_capped s TD Hinit) as [HcI HcF].
  rewrite init_run, (run_getStringRepresentation TD _ Hwf Hnn).
  eexists. split; [reflexivity |].
  set (S1 := fold_left _ (Alignments TD) _).
  assert (HS1 : same_layout S1 TD).
  { pose proof (fold_setAlignment (Alignments TD)
                  (set_Pointer (PointerMemSize TD) (PointerABIAlign TD)
                     (PointerPrefAlign TD)
                     (set_LittleEndian (LittleEndian TD)
                        (init_defaults init_members)))) as H.
    cbv zeta in H. fold S1 in H. destruct H as (H1 & H2 & H3 & H4 & H5).
    unfold same_layout. rewrite H1, H2, H3, H4, H5.
    repeat split. rewrite init_defaults_eq.
    unfold set_Pointer, set_LittleEndian. cbn [Alignments].
    destruct Hwf as (Hs & _ & Hseed & _).
    apply fold_table_set_id;
      [exact Hs | exact default_table_sorted | exact Hseed]. }
  assert (H2 : same_layout (init_cap INTEGER_ALIGN S1) TD).
  { eapply same_layout_trans; [| exact HS1].
    apply init_cap_noop;
      [eapply wf_same_layout; eassumption | left; reflexivity
       | eapply capped_same_layout; eassumption]. }
  eapply same_layout_trans; [| exact H2].
  apply init_cap_noop;
    [eapply wf_same_layout; eassumption | right; reflexivity
     | eapply capped_same_layout; eassumption].
Qed.

(** C4 (witness): the description [e-p:32:32:32-i64:32:64-v256:256]. *)
Lemma init_getStringRepresentation_witness :
  exists TD,
    init (lit "e-p:32:32:32-i64:32:64-v256:256") = Some TD
    /\ widths_nonneg TD = true
    /\ exists TD',
         init (getStringRepresentation TD) = Some TD' /\ same_layout TD' TD.
Proof.
  destruct (init (lit "e-p:32:32:32-i64:32:64-v256:256")) as [TD |] eqn:H;
    [| vm_compute in H; discriminate].
  exists TD. split; [reflexivity |].
  assert (Hnn : widths_nonneg TD = true).
  { vm_compute in H. injection H as <-. vm_compute. reflexivity. }
  split; [exact Hnn |].
  exact (init_getStringRepresentation
           (lit "e-p:32:32:32-i64:32:64-v256:256") TD H Hnn).
Defined.

(** ** Layouts whose sizes fit *)

Lemma round_up_bounds (x a : Z) :
  0 <= x -> 0 < a ->
  let y := if negb (x mod a =? 0) then (x / a + 1) * a else x in
  x <= y < x + a /\ y mod a = 0.
Proof.
  intros Hx Ha. cbv zeta.
  pose proof (Z.div_mod x a) as Hdm. pose proof (Z.mod_pos_bound x a Ha) as Hm.
  destruct (Z.eqb_spec (x mod a) 0) as [Hz | Hnz]; simpl.
  - split; [lia | exact Hz].
  - split; [nia | apply Z.mod_mul; lia].
Qed.

Lemma StructLayout_place_spec (TyAlign TySize : Z) (L L' : StructLayout) :
  StructLayout_place TyAlign TySize L = Some L' ->
  0 < TyAlign < 256 -> 0 <= TySize < 2 ^ 32 ->
  0 <= StructSize L -> StructSize L + 2 ^ 33 <= 2 ^ 64 ->
  exists off,
    MemberOffsets L' = MemberOffsets L ++ [off]
    /\ StructSize L <= off /\ off mod TyAlign = 0
    /\ StructSize L' = off + TySize
    /\ StructSize L' <= StructSize L + 2 ^ 33
    /\ (StructSize L mod TyAlign = 0 -> off = StructSize L).
Proof.
  unfold StructLayout_place. intros H Ha Hs H0 Hb.
  destruct (Z.eqb_spec TyAlign 0); [lia |].
  destruct (round_up_bounds (StructSize L) TyAlign) as [Hy Hmod]; [lia | lia |].
  injection H as <-. simpl.
  assert (Hpad : (if negb (StructSize L mod TyAlign =? 0)
                  then to_uint64 ((StructSize L / TyAlign + 1) * TyAlign)
                  else StructSize L)
                 = (if negb (StructSize L mod TyAlign =? 0)
                    then (StructSize L / TyAlign + 1) * TyAlign
                    else StructSize L)).
  { destruct (negb _); [| reflexivity]. apply to_uint64_small. lia. }
  rewrite Hpad. eexists. split; [reflexivity |].
  rewrite to_uint64_small by lia. repeat split; try lia.
  intros Hz. rewrite Hz. reflexivity.
Qed.

Lemma StructLayout_loop_placed (f g : Ty -> option Z) (elts : list Ty) :
  (forall T a, f T = Some a -> 0 <= a < 256) ->
  (forall T s, In T elts -> g T = Some s -> 0 <= s < 2 ^ 32) ->
  forall L L',
    StructLayout_loop f g elts L = Some L' ->
    0 <= StructSize L ->
    StructSize L + Z.of_nat (length elts) * 2 ^ 33 <= 2 ^ 64 ->
    exists offs,
      MemberOffsets L' = MemberOffsets L ++ offs
      /\ placed f g elts offs (StructSize L)
      /\ StructSize L <= StructSize L'
         <= StructSize L + Z.of_nat (length elts) * 2 ^ 33
      /\ match elts, offs with
         | T :: _, off :: _ =>
             forall a, f T = Some a -> StructSize L mod a = 0 ->
                       off = StructSize L
         | _, _ => True
         end.
Proof.
  intros Hf. induction elts as [| T rest IH]; intros Hg L L' Hloop H0 Hb.
  - simpl in Hloop. injection Hloop as <-. exists [].
    rewrite app_nil_r. simpl. repeat split; lia.
  - simpl in Hloop.
    destruct (f T) as [a |] eqn:Ha; [| discriminate].
    destruct (g T) as [sz |] eqn:Hsz; [| discriminate].
    destruct (StructLayout_place _ _ L) as [L1 |] eqn:Hp; [| discriminate].
    pose proof (Hf T a Ha) as Har.
    pose proof (Hg T sz (or_introl eq_refl) Hsz) as Hsr.
    rewrite to_unsigned32_small in Hp by lia.
    rewrite to_unsigned32_small in Hp by lia.
    assert (Hapos : 0 < a).
    { unfold StructLayout_place in Hp.
      destruct (Z.eqb_spec a 0); [discriminate | lia]. }
    change (length (T :: rest)) with (S (length rest)) in Hb |- *.
    rewrite Nat2Z.inj_succ in Hb |- *.
    destruct (StructLayout_place_spec a sz L L1 Hp)
      as (off & Ho & Hle & Hmod & Hs1 & Hb1 & Hfirst);
      try lia.
    destruct (IH (fun T' s' H' => Hg T' s' (or_intror H')) L1 L' Hloop)
      as (offs & Ho' & Hpl & Hb' & _);
      try lia.
    exists (off :: offs). split; [| split; [| split]].
    + rewrite Ho', Ho, <- app_assoc. reflexivity.
    + simpl. exists a, sz. rewrite Hs1 in Hpl. repeat split; assumption.
    + lia.
    + intros a' Ha' Hz. apply Hfirst. congruence.
Qed.

Lemma placed_spec (f g : Ty -> option Z) (elts : list Ty) :
  forall (offs : list Z) (start : Z),
    placed f g elts offs start ->
    length offs = length elts
    /\ (forall off, nth_error offs 0 = Some off -> start <= off)
    /\ (forall i T a off,
          nth_error elts i = Some T -> f T = Some a ->
          nth_error offs i = Some off -> off mod a = 0)
    /\ (forall i T s o1 o2,
          nth_error elts i = Some T -> g T = Some s ->
          nth_error offs i = Some o1 -> nth_error offs (S i) = Some o2 ->
          o1 + s <= o2).
Proof.
  induction elts as [| T rest IH]; intros [| off offs] start H;
    simpl in H; try contradiction.
  - repeat split; intros; try (destruct i); discriminate.
  - destruct H as (a & sz & Ha & Hsz & Hle & Hmod & Hrest).
    destruct (IH offs (off + sz) Hrest) as (Hlen & H0 & Hal & Hadj).
    split; [simpl; congruence |].
    split; [intros o [= <-]; exact Hle |].
    split.
    + intros [| i] T' a' o HT Ha' Ho; simpl in *.
      * congruence.
      * eapply Hal; eassumption.
    + intros [| i] T' s' o1 o2 HT Hs' Ho1 Ho2; simpl in *.
      * injection HT as <-. injection Ho1 as <-.
        assert (s' = sz) by congruence. subst s'. apply H0. exact Ho2.
      * eapply Hadj; eassumption.
Qed.

(** X1: for the object built from a description string, a structure type
    of fewer than 2^30 elements whose sizes are below 2^32, and its layout:
    there is one offset for each element and the first is 0; each offset
    is a multiple of the ABI alignment of its element; each offset after
    the first is at least the offset before it plus the size of the
    element before it; and the size of the structure is a multiple of its
    alignment. *)
Theorem StructLayout_invariants :
  forall (isSized : Ty -> bool) (s : str) (TD : TargetData)
         (elts : list Ty) (L : StructLayout),
    init s = Some TD ->
    getStructLayout isSized TD elts = Some L ->
    Z.of_nat (length elts) < 2 ^ 30 ->
    (forall T Size, In T elts -> getTypeSize isSized TD T = Some Size ->
                    0 <= Size < 2 ^ 32) ->
    length (MemberOffsets L) = length elts
    /\ (forall off, nth_error (MemberOffsets L) 0 = Some off -> off = 0)
    /\ (forall i T a off,
          nth_error elts i = Some T ->
          getABITypeAlignment isSized TD T = Some a ->
          nth_error (MemberOffsets L) i = Some off -> off mod a = 0)
    /\ (forall i T Size o1 o2,
          nth_error elts i = Some T ->
          getTypeSize isSized TD T = Some Size ->
          nth_error (MemberOffsets L) i = Some o1 ->
          nth_error (MemberOffsets L) (S i) = Some o2 -> o1 + Size <= o2)
    /\ StructSize L mod StructAlignment L = 0.
Proof.
  intros isSized s TD elts L Hinit HL Hlen Hsizes.
  pose proof (init_wf s TD Hinit) as Hwf.
  pose proof (getStructLayout_align isSized TD elts L Hwf HL) as HSA.
  assert (Hf : forall T a, getABITypeAlignment isSized TD T = Some a ->
                           0 <= a < 256).
  { intros T a. apply getAlignmentTy_range. exact Hwf. }
  unfold getStructLayout, StructLayout_new in HL.
  destruct (StructLayout_loop _ _ elts _) as [L0 |] eqn:Hloop; [| discriminate].
  injection HL as <-.
  destruct (StructLayout_loop_placed _ _ elts Hf Hsizes _ L0 Hloop)
    as (offs & Ho & Hpl & Hb & Hfirst); simpl; try lia.
  simpl in Ho, Hpl, Hb, Hfirst. simpl MemberOffsets. rewrite Ho.
  destruct (placed_spec _ _ elts offs 0 Hpl) as (H1 & H2 & H3 & H4).
  split; [exact H1 |]. split.
  { intros off Hoff.
    destruct elts as [| T rest]; destruct offs as [| o offs'];
      simpl in Hpl; try contradiction; try discriminate.
    destruct Hpl as (a & sz & Ha & _).
    simpl in Hoff. injection Hoff as <-.
    apply (Hfirst a Ha). apply Zmod_0_l. }
  split; [exact H3 |]. split; [exact H4 |].
  unfold StructLayout_finish in *. simpl in *.
  set (A := if StructAlignment L0 =? 0 then 1 else StructAlignment L0) in *.
  destruct (round_up_bounds (StructSize L0) A) as [Hy Hmod]; [lia | lia |].
  cbv zeta in Hy, Hmod.
  destruct (negb (StructSize L0 mod A =? 0)); [| exact Hmod].
  rewrite to_uint64_small by lia. exact Hmod.
Qed.

(** X1 (witness): the structure of an [i8], an [i32] and an [i8] under
    the default description: its size, 12, is a multiple of its alignment,
    4. *)
Lemma StructLayout_invariants_witness :
  let elts := [IntegerTy 8; IntegerTy 32; IntegerTy 8] in
  let L :=
    {| StructSize := 12; StructAlignment := 4; MemberOffsets := [0; 4; 8] |} in
  getStructLayout all_sized default_TD elts = Some L
  /\ StructSize L mod StructAlignment L = 0.
Proof.
  intros elts L.
  assert (HL : getStructLayout all_sized default_TD elts = Some L)
    by (vm_compute; reflexivity).
  assert (Hlen : Z.of_nat (length elts) < 2 ^ 30) by (vm_compute; reflexivity).
  assert (Hsz : forall T Size, In T elts ->
                  getTypeSize all_sized default_TD T = Some Size ->
                  0 <= Size < 2 ^ 32).
  { intros T Size HT HS. simpl in HT.
    destruct HT as [<- | [<- | [<- | []]]]; vm_compute in HS;
      injection HS as <-; lia. }
  split; [exact HL |].
  exact (proj2 (proj2 (proj2 (proj2
           (StructLayout_invariants all_sized [] default_TD elts L
              init_empty HL Hlen Hsz))))).
Defined.

Lemma getTypeSize_array (isSized : Ty -> bool) (TD : TargetData) (E : Ty)
    (n : Z) :
  getTypeSize isSized TD (ArrayTy E n)
  = if negb (isSized (ArrayTy E n)) then None
    else match getTypeSize isSized TD E, getABITypeAlignment isSized TD E with
         | Some Size, Some Alignment =>
             if Alignment =? 0 then None
             else
               Some (to_uint64
                       (to_unsigned32
                          (to_uint64
                             (to_uint64 (Size + Alignment - 1) / Alignment
                              * Alignment)) * n))
         | _, _ => None
         end.
Proof. reflexivity. Qed.

(** X2: for a sized array type whose element has size [Size] and ABI
    alignment [Alignment], when the size rounded up fits 32 bits and the
    product fits 64 bits, the size of the array is the number of elements
    times the size of the element rounded up to a multiple of its
    alignment, and that stride is at least the size of the element. *)
Theorem getTypeSize_array_stride :
  forall (isSized : Ty -> bool) (TD : TargetData) (T : Ty)
         (n Size Alignment : Z),
    isSized (ArrayTy T n) = true ->
    getTypeSize isSized TD T = Some Size ->
    getABITypeAlignment isSized TD T = Some Alignment ->
    0 < Alignment -> 0 <= Size -> Size + Alignment - 1 < 2 ^ 32 ->
    0 <= n ->
    n * ((Size + Alignment - 1) / Alignment * Alignment) < 2 ^ 64 ->
    getTypeSize isSized TD (ArrayTy T n)
    = Some (n * ((Size + Alignment - 1) / Alignment * Alignment))
    /\ Size <= (Size + Alignment - 1) / Alignment * Alignment
    /\ ((Size + Alignment - 1) / Alignment * Alignment) mod Alignment = 0.
Proof.
  intros isSized TD T n Size A Hsized HS HA Hpos H0 Hfit Hn Hprod.
  pose proof (Z.div_mod (Size + A - 1) A) as Hdm.
  pose proof (Z.mod_pos_bound (Size + A - 1) A Hpos) as Hm.
  assert (Hq : Size <= (Size + A - 1) / A * A <= Size + A - 1) by nia.
  split; [| split; [lia | apply Z.mod_mul; lia]].
  rewrite getTypeSize_array, Hsized, HS, HA. simpl negb. cbv iota.
  destruct (Z.eqb_spec A 0); [lia |].
  rewrite (to_uint64_small (Size + A - 1)) by lia.
  rewrite (to_uint64_small ((Size + A - 1) / A * A)) by lia.
  rewrite to_unsigned32_small by lia.
  rewrite to_uint64_small by nia.
  f_equal. lia.
Qed.

(** X2 (witness): the array of 3 structures of an [i8], an [i32] and an
    [i8] under the default description: 3 times 12 bytes. *)
Lemma getTypeSize_array_stride_witness :
  let T := StructTy [IntegerTy 8; IntegerTy 32; IntegerTy 8] in
  getTypeSize all_sized default_TD (ArrayTy T 3)
  = Some (3 * ((12 + 4 - 1) / 4 * 4))
  /\ 12 <= (12 + 4 - 1) / 4 * 4
  /\ ((12 + 4 - 1) / 4 * 4) mod 4 = 0.
Proof.
  intros T.
  assert (HS : getTypeSize all_sized default_TD T = Some 12)
    by (vm_compute; reflexivity).
  assert (HA : getABITypeAlignment all_sized default_TD T = Some 4)
    by (vm_compute; reflexivity).
  assert (H1 : 0 < 4) by lia. assert (H2 : 0 <= 12) by lia.
  assert (H3 : 12 + 4 - 1 < 2 ^ 32) by (vm_compute; reflexivity).
  assert (H4 : 0 <= 3) by lia.
  assert (H5 : 3 * ((12 + 4 - 1) / 4 * 4) < 2 ^ 64) by (vm_compute; reflexivity).
  exact (getTypeSize_array_stride all_sized default_TD T 3 12 4
           eq_refl HS HA H1 H2 H3 H4 H5).
Defined.

(** Worked examples: the layouts of the structure of an [i8], an [i32]
    and an [i8] and of the structure of an [i8], an [i64] and an [i8]
    under the default
    description, the second with a pointer of 4 bytes; the array of 3 of
    the first; and the offset of the indices 1, 1, 0 from a pointer to the
    structure of an [i32], a structure of an [i16] and an [i64], and an
    [i8]. *)
Theorem layout_scenarios :
  getStructLayout all_sized default_TD [IntegerTy 8; IntegerTy 32; IntegerTy 8]
  = Some {| StructSize := 12; StructAlignment := 4;
            MemberOffsets := [0; 4; 8] |}
  /\ getStructLayout all_sized default_TD
       [IntegerTy 8; IntegerTy 64; IntegerTy 8]
     = Some {| StructSize := 24; StructAlignment := 8;
               MemberOffsets := [0; 8; 16] |}
  /\ (exists TD, init (lit "p:32:32:32") = Some TD
        /\ getStructLayout all_sized TD
             [IntegerTy 8; IntegerTy 64; IntegerTy 8]
           = Some {| StructSize := 16; StructAlignment := 4;
                     MemberOffsets := [0; 4; 12] |})
  /\ getTypeSize all_sized default_TD
       (ArrayTy (StructTy [IntegerTy 8; IntegerTy 32; IntegerTy 8]) 3)
     = Some 36
  /\ getABITypeAlignment all_sized default_TD
       (ArrayTy (StructTy [IntegerTy 8; IntegerTy 32; IntegerTy 8]) 3)
     = Some 4
  /\ getIndexedOffset all_sized default_TD
       (PointerTy
          (StructTy [IntegerTy 32; StructTy [IntegerTy 16; IntegerTy 64];
                     IntegerTy 8]))
       [ConstantInt 32 1; ConstantInt 32 1; ConstantInt 32 0]
     = Some 40.
Proof.
  split; [vm_compute; reflexivity |].
  split; [vm_compute; reflexivity |].
  split.
  { destruct (init (lit "p:32:32:32")) as [TD |] eqn:H;
      [| vm_compute in H; discriminate].
    exists TD. split; [reflexivity |].
    vm_compute in H. injection H as <-. vm_compute. reflexivity. }
  repeat split; vm_compute; reflexivity.
Qed.

(** ** The table of every object *)

(** X3: the table of the object built from any description string is in
    strictly increasing order of (alignment type, bit width), so it holds
    at most one element for each key; its alignments are bytes and its
    widths fit a [short]. *)
Theorem init_table_sorted :
  forall s : str,
    exists TD, init s = Some TD
      /\ sorted (Alignments TD)
      /\ (forall e1 e2, In e1 (Alignments TD) -> In e2 (Alignments TD) ->
            same_key e1 e2 = true -> e1 = e2)
      /\ Forall elem_ok (Alignments TD).
Proof.
  intros s. destruct (init_total s) as [TD HTD]. exists TD.
  split; [exact HTD |].
  destruct (init_wf s TD HTD) as (Hs & Hok & _).
  split; [exact Hs | split; [| exact Hok]].
  intros e1 e2 H1 H2 Hk.
  pose proof (lookup_key_sorted_In e1 _ Hs H1) as L1.
  pose proof (lookup_key_sorted_In e2 _ Hs H2) as L2.
  rewrite (lookup_key_same_key e1 e2 _ Hk) in L1. congruence.
Qed.

(** X4: on a sorted table [setAlignment] keeps the table sorted; the
    element found under the key set is the one given, with its two
    alignments, and what is found under any other key is unchanged: a key
    already in the table is overwritten, a new key is inserted in
    order. *)
Theorem setAlignment_sorted_insert :
  forall (align_type : AlignTypeEnum) (abi_align pref_align bit_width : Z)
         (TD : TargetData),
    sorted (Alignments TD) ->
    sorted (Alignments (setAlignment align_type abi_align pref_align
                          bit_width TD))
    /\ lookup_key (TargetAlignElem_get align_type 0 0 bit_width)
         (Alignments (setAlignment align_type abi_align pref_align
                        bit_width TD))
       = Some (TargetAlignElem_get align_type abi_align pref_align bit_width)
    /\ (forall key,
          same_key (TargetAlignElem_get align_type 0 0 bit_width) key = false ->
          lookup_key key
            (Alignments (setAlignment align_type abi_align pref_align
                           bit_width TD))
          = lookup_key key (Alignments TD)).
Proof.
  intros k a p w TD Hs. rewrite setAlignment_Alignments.
  split; [apply sorted_table_set; exact Hs | split].
  - rewrite lookup_key_table_set.
    assert (H : same_key (TargetAlignElem_get k a p w)
                  (TargetAlignElem_get k 0 0 w) = true)
      by (key_order; simpl; lia).
    rewrite H. reflexivity.
  - intros key Hk. rewrite lookup_key_table_set.
    assert (H : same_key (TargetAlignElem_get k a p w) key = false).
    { key_order. simpl in *. exact Hk. }
    rewrite H. reflexivity.
Qed.

(** X4 (witness): setting the alignments of [i32] in the default table. *)
Lemma setAlignment_sorted_insert_witness :
  sorted default_table
  /\ lookup_key (TargetAlignElem_get INTEGER_ALIGN 0 0 32)
       (Alignments
          (setAlignment INTEGER_ALIGN 8 8 32
             (mkTargetData false 8 8 8 default_table 7)))
     = Some (TargetAlignElem_get INTEGER_ALIGN 8 8 32).
Proof.
  split; [exact default_table_sorted |].
  exact (proj1 (proj2
           (setAlignment_sorted_insert INTEGER_ALIGN 8 8 32
              (mkTargetData false 8 8 8 default_table 7)
              default_table_sorted))).
Defined.

(** ** The element that contains an offset *)

Lemma upper_bound_firstn (v : list Z) (val : Z) :
  Forall (fun x => x <= val) (firstn (upper_bound v val) v).
Proof.
  induction v as [| x rest IH]; simpl; [constructor |].
  destruct (Z.leb_spec x val); simpl; constructor; assumption.
Qed.

Lemma upper_bound_nth (v : list Z) (val z : Z) :
  nth_error v (upper_bound v val) = Some z -> val < z.
Proof.
  induction v as [| x rest IH]; simpl; [discriminate |].
  destruct (Z.leb_spec x val); simpl; [exact IH | intros [= <-]; assumption].
Qed.

Lemma upper_bound_before (v : list Z) (val : Z) (i : nat) (x : Z) :
  (i < upper_bound v val)%nat -> nth_error v i = Some x -> x <= val.
Proof.
  revert i. induction v as [| y rest IH]; simpl; intros i Hi Hx; [lia |].
  destruct (Z.leb_spec y val); [| lia].
  destruct i as [| i]; simpl in Hx; [congruence |].
  apply (IH i); [lia | exact Hx].
Qed.

Lemma upper_bound_sorted (v : list Z) (val : Z) (i : nat) (x : Z) :
  nondecreasing v -> nth_error v i = Some x -> x <= val ->
  (forall z, nth_error v (S i) = Some z -> val < z) ->
  upper_bound v val = S i.
Proof.
  revert i. induction v as [| y rest IH]; intros i Hs Hx Hle Hnext;
    [destruct i; discriminate |].
  destruct Hs as [Hall Hs]. simpl.
  destruct i as [| i]; simpl in Hx.
  - injection Hx as ->. destruct (Z.leb_spec x val); [| lia].
    f_equal. destruct rest as [| z rest']; [reflexivity |].
    simpl. specialize (Hnext z eq_refl).
    destruct (Z.leb_spec z val); [lia | reflexivity].
  - assert (Hy : y <= x).
    { rewrite Forall_forall in Hall. apply Hall.
      apply (nth_error_In rest i). exact Hx. }
    destruct (Z.leb_spec y val); [| lia].
    f_equal. apply (IH i Hs Hx Hle). exact Hnext.
Qed.

(** X5: for a layout whose offsets never decrease,
    [getElementContainingOffset] returns the element [i] exactly when the
    offset of [i] is at most [Offset], the offset of the next element, if
    any, is greater than [Offset], and the offset of the element before,
    if any, is less than [Offset]; in every other case an assertion
    fails: no offset at most [Offset] (the structure is empty), or an
    element before [i] that starts at [Offset] too. *)
Theorem getElementContainingOffset_spec :
  forall (L : StructLayout) (Offset : Z) (i : nat),
    nondecreasing (MemberOffsets L) ->
    (getElementContainingOffset L Offset = Some i <->
     (exists x, nth_error (MemberOffsets L) i = Some x /\ x <= Offset)
     /\ (forall z, nth_error (MemberOffsets L) (S i) = Some z -> Offset < z)
     /\ (forall before y, i = S before ->
           nth_error (MemberOffsets L) before = Some y -> y < Offset)).
Proof.
  intros L Offset i Hs. unfold getElementContainingOffset. split.
  - destruct (upper_bound (MemberOffsets L) Offset) as [| SI] eqn:Hub;
      [discriminate |].
    destruct (nth_error (MemberOffsets L) SI) as [x |] eqn:Hx; [| discriminate].
    destruct (Z.leb_spec x Offset) as [Hle | Hgt]; simpl; [| discriminate].
    destruct (_ && _) eqn:Hc; [| discriminate].
    intros [= <-]. apply andb_true_iff in Hc. destruct Hc as [Hb Hn].
    split; [exists x; split; assumption | split].
    + intros z Hz. rewrite Hz in Hn. apply Z.ltb_lt. exact Hn.
    + intros before y -> Hy. rewrite Hy in Hb. apply Z.ltb_lt. exact Hb.
  - intros ((x & Hx & Hle) & Hnext & Hbefore).
    rewrite (upper_bound_sorted _ Offset i x Hs Hx Hle Hnext), Hx.
    destruct (Z.leb_spec x Offset) as [_ | Hgt]; [| lia]. cbn [negb].
    assert (Hb : match i with
                 | O => true
                 | S before =>
                     match nth_error (MemberOffsets L) before with
                     | Some y => y <? Offset
                     | None => false
                     end
                 end = true).
    { destruct i as [| before]; [reflexivity |].
      destruct (nth_error (MemberOffsets L) before) as [y |] eqn:Hy.
      - apply Z.ltb_lt. apply (Hbefore before y eq_refl Hy).
      - exfalso. apply nth_error_None in Hy.
        assert (Hlt : (S before < length (MemberOffsets L))%nat)
          by (apply nth_error_Some; congruence).
        lia. }
    rewrite Hb. cbn [andb].
    destruct (nth_error (MemberOffsets L) (S i)) as [z |] eqn:Hz;
      [| reflexivity].
    assert (Hzlt : (Offset <? z) = true) by (apply Z.ltb_lt, Hnext, eq_refl).
    rewrite Hzlt. reflexivity.
Qed.

(** X5 (witness): offset 5 in the layout of offsets 0, 4, 8. *)
Lemma getElementContainingOffset_spec_witness :
  let L :=
    {| StructSize := 12; StructAlignment := 4; MemberOffsets := [0; 4; 8] |} in
  nondecreasing (MemberOffsets L)
  /\ (getElementContainingOffset L 5 = Some 1%nat <->
      (exists x, nth_error (MemberOffsets L) 1 = Some x /\ x <= 5)
      /\ (forall z, nth_error (MemberOffsets L) 2 = Some z -> 5 < z)
      /\ (forall before y, 1%nat = S before ->
            nth_error (MemberOffsets L) before = Some y -> y < 5)).
Proof.
  intros L.
  assert (Hs : nondecreasing (MemberOffsets L)).
  { simpl. repeat split; repeat constructor; lia. }
  split; [exact Hs |].
  exact (getElementContainingOffset_spec L 5 1%nat Hs).
Defined.

Lemma placed_lower (f g : Ty -> option Z) (elts : list Ty) :
  (forall T s, In T elts -> g T = Some s -> 0 <= s) ->
  forall (offs : list Z) (start : Z),
    placed f g elts offs start -> Forall (fun x => start <= x) offs.
Proof.
  induction elts as [| T rest IH]; intros Hpos [| off offs] start H;
    simpl in H; try contradiction; constructor.
  - destruct H as (a & sz & _ & _ & Hle & _). exact Hle.
  - destruct H as (a & sz & Ha & Hsz & Hle & _ & Hrest).
    pose proof (Hpos T sz (or_introl eq_refl) Hsz) as H0.
    eapply Forall_impl;
      [| apply (IH (fun T' s' H' => Hpos T' s' (or_intror H')) offs _ Hrest)].
    intros x Hx. simpl in Hx. lia.
Qed.

Lemma placed_nondecreasing (f g : Ty -> option Z) (elts : list Ty) :
  (forall T s, In T elts -> g T = Some s -> 0 <= s) ->
  forall (offs : list Z) (start : Z),
    placed f g elts offs start -> nondecreasing offs.
Proof.
  induction elts as [| T rest IH]; intros Hpos [| off offs] start H;
    simpl in H; try contradiction; simpl; [exact I |].
  destruct H as (a & sz & Ha & Hsz & Hle & _ & Hrest).
  pose proof (Hpos T sz (or_introl eq_refl) Hsz) as H0.
  split.
  - eapply Forall_impl;
      [| apply (placed_lower f g rest
                  (fun T' s' H' => Hpos T' s' (or_intror H')) offs _ Hrest)].
    intros x Hx. simpl in Hx. lia.
  - apply (IH (fun T' s' H' => Hpos T' s' (or_intror H')) offs _ Hrest).
Qed.

Lemma placed_defined (f g : Ty -> option Z) (elts : list Ty) :
  forall (offs : list Z) (start : Z) (i : nat) (T : Ty),
    placed f g elts offs start -> nth_error elts i = Some T ->
    exists a s, f T = Some a /\ g T = Some s.
Proof.
  induction elts as [| T0 rest IH]; intros [| off offs] start i T H HT;
    simpl in H; try contradiction; try (destruct i; discriminate).
  destruct H as (a & sz & Ha & Hsz & _ & _ & Hrest).
  destruct i as [| i]; simpl in HT.
  - injection HT as <-. exists a, sz. split; assumption.
  - apply (IH offs _ i T Hrest HT).
Qed.

Lemma StructLayout_loop_fits (f g : Ty -> option Z) (elts : list Ty) :
  (forall T a, f T = Some a -> 0 <= a < 256) ->
  (forall T s, In T elts -> g T = Some s -> 0 <= s < 2 ^ 32) ->
  forall L L',
    StructLayout_loop f g elts L = Some L' ->
    0 <= StructSize L ->
    StructSize L + Z.of_nat (length elts) * 2 ^ 33 <= 2 ^ 64 ->
    forall i T s o,
      nth_error elts i = Some T -> g T = Some s ->
      nth_error (MemberOffsets L') (length (MemberOffsets L) + i) = Some o ->
      o + s <= StructSize L'.
Proof.
  intros Hf. induction elts as [| T0 rest IH]; intros Hg L L' Hloop H0 Hb i T s o HT Hs Ho;
    [destruct i; discriminate |].
  simpl in Hloop.
  destruct (f T0) as [a |] eqn:Ha; [| discriminate].
  destruct (g T0) as [sz |] eqn:Hsz; [| discriminate].
  destruct (StructLayout_place _ _ L) as [L1 |] eqn:Hp; [| discriminate].
  pose proof (Hf T0 a Ha) as Har.
  pose proof (Hg T0 sz (or_introl eq_refl) Hsz) as Hsr.
  rewrite to_unsigned32_small in Hp by lia.
  rewrite to_unsigned32_small in Hp by lia.
  assert (Hapos : 0 < a).
  { unfold StructLayout_place in Hp.
    destruct (Z.eqb_spec a 0); [discriminate | lia]. }
  change (length (T0 :: rest)) with (S (length rest)) in Hb.
  rewrite Nat2Z.inj_succ in Hb.
  destruct (StructLayout_place_spec a sz L L1 Hp)
    as (off & Hoff & Hle & Hmod & Hs1 & Hb1 & _); try lia.
  destruct (StructLayout_loop_placed f g rest Hf
              (fun T' s' H' => Hg T' s' (or_intror H')) L1 L' Hloop)
    as (offs & Ho' & _ & Hb' & _); try lia.
  destruct i as [| i]; simpl in HT.
  - injection HT as <-. assert (s = sz) by congruence. subst s.
    rewrite Ho', Hoff, <- app_assoc, Nat.add_0_r in Ho.
    rewrite nth_error_app2 in Ho by lia.
    rewrite Nat.sub_diag in Ho. simpl in Ho. injection Ho as <-. lia.
  - apply (IH (fun T' s' H' => Hg T' s' (or_intror H')) L1 L' Hloop
             ltac:(lia) ltac:(lia) i T s o HT Hs).
    rewrite Hoff, length_app. simpl.
    replace (length (MemberOffsets L) + 1 + i)%nat
      with (length (MemberOffsets L) + S i)%nat by lia.
    exact Ho.
Qed.

(** What the layout of a structure of fewer than 2^30 elements with
    sizes below 2^32 is: the elements placed from 0 on, within the size
    of the structure. *)
Lemma getStructLayout_placed (isSized : Ty -> bool) (TD : TargetData)
    (elts : list Ty) (L : StructLayout) :
  wf TD -> getStructLayout isSized TD elts = Some L ->
  Z.of_nat (length elts) < 2 ^ 30 ->
  (forall T Size, In T elts -> getTypeSize isSized TD T = Some Size ->
                  0 <= Size < 2 ^ 32) ->
  placed (getABITypeAlignment isSized TD) (getTypeSize isSized TD) elts
    (MemberOffsets L) 0
  /\ (forall i T s o,
        nth_error elts i = Some T -> getTypeSize isSized TD T = Some s ->
        nth_error (MemberOffsets L) i = Some o -> o + s <= StructSize L)
  /\ 0 <= StructSize L < 2 ^ 64.
Proof.
  intros Hwf HL Hlen Hsizes.
  pose proof (getStructLayout_align isSized TD elts L Hwf HL) as HSA.
  assert (Hf : forall T a, getABITypeAlignment isSized TD T = Some a ->
                           0 <= a < 256).
  { intros T a. apply getAlignmentTy_range. exact Hwf. }
  unfold getStructLayout, StructLayout_new in HL.
  destruct (StructLayout_loop _ _ elts _) as [L0 |] eqn:Hloop; [| discriminate].
  injection HL as <-.
  destruct (StructLayout_loop_placed _ _ elts Hf Hsizes _ L0 Hloop)
    as (offs & Ho & Hpl & Hb & _); [simpl; lia | simpl; lia |].
  simpl in Ho, Hpl, Hb.
  change (MemberOffsets (StructLayout_finish L0)) with (MemberOffsets L0).
  rewrite Ho.
  assert (Hfin : StructSize L0 <= StructSize (StructLayout_finish L0)
                 < 2 ^ 64).
  { unfold StructLayout_finish in *. simpl in *.
    set (A := if StructAlignment L0 =? 0 then 1 else StructAlignment L0) in *.
    destruct (round_up_bounds (StructSize L0) A) as [Hy _]; [lia | lia |].
    cbv zeta in Hy.
    destruct (negb (StructSize L0 mod A =? 0)); [| lia].
    rewrite to_uint64_small by lia. lia. }
  split; [exact Hpl | split; [| lia]].
  intros i T s o HT Hs Hoi.
  pose proof (StructLayout_loop_fits _ _ elts Hf Hsizes _ L0 Hloop) as Hfit.
  simpl in Hfit. specialize (Hfit ltac:(lia) ltac:(lia) i T s o HT Hs).
  rewrite Ho in Hfit. specialize (Hfit Hoi). lia.
Qed.

Lemma getElementContainingOffset_intro (L : StructLayout) (Offset : Z)
    (i : nat) (x : Z) :
  nondecreasing (MemberOffsets L) ->
  nth_error (MemberOffsets L) i = Some x -> x <= Offset ->
  (forall z, nth_error (MemberOffsets L) (S i) = Some z -> Offset < z) ->
  (forall before y, i = S before ->
     nth_error (MemberOffsets L) before = Some y -> y < Offset) ->
  getElementContainingOffset L Offset = Some i.
Proof.
  intros Hs Hx Hle Hnext Hbefore. unfold getElementContainingOffset.
  rewrite (upper_bound_sorted _ Offset i x Hs Hx Hle Hnext), Hx.
  destruct (Z.leb_spec x Offset) as [_ | Hgt]; [| lia]. cbn [negb].
  assert (Hb : match i with
               | O => true
               | S before =>
                   match nth_error (MemberOffsets L) before with
                   | Some y => y <? Offset
                   | None => false
                   end
               end = true).
  { destruct i as [| before]; [reflexivity |].
    destruct (nth_error (MemberOffsets L) before) as [y |] eqn:Hy.
    - apply Z.ltb_lt. apply (Hbefore before y eq_refl Hy).
    - exfalso. apply nth_error_None in Hy.
      assert (Hlt : (S before < length (MemberOffsets L))%nat)
        by (apply nth_error_Some; congruence).
      lia. }
  rewrite Hb. cbn [andb].
  destruct (nth_error (MemberOffsets L) (S i)) as [z |] eqn:Hz;
    [| reflexivity].
  assert (Hzlt : (Offset <? z) = true) by (apply Z.ltb_lt, Hnext, eq_refl).
  rewrite Hzlt. reflexivity.
Qed.

(** X6: for the object built from a description string and the layout of
    a structure of fewer than 2^30 elements whose sizes are positive and
    below 2^32, every offset inside element [i] (from its offset up to,
    not including, its offset plus its size) is found to be contained in
    element [i]; in particular the element that contains the offset of
    element [i] is [i]. *)
Theorem getElementContainingOffset_member :
  forall (isSized : Ty -> bool) (s : str) (TD : TargetData)
         (elts : list Ty) (L : StructLayout) (i : nat) (T : Ty)
         (Size o Offset : Z),
    init s = Some TD ->
    getStructLayout isSized TD elts = Some L ->
    Z.of_nat (length elts) < 2 ^ 30 ->
    (forall T Size, In T elts -> getTypeSize isSized TD T = Some Size ->
                    0 < Size < 2 ^ 32) ->
    nth_error elts i = Some T ->
    getTypeSize isSized TD T = Some Size ->
    nth_error (MemberOffsets L) i = Some o ->
    o <= Offset < o + Size ->
    getElementContainingOffset L Offset = Some i.
Proof.
  intros isSized s TD elts L i T Size o Offset Hinit HL Hlen Hsizes HT HS Ho
    Hin.
  pose proof (init_wf s TD Hinit) as Hwf.
  assert (Hsizes' : forall T Size, In T elts ->
            getTypeSize isSized TD T = Some Size -> 0 <= Size < 2 ^ 32).
  { intros T' S' H1 H2. pose proof (Hsizes T' S' H1 H2). lia. }
  destruct (getStructLayout_placed isSized TD elts L Hwf HL Hlen Hsizes')
    as (Hpl & _ & _).
  destruct (placed_spec _ _ elts _ 0 Hpl) as (_ & _ & _ & Hadj).
  apply (getElementContainingOffset_intro L Offset i o); try lia; try assumption.
  - apply (placed_nondecreasing (getABITypeAlignment isSized TD)
             (getTypeSize isSized TD) elts) with (start := 0); [| exact Hpl].
    intros T' S' H1 H2. pose proof (Hsizes T' S' H1 H2). lia.
  - intros z Hz. pose proof (Hadj i T Size o z HT HS Ho Hz). lia.
  - intros before y -> Hy.
    assert (Hb : exists Tb, nth_error elts before = Some Tb).
    { destruct (nth_error elts before) as [Tb |] eqn:Hb; [eauto |].
      apply nth_error_None in Hb.
      assert ((S before < length elts)%nat) by (apply nth_error_Some; congruence).
      lia. }
    destruct Hb as [Tb HTb].
    destruct (placed_defined _ _ elts _ 0 before Tb Hpl HTb) as (a & sb & _ & Hsb).
    pose proof (Hadj before Tb sb y o HTb Hsb Hy Ho).
    pose proof (Hsizes Tb sb (nth_error_In _ _ HTb) Hsb). lia.
Qed.

(** X6 (witness): offset 5 is inside the [i32] of the structure of an
    [i8], an [i32] and an [i8] under the default description. *)
Lemma getElementContainingOffset_member_witness :
  let elts := [IntegerTy 8; IntegerTy 32; IntegerTy 8] in
  let L :=
    {| StructSize := 12; StructAlignment := 4; MemberOffsets := [0; 4; 8] |} in
  getStructLayout all_sized default_TD elts = Some L
  /\ getElementContainingOffset L 5 = Some 1%nat.
Proof.
  intros elts L.
  assert (HL : getStructLayout all_sized default_TD elts = Some L)
    by (vm_compute; reflexivity).
  assert (Hlen : Z.of_nat (length elts) < 2 ^ 30) by (vm_compute; reflexivity).
  assert (Hsz : forall T Size, In T elts ->
                  getTypeSize all_sized default_TD T = Some Size ->
                  0 < Size < 2 ^ 32).
  { intros T Size HT HS. simpl in HT.
    destruct HT as [<- | [<- | [<- | []]]]; vm_compute in HS;
      injection HS as <-; lia. }
  assert (HS : getTypeSize all_sized default_TD (IntegerTy 32) = Some 4)
    by (vm_compute; reflexivity).
  assert (Hin : 4 <= 5 < 4 + 4) by lia.
  split; [exact HL |].
  exact (getElementContainingOffset_member all_sized [] default_TD elts L
           1%nat (IntegerTy 32) 4 4 5 init_empty HL Hlen Hsz eq_refl HS
           eq_refl Hin).
Defined.

(** X7: for the object built from a description string and the layout of
    a structure of fewer than 2^30 elements whose sizes are below 2^32,
    every element ends within the structure: its offset plus its size is
    at most the size of the structure; and the alignment of the structure
    is at least the ABI alignment of every element. *)
Theorem StructLayout_members_fit :
  forall (isSized : Ty -> bool) (s : str) (TD : TargetData)
         (elts : list Ty) (L : StructLayout),
    init s = Some TD ->
    getStructLayout isSized TD elts = Some L ->
    Z.of_nat (length elts) < 2 ^ 30 ->
    (forall T Size, In T elts -> getTypeSize isSized TD T = Some Size ->
                    0 <= Size < 2 ^ 32) ->
    (forall i T Size o,
       nth_error elts i = Some T ->
       getTypeSize isSized TD T = Some Size ->
       nth_error (MemberOffsets L) i = Some o ->
       0 <= o /\ o + Size <= StructSize L)
    /\ (forall T a, In T elts -> getABITypeAlignment isSized TD T = Some a ->
                    a <= StructAlignment L).
Proof.
  intros isSized s TD elts L Hinit HL Hlen Hsizes.
  pose proof (init_wf s TD Hinit) as Hwf.
  destruct (getStructLayout_placed isSized TD elts L Hwf HL Hlen Hsizes)
    as (Hpl & Hfit & _).
  split.
  - intros i T Size o HT HS Ho. split; [| apply (Hfit i T Size o HT HS Ho)].
    pose proof (placed_lower _ _ elts
                  (fun T' s' H1 H2 => proj1 (Hsizes T' s' H1 H2)) _ 0 Hpl) as Hlow.
    rewrite Forall_forall in Hlow. apply Hlow.
    apply (nth_error_In _ i). exact Ho.
  - assert (Hf : forall T a, getABITypeAlignment isSized TD T = Some a ->
                             0 <= a < 256).
    { intros T a. apply getAlignmentTy_range. exact Hwf. }
    unfold getStructLayout, StructLayout_new in HL.
    destruct (StructLayout_loop _ _ elts _) as [L0 |] eqn:Hloop;
      [| discriminate].
    injection HL as <-.
    assert (Hmax : forall elts L1 L2,
              StructLayout_loop (getABITypeAlignment isSized TD)
                (getTypeSize isSized TD) elts L1 = Some L2 ->
              StructAlignment L1 <= StructAlignment L2
              /\ (forall T a, In T elts ->
                    getABITypeAlignment isSized TD T = Some a ->
                    a <= StructAlignment L2)).
    { clear - Hf. induction elts as [| T0 rest IH]; intros L1 L2 H.
      - simpl in H. injection H as <-. split; [lia | intros T a []].
      - simpl in H.
        destruct (getABITypeAlignment isSized TD T0) as [a0 |] eqn:Ha0;
          [| discriminate].
        destruct (getTypeSize isSized TD T0) as [s0 |]; [| discriminate].
        destruct (StructLayout_place _ _ L1) as [L1' |] eqn:Hp;
          [| discriminate].
        destruct (IH L1' L2 H) as [Hle Hall].
        unfold StructLayout_place in Hp. destruct (_ =? 0); [discriminate |].
        injection Hp as <-. simpl in Hle.
        pose proof (Hf T0 a0 Ha0).
        rewrite to_unsigned32_small in Hle by lia.
        split; [lia |].
        intros T a [<- | Hin] Ha; [| apply (Hall T a Hin Ha)].
        assert (a = a0) by congruence. lia. }
    destruct (Hmax elts _ L0 Hloop) as [_ Hall].
    intros T a Hin Ha. specialize (Hall T a Hin Ha).
    unfold StructLayout_finish. simpl.
    destruct (Z.eqb_spec (StructAlignment L0) 0); lia.
Qed.

(** X7 (witness): the [i32] of the structure of an [i8], an [i32] and an
    [i8] under the default description ends at 8, within the 12 bytes. *)
Lemma StructLayout_members_fit_witness :
  let elts := [IntegerTy 8; IntegerTy 32; IntegerTy 8] in
  let L :=
    {| StructSize := 12; StructAlignment := 4; MemberOffsets := [0; 4; 8] |} in
  getStructLayout all_sized default_TD elts = Some L
  /\ (0 <= 4 /\ 4 + 4 <= StructSize L).
Proof.
  intros elts L.
  assert (HL : getStructLayout all_sized default_TD elts = Some L)
    by (vm_compute; reflexivity).
  assert (Hlen : Z.of_nat (length elts) < 2 ^ 30) by (vm_compute; reflexivity).
  assert (Hsz : forall T Size, In T elts ->
                  getTypeSize all_sized default_TD T = Some Size ->
                  0 <= Size < 2 ^ 32).
  { intros T Size HT HS. simpl in HT.
    destruct HT as [<- | [<- | [<- | []]]]; vm_compute in HS;
      injection HS as <-; lia. }
  assert (HS : getTypeSize all_sized default_TD (IntegerTy 32) = Some 4)
    by (vm_compute; reflexivity).
  split; [exact HL |].
  exact (proj1 (StructLayout_members_fit all_sized [] default_TD elts L
                  init_empty HL Hlen Hsz)
           1%nat (IntegerTy 32) 4 4 eq_refl HS eq_refl).
Defined.

(** ** The order and the equality of elements *)

(** X8: [operator<] of [TargetAlignElem] is a strict weak order on the
    elements: it is irreflexive and transitive, and two elements neither
    of which is less than the other have the same alignment type and the
    same bit width, whatever their alignments.  [operator==] holds
    exactly of elements with the same four members, which are never
    ordered by [operator<]. *)
Theorem TargetAlignElem_order :
  (forall a, TargetAlignElem_lt a a = false)
  /\ (forall a b c,
        TargetAlignElem_lt a b = true -> TargetAlignElem_lt b c = true ->
        TargetAlignElem_lt a c = true)
  /\ (forall a b,
        (TargetAlignElem_lt a b = false /\ TargetAlignElem_lt b a = false)
        <-> (AlignType a = AlignType b /\ TypeBitWidth a = TypeBitWidth b))
  /\ (forall a b, TargetAlignElem_eqb a b = true <-> a = b).
Proof.
  split; [| split; [| split]].
  - intros a. key_order. lia.
  - intros a b c Hab Hbc. key_order. lia.
  - intros a b. split.
    + intros [Hab Hba]. key_order.
      split; [apply AlignTypeEnum_value_inj; lia | lia].
    + intros [Hk Hw]. split; key_order; rewrite Hk, Hw; lia.
  - intros a b. unfold TargetAlignElem_eqb.
    rewrite !andb_true_iff, AlignTypeEnum_eqb_eq, !Z.eqb_eq.
    destruct a, b; simpl. split.
    + intros (((-> & ->) & ->) & ->). reflexivity.
    + intros [= -> -> -> ->]. tauto.
Qed.

(** ** How calls of [setAlignment] compose *)

Lemma setAlignment_same_layout (k : AlignTypeEnum) (a p w : Z)
    (X Y : TargetData) :
  same_layout X Y ->
  same_layout (setAlignment k a p w X) (setAlignment k a p w Y).
Proof.
  unfold same_layout. intros (H1 & H2 & H3 & H4 & H5).
  destruct (setAlignment_frame k a p w X) as (E1 & E2 & E3 & E4 & _).
  destruct (setAlignment_frame k a p w Y) as (F1 & F2 & F3 & F4 & _).
  rewrite E1, E2, E3, E4, F1, F2, F3, F4, !setAlignment_Alignments, H5.
  tauto.
Qed.

(** X9: on a sorted table, a second [setAlignment] of the same
    alignment type and bit width overrides the first, and two calls for
    different keys can be made in either order: the objects have the same
    endianness, pointer members and table. *)
Theorem setAlignment_compose :
  forall (TD : TargetData) (k1 k2 : AlignTypeEnum)
         (a1 p1 w1 a2 p2 w2 : Z),
    sorted (Alignments TD) ->
    same_layout (setAlignment k1 a2 p2 w1 (setAlignment k1 a1 p1 w1 TD))
      (setAlignment k1 a2 p2 w1 TD)
    /\ ((k1 <> k2 \/ w1 <> w2) ->
        same_layout
          (setAlignment k2 a2 p2 w2 (setAlignment k1 a1 p1 w1 TD))
          (setAlignment k1 a1 p1 w1 (setAlignment k2 a2 p2 w2 TD))).
Proof.
  intros TD k1 k2 a1 p1 w1 a2 p2 w2 Hs.
  assert (Hframe : forall k a p w k' a' p' w' X,
            LittleEndian (setAlignment k a p w (setAlignment k' a' p' w' X))
            = LittleEndian X
            /\ PointerMemSize (setAlignment k a p w (setAlignment k' a' p' w' X))
               = PointerMemSize X
            /\ PointerABIAlign (setAlignment k a p w (setAlignment k' a' p' w' X))
               = PointerABIAlign X
            /\ PointerPrefAlign (setAlignment k a p w (setAlignment k' a' p' w' X))
               = PointerPrefAlign X).
  { intros k a p w k' a' p' w' X.
    destruct (setAlignment_frame k a p w (setAlignment k' a' p' w' X))
      as (E1 & E2 & E3 & E4 & _).
    destruct (setAlignment_frame k' a' p' w' X) as (F1 & F2 & F3 & F4 & _).
    rewrite E1, E2, E3, E4, F1, F2, F3, F4. tauto. }
  split.
  - destruct (Hframe k1 a2 p2 w1 k1 a1 p1 w1 TD) as (E1 & E2 & E3 & E4).
    destruct (setAlignment_frame k1 a2 p2 w1 TD) as (F1 & F2 & F3 & F4 & _).
    unfold same_layout.
    rewrite E1, E2, E3, E4, F1, F2, F3, F4, !setAlignment_Alignments.
    repeat split.
    apply sorted_ext; repeat apply sorted_table_set; try exact Hs.
    intros key. rewrite !lookup_key_table_set.
    destruct (same_key (TargetAlignElem_get k1 a2 p2 w1) key) eqn:Hk;
      [reflexivity |].
    assert (H1 : same_key (TargetAlignElem_get k1 a1 p1 w1) key = false)
      by (key_order; simpl in *; exact Hk).
    rewrite H1. reflexivity.
  - intros Hne.
    destruct (Hframe k2 a2 p2 w2 k1 a1 p1 w1 TD) as (E1 & E2 & E3 & E4).
    destruct (Hframe k1 a1 p1 w1 k2 a2 p2 w2 TD) as (F1 & F2 & F3 & F4).
    unfold same_layout.
    rewrite E1, E2, E3, E4, F1, F2, F3, F4, !setAlignment_Alignments.
    repeat split.
    apply sorted_ext; repeat apply sorted_table_set; try exact Hs.
    intros key. rewrite !lookup_key_table_set.
    destruct (same_key (TargetAlignElem_get k2 a2 p2 w2) key) eqn:H2,
             (same_key (TargetAlignElem_get k1 a1 p1 w1) key) eqn:H1;
      try reflexivity.
    exfalso. key_order. simpl in *.
    destruct Hne as [Hk | Hw]; [| lia].
    apply Hk, AlignTypeEnum_value_inj. lia.
Qed.

(** X9 (witness): the default table, [i32] and [f32]. *)
Lemma setAlignment_compose_witness :
  let TD := mkTargetData false 8 8 8 default_table 7 in
  sorted (Alignments TD)
  /\ same_layout
       (setAlignment FLOAT_ALIGN 8 8 32 (setAlignment INTEGER_ALIGN 2 2 32 TD))
       (setAlignment INTEGER_ALIGN 2 2 32 (setAlignment FLOAT_ALIGN 8 8 32 TD)).
Proof.
  intros TD.
  assert (Hne : INTEGER_ALIGN <> FLOAT_ALIGN \/ 32 <> 32)
    by (left; discriminate).
  split; [exact default_table_sorted |].
  exact (proj2 (setAlignment_compose TD INTEGER_ALIGN FLOAT_ALIGN
                  2 2 32 8 8 32 default_table_sorted) Hne).
Defined.

(** ** The last token of a description *)





(** ** Tokens at any place of a description *)















(** ** Alignments as shifts *)

Lemma power_of_two_byte (a : Z) :
  0 < a < 256 -> Z.land a (a - 1) = 0 -> 2 ^ Z.log2 a = a.
Proof.
  intros Ha Hl.
  assert (Hall : forallb
                   (fun n => let x := Z.of_nat n in
                             implb (Z.land x (x - 1) =? 0) (2 ^ Z.log2 x =? x))
                   (seq 1 255) = true) by (vm_compute; reflexivity).
  rewrite forallb_forall in Hall.
  specialize (Hall (Z.to_nat a)). cbv zeta in Hall.
  rewrite Z2Nat.id in Hall by lia.
  assert (Hin : In (Z.to_nat a) (seq 1 255)) by (apply in_seq; lia).
  specialize (Hall Hin). rewrite Hl in Hall. simpl in Hall.
  apply Z.eqb_eq. exact Hall.
Qed.

Lemma land_power_of_two (k : Z) : 0 <= k -> Z.land (2 ^ k) (2 ^ k - 1) = 0.
Proof.
  intros Hk. replace (2 ^ k - 1) with (Z.ones k)
    by (rewrite Z.ones_equiv; lia).
  rewrite Z.land_ones by lia. apply Z.mod_same.
  apply Z.pow_nonzero; lia.
Qed.

(** X12: the shift of the preferred alignment.  When the preferred
    alignment of a type is a power of two [2^k] below 256,
    [getPreferredTypeAlignmentShift] returns [k]; whenever it returns [r]
    for a preferred alignment [a] from 1 to 255, [a] is [2^r]: an
    alignment that is no power of two fails the assertion.  An alignment
    of 0 passes it. *)
Theorem getPreferredTypeAlignmentShift_spec :
  forall (isSized : Ty -> bool) (TD : TargetData) (T : Ty) (a : Z),
    getPrefTypeAlignment isSized TD T = Some a ->
    (forall k, 0 <= k < 8 -> a = 2 ^ k ->
       getPreferredTypeAlignmentShift isSized TD T = Some k)
    /\ (forall r, 0 < a < 256 ->
          getPreferredTypeAlignmentShift isSized TD T = Some r ->
          a = 2 ^ r /\ 0 <= r < 8)
    /\ (a = 0 ->
        getPreferredTypeAlignmentShift isSized TD T
        = Some (to_uchar (Log2_32 0))).
Proof.
  intros isSized TD T a Ha. unfold getPreferredTypeAlignmentShift.
  rewrite Ha. cbv zeta. split; [| split].
  - intros k Hk ->.
    assert (Hp : 0 < 2 ^ k < 256).
    { split; [apply Z.pow_pos_nonneg; lia |].
      change 256 with (2 ^ 8). apply Z.pow_lt_mono_r; lia. }
    rewrite (to_unsigned32_small (2 ^ k)) by lia.
    rewrite (to_unsigned32_small (2 ^ k - 1)) by lia.
    rewrite land_power_of_two by lia. simpl negb. cbv iota.
    unfold Log2_32. destruct (Z.eqb_spec (2 ^ k) 0); [lia |].
    rewrite Z.log2_pow2 by lia. rewrite to_uchar_small by lia. reflexivity.
  - intros r Hr.
    rewrite (to_unsigned32_small a) by lia.
    rewrite (to_unsigned32_small (a - 1)) by lia.
    destruct (Z.eqb_spec (Z.land a (a - 1)) 0) as [Hl | Hl]; simpl;
      [| discriminate].
    unfold Log2_32. destruct (Z.eqb_spec a 0); [lia |].
    pose proof (power_of_two_byte a Hr Hl) as Hpow.
    assert (Hlog : 0 <= Z.log2 a < 8).
    { split; [apply Z.log2_nonneg |].
      apply Z.log2_lt_pow2; [lia | simpl; lia]. }
    rewrite to_uchar_small by lia. intros [= <-].
    split; [symmetry; exact Hpow | exact Hlog].
  - intros ->. reflexivity.
Qed.

(** X12 (witness): the [i32] of the default description, of preferred
    alignment 4. *)
Lemma getPreferredTypeAlignmentShift_spec_witness :
  getPrefTypeAlignment all_sized default_TD (IntegerTy 32) = Some 4
  /\ getPreferredTypeAlignmentShift all_sized default_TD (IntegerTy 32)
     = Some 2.
Proof.
  assert (Ha : getPrefTypeAlignment all_sized default_TD (IntegerTy 32)
               = Some 4) by (vm_compute; reflexivity).
  assert (Hk : 0 <= 2 < 8) by lia.
  split; [exact Ha |].
  exact (proj1 (getPreferredTypeAlignmentShift_spec all_sized default_TD
                  (IntegerTy 32) 4 Ha) 2 Hk eq_refl).
Defined.

(** X13: [getIntPtrType] returns an integer type exactly when the
    pointer size is 2, 4 or 8 bytes, and the type returned, when it is
    sized, has the size of the pointer: 8 times the pointer size in bits,
    and as many bytes as a pointer type. *)
Theorem getIntPtrType_spec :
  forall (isSized : Ty -> bool) (TD : TargetData),
    ((exists T, getIntPtrType TD = Some T)
     <-> PointerMemSize TD = 2 \/ PointerMemSize TD = 4
         \/ PointerMemSize TD = 8)
    /\ (forall T E,
          getIntPtrType TD = Some T -> isSized T = true ->
          isSized (PointerTy E) = true ->
          T = IntegerTy (8 * PointerMemSize TD)
          /\ getTypeSize isSized TD T = Some (PointerMemSize TD)
          /\ getTypeSize isSized TD T = getTypeSize isSized TD (PointerTy E)
          /\ getTypeSizeInBits isSized TD T = Some (8 * PointerMemSize TD)).
Proof.
  intros isSized TD. unfold getIntPtrType. split.
  - destruct (Z.eqb_spec (PointerMemSize TD) 2);
      [split; [tauto | eauto] |].
    destruct (Z.eqb_spec (PointerMemSize TD) 4);
      [split; [tauto | eauto] |].
    destruct (Z.eqb_spec (PointerMemSize TD) 8);
      [split; [tauto | eauto] |].
    split; [intros [T H]; discriminate | lia].
  - intros T E HT Hs Hp.
    assert (Hptr : getTypeSize isSized TD (PointerTy E)
                   = Some (PointerMemSize TD)).
    { simpl. rewrite Hp. reflexivity. }
    rewrite Hptr.
    destruct (Z.eqb_spec (PointerMemSize TD) 2) as [E2 | _];
      [injection HT as <-; rewrite E2 in *; simpl; rewrite Hs; simpl;
       repeat split |].
    destruct (Z.eqb_spec (PointerMemSize TD) 4) as [E4 | _];
      [injection HT as <-; rewrite E4 in *; simpl; rewrite Hs; simpl;
       repeat split |].
    destruct (Z.eqb_spec (PointerMemSize TD) 8) as [E8 | _];
      [injection HT as <-; rewrite E8 in *; simpl; rewrite Hs; simpl;
       repeat split | discriminate].
Qed.

(** X13 (witness): the default description, with pointers of 8 bytes. *)
Lemma getIntPtrType_spec_witness :
  getIntPtrType default_TD = Some (IntegerTy 64)
  /\ getTypeSize all_sized default_TD (IntegerTy 64)
     = Some (PointerMemSize default_TD).
Proof.
  assert (H : getIntPtrType default_TD = Some (IntegerTy 64))
    by (vm_compute; reflexivity).
  split; [exact H |].
  exact (proj1 (proj2 (proj2 (getIntPtrType_spec all_sized default_TD)
                         (IntegerTy 64) VoidTy H eq_refl eq_refl))).
Defined.

Lemma requested_alignment_log (r0 a : Z) :
  0 <= r0 < 32 -> 0 <= a ->
  (if to_unsigned32 (2 ^ r0) <? a then Log2_32 a else r0)
  = Z.max r0 (Z.log2 a).
Proof.
  intros Hr Ha.
  assert (Hp : 0 < 2 ^ r0 < 2 ^ 32).
  { split; [apply Z.pow_pos_nonneg; lia | apply Z.pow_lt_mono_r; lia]. }
  rewrite to_unsigned32_small by (change (2 ^ 32) with 4294967296 in Hp; lia).
  destruct (Z.ltb_spec (2 ^ r0) a) as [Hlt | Hge].
  - unfold Log2_32. destruct (Z.eqb_spec a 0); [lia |].
    assert (r0 <= Z.log2 a).
    { rewrite <- (Z.log2_pow2 r0) by lia. apply Z.log2_le_mono. lia. }
    lia.
  - assert (Z.log2 a <= r0).
    { rewrite <- (Z.log2_pow2 r0) by lia. apply Z.log2_le_mono. lia. }
    lia.
Qed.

(** X14: the preferred alignment of a global variable, as a shift.  When
    the shift [r0] of the element type is defined, the result [r] of
    [getPreferredAlignmentLog] is never below [r0] nor below the
    logarithm of the alignment the global asks for; it is the larger of
    the two, unless the global has an initializer of more than 128 bytes
    and both are below 4, in which case it is 4.  A global without
    initializer always has a result. *)
Theorem getPreferredAlignmentLog_spec :
  forall (isSized : Ty -> bool) (TD : TargetData) (GV : GlobalVariable)
         (r0 : Z),
    getPreferredTypeAlignmentShift isSized TD (GV_ElementType GV) = Some r0 ->
    0 <= r0 < 32 -> 0 <= GV_Alignment GV ->
    let m := Z.max r0 (Z.log2 (GV_Alignment GV)) in
    (GV_hasInitializer GV = false ->
     getPreferredAlignmentLog isSized TD GV = Some m)
    /\ (forall r, getPreferredAlignmentLog isSized TD GV = Some r ->
          r0 <= r /\ Z.log2 (GV_Alignment GV) <= r
          /\ (r = m
              \/ r = 4 /\ m < 4 /\ GV_hasInitializer GV = true
                 /\ exists Size,
                      getTypeSize isSized TD (GV_ElementType GV) = Some Size
                      /\ 128 < Size))
    /\ (forall Size,
          GV_hasInitializer GV = true ->
          getTypeSize isSized TD (GV_ElementType GV) = Some Size ->
          128 < Size ->
          getPreferredAlignmentLog isSized TD GV = Some (Z.max m 4)).
Proof.
  intros isSized TD GV r0 H0 Hr Ha m.
  unfold getPreferredAlignmentLog. rewrite H0.
  destruct (Z.leb_spec 32 r0) as [| _]; [lia |].
  cbv zeta. rewrite (requested_alignment_log r0 (GV_Alignment GV) Hr Ha).
  fold m. split; [| split].
  - intros ->. reflexivity.
  - intros r. destruct (GV_hasInitializer GV); simpl.
    + destruct (Z.ltb_spec m 4) as [Hm | Hm].
      * destruct (getTypeSize isSized TD (GV_ElementType GV)) as [Size |];
          [| discriminate].
        destruct (Z.ltb_spec 128 Size) as [HS | HS]; intros [= <-].
        -- split; [lia | split; [lia |]]. right.
           split; [reflexivity | split; [exact Hm | split; [reflexivity |]]].
           exists Size. split; [reflexivity | exact HS].
        -- split; [lia | split; [lia |]]. left. reflexivity.
      * intros [= <-]. split; [lia | split; [lia |]]. left. reflexivity.
    + intros [= <-]. split; [lia | split; [lia |]]. left. reflexivity.
  - intros Size -> -> HS. simpl.
    destruct (Z.ltb_spec m 4) as [Hm | Hm].
    + destruct (Z.ltb_spec 128 Size); [| lia]. f_equal. lia.
    + f_equal. lia.
Qed.

(** X14 (witness): a global of type [[40 x i32]] with an initializer, in
    the default description: 160 bytes, so the shift 2 of [i32] becomes
    4. *)
Lemma getPreferredAlignmentLog_spec_witness :
  let GV := mkGlobalVariable (ArrayTy (IntegerTy 32) 40) 0 true in
  getPreferredTypeAlignmentShift all_sized default_TD (GV_ElementType GV)
  = Some 2
  /\ getPreferredAlignmentLog all_sized default_TD GV = Some 4.
Proof.
  intros GV.
  assert (H0 : getPreferredTypeAlignmentShift all_sized default_TD
                 (GV_ElementType GV) = Some 2) by (vm_compute; reflexivity).
  assert (Hr : 0 <= 2 < 32) by lia.
  assert (Ha : 0 <= GV_Alignment GV) by (simpl; lia).
  assert (HS : getTypeSize all_sized default_TD (GV_ElementType GV)
               = Some 160) by (vm_compute; reflexivity).
  assert (H128 : 128 < 160) by lia.
  split; [exact H0 |].
  exact (proj2 (proj2 (getPreferredAlignmentLog_spec all_sized default_TD GV
                         2 H0 Hr Ha)) 160 eq_refl HS H128).
Defined.

(** ** The queries on all types *)

Lemma Ty_nested_ind (P : Ty -> Prop) :
  P LabelTy -> P VoidTy -> P FloatTy -> P DoubleTy ->
  (forall bw, P (IntegerTy bw)) ->
  (forall E, P E -> P (PointerTy E)) ->
  (forall E n, P E -> P (ArrayTy E n)) ->
  (forall E bw, P E -> P (PackedTy E bw)) ->
  (forall elts, Forall P elts -> P (StructTy elts)) ->
  P OtherTy ->
  forall T, P T.
Proof.
  intros HL HV HF HD HI HP HA HK HS HO.
  fix IH 1. intros [ | | | | bw | E | E n | E bw | elts | ].
  - exact HL.
  - exact HV.
  - exact HF.
  - exact HD.
  - apply HI.
  - apply HP, IH.
  - apply HA, IH.
  - apply HK, IH.
  - apply HS. induction elts as [| T rest IHr]; constructor;
      [apply IH | exact IHr].
  - exact HO.
Qed.

Lemma StructLayout_loop_ext (f1 g1 f2 g2 : Ty -> option Z) (elts : list Ty) :
  Forall (fun T => g1 T = g2 T /\ f1 T = f2 T) elts ->
  forall L, StructLayout_loop f1 g1 elts L = StructLayout_loop f2 g2 elts L.
Proof.
  induction 1 as [| T rest [Hg Hf] _ IH]; intros L; simpl; [reflexivity |].
  rewrite Hf, Hg. destruct (f2 T); [| reflexivity].
  destruct (g2 T); [| reflexivity].
  destruct (StructLayout_place _ _ L); [apply IH | reflexivity].
Qed.

Lemma getTypeSize_scalar_key (T : Ty) (Size : Z) :
  supported_scalar T = true -> getTypeSize_scalar T = Some Size ->
  to_short (to_uint64 (Size * 8)) = Size * 8
  /\ consulted (scalar_AlignType T) (Size * 8) = true.
Proof.
  destruct T; try discriminate; simpl; intros _.
  - intros [= <-]. split; reflexivity.
  - intros [= <-]. split; reflexivity.
  - intros [= <-]. split; reflexivity.
  - destruct (_ <=? 8); [intros [= <-]; split; reflexivity |].
    destruct (_ <=? 16); [intros [= <-]; split; reflexivity |].
    destruct (_ <=? 32); [intros [= <-]; split; reflexivity |].
    destruct (_ <=? 64); [intros [= <-]; split; reflexivity | discriminate].
Qed.

Lemma getAlignmentTy_scalar (isSized : Ty -> bool) (TD : TargetData) (T : Ty)
    (b : bool) :
  match T with
  | IntegerTy _ | VoidTy | FloatTy | DoubleTy | PackedTy _ _ => True
  | _ => False
  end ->
  getAlignmentTy isSized TD T b
  = if negb (isSized T) then None
    else match getTypeSize_scalar T with
         | Some Size =>
             option_map (which_align b)
               (getAlignment TD (scalar_AlignType T)
                  (to_short (to_uint64 (Size * 8))))
         | None => None
         end.
Proof.
  destruct T; try contradiction; intros _; reflexivity.
Qed.

Lemma queries_ext (isSized : Ty -> bool) (TD1 TD2 : TargetData) :
  PointerMemSize TD1 = PointerMemSize TD2 ->
  PointerABIAlign TD1 = PointerABIAlign TD2 ->
  PointerPrefAlign TD1 = PointerPrefAlign TD2 ->
  (forall k w, consulted k w = true ->
               getAlignment TD1 k w = getAlignment TD2 k w) ->
  forall T,
    getTypeSize isSized TD1 T = getTypeSize isSized TD2 T
    /\ forall b, getAlignmentTy isSized TD1 T b
                 = getAlignmentTy isSized TD2 T b.
Proof.
  intros Hm Ha Hp Hq.
  assert (Hscalar : forall T b,
            match T with
            | IntegerTy _ | VoidTy | FloatTy | DoubleTy | PackedTy _ _ => True
            | _ => False
            end ->
            (supported_scalar T = true \/ scalar_AlignType T = PACKED_ALIGN) ->
            getAlignmentTy isSized TD1 T b = getAlignmentTy isSized TD2 T b).
  { intros T b HT Hsup. rewrite !getAlignmentTy_scalar by exact HT.
    destruct (negb (isSized T)); [reflexivity |].
    destruct (getTypeSize_scalar T) as [Size |] eqn:HS; [| reflexivity].
    destruct Hsup as [Hsup | Hsup].
    - destruct (getTypeSize_scalar_key T Size Hsup HS) as [-> Hc].
      rewrite (Hq _ _ Hc). reflexivity.
    - rewrite Hsup. rewrite (Hq PACKED_ALIGN _ eq_refl). reflexivity. }
  induction T using Ty_nested_ind.
  - simpl. rewrite Hm, Ha, Hp. split; reflexivity.
  - split; [reflexivity |]. intros b. apply Hscalar; [exact I | left; reflexivity].
  - split; [reflexivity |]. intros b. apply Hscalar; [exact I | left; reflexivity].
  - split; [reflexivity |]. intros b. apply Hscalar; [exact I | left; reflexivity].
  - split; [reflexivity |]. intros b.
    destruct (bw <=? 64) eqn:Hbw.
    + apply Hscalar; [exact I | left; exact Hbw].
    + rewrite !getAlignmentTy_scalar by exact I.
      destruct (negb (isSized _)); [reflexivity |].
      simpl.
      destruct (Z.leb_spec bw 8); [lia |].
      destruct (Z.leb_spec bw 16); [lia |].
      destruct (Z.leb_spec bw 32); [lia |]. rewrite Hbw. reflexivity.
  - simpl. rewrite Hm, Ha, Hp. split; reflexivity.
  - destruct IHT as [IHs IHa]. split.
    + simpl. rewrite IHs, (IHa true). reflexivity.
    + intros b. simpl. rewrite (IHa b). reflexivity.
  - split; [reflexivity |]. intros b. apply Hscalar; [exact I | right; reflexivity].
  - assert (HL : StructLayout_new (fun E => getAlignmentTy isSized TD1 E true)
                   (getTypeSize isSized TD1) elts
                 = StructLayout_new (fun E => getAlignmentTy isSized TD2 E true)
                     (getTypeSize isSized TD2) elts).
    { unfold StructLayout_new. f_equal. apply StructLayout_loop_ext.
      eapply Forall_impl; [| exact H]. intros T [Hs Hal].
      split; [exact Hs | apply Hal]. }
    split.
    + simpl. rewrite HL. reflexivity.
    + intros b. simpl. rewrite HL. rewrite (Hq AGGREGATE_ALIGN 0 eq_refl).
      reflexivity.
  - split; reflexivity.
Qed.

Lemma getAlignment_find (TD : TargetData) (k : AlignTypeEnum) (w : Z) :
  getAlignment TD k w
  = find (fun e => negb (TargetAlignElem_lt e (TargetAlignElem_get k 0 0 w)))
      (Alignments TD).
Proof. unfold getAlignment. apply lower_bound_find. Qed.

Lemma find_table_set_below (elt key : TargetAlignElem)
    (v : list TargetAlignElem) :
  TargetAlignElem_lt elt key = true ->
  find (fun e => negb (TargetAlignElem_lt e key)) (table_set elt v)
  = find (fun e => negb (TargetAlignElem_lt e key)) v.
Proof.
  intros Hlt. induction v as [| e rest IH]; simpl.
  - rewrite Hlt. reflexivity.
  - destruct (TargetAlignElem_lt e elt) eqn:He.
    + simpl. destruct (negb (TargetAlignElem_lt e key)); [reflexivity | exact IH].
    + destruct (same_key e elt) eqn:Hk; simpl; rewrite Hlt; simpl.
      * assert (Hek : TargetAlignElem_lt e key = true) by (key_order; lia).
        rewrite Hek. reflexivity.
      * reflexivity.
Qed.

Lemma consulted_default (k : AlignTypeEnum) (w : Z) :
  consulted k w = true -> k <> PACKED_ALIGN ->
  lookup_key (TargetAlignElem_get k 0 0 w) default_table <> None.
Proof.
  destruct k; simpl; intros H Hk; try congruence;
    repeat (apply orb_true_iff in H; destruct H as [H | H]);
    apply Z.eqb_eq in H; subst w; vm_compute; discriminate.
Qed.

Lemma consulted_present (TD : TargetData) (k : AlignTypeEnum) (w : Z) :
  wf TD -> consulted k w = true -> k <> PACKED_ALIGN ->
  exists e,
    lookup_key (TargetAlignElem_get k 0 0 w) (Alignments TD) = Some e
    /\ getAlignment TD k w = Some e
    /\ In e (Alignments TD) /\ AlignType e = k /\ TypeBitWidth e = w.
Proof.
  intros Hwf Hc Hk.
  pose proof (consulted_default k w Hc Hk) as Hd.
  destruct (lookup_key _ default_table) as [d |] eqn:Hl; [| congruence].
  apply lookup_key_In in Hl. destruct Hl as [Hin Hsame].
  destruct Hwf as (Hs & _ & Hseed & _).
  pose proof (Hseed d Hin) as Hp.
  rewrite (lookup_key_same_key _ _ _ Hsame) in Hp.
  destruct (lookup_key _ (Alignments TD)) as [e |] eqn:He; [| congruence].
  exists e. split; [reflexivity |].
  split; [apply getAlignment_exact; assumption |].
  apply lookup_key_In in He. destruct He as [HinE HkE].
  split; [exact HinE |].
  apply same_key_true in HkE. simpl in HkE. destruct HkE as [Hv Hw].
  split; [apply AlignTypeEnum_value_inj; exact Hv | exact Hw].
Qed.

Lemma getAlignment_setAlignment_other (TD : TargetData)
    (k0 : AlignTypeEnum) (a p w0 : Z) (k : AlignTypeEnum) (w : Z) :
  wf TD -> consulted k0 w0 = false -> consulted k w = true ->
  getAlignment (setAlignment k0 a p w0 TD) k w = getAlignment TD k w.
Proof.
  intros Hwf H0 Hc.
  destruct (AlignTypeEnum_eqb k PACKED_ALIGN) eqn:Hk.
  - apply AlignTypeEnum_eqb_eq in Hk. subst k.
    rewrite !getAlignment_find, setAlignment_Alignments.
    apply find_table_set_below. apply lt_true. simpl.
    destruct k0; simpl in H0; try discriminate; left; vm_compute; reflexivity.
  - assert (Hne : k <> PACKED_ALIGN).
    { intros ->. simpl in Hk. discriminate. }
    destruct (consulted_present TD k w Hwf Hc Hne) as (e & Hl & Hg & _).
    rewrite Hg. apply getAlignment_exact.
    + rewrite setAlignment_Alignments. apply sorted_table_set.
      destruct Hwf as (Hs & _). exact Hs.
    + rewrite setAlignment_Alignments, lookup_key_table_set.
      destruct (same_key _ _) eqn:Hsame; [| exact Hl].
      apply same_key_true in Hsame. simpl in Hsame. destruct Hsame as [Hv Hw].
      apply AlignTypeEnum_value_inj in Hv. subst. congruence.
Qed.

(** X15: the alignment of a scalar type.  In the object built from any
    description string, the alignment of a sized integer type of at most
    64 bits, of [void], of [float] and of [double] is defined, and it is
    the alignment of the element whose key is exactly the alignment type
    of the type with 8 times its size in bytes: an integer type of 1 to 8
    bits is aligned as [i8] is, whatever the element of [i1] says. *)
Theorem scalar_alignment_exact :
  forall (isSized : Ty -> bool) (s : str) (TD : TargetData) (T : Ty),
    init s = Some TD -> isSized T = true -> supported_scalar T = true ->
    exists Size e,
      getTypeSize isSized TD T = Some Size
      /\ (Size = 1 \/ Size = 2 \/ Size = 4 \/ Size = 8)
      /\ lookup_key (TargetAlignElem_get (scalar_AlignType T) 0 0 (Size * 8))
           (Alignments TD) = Some e
      /\ forall b, getAlignmentTy isSized TD T b = Some (which_align b e).
Proof.
  intros isSized s TD T Hinit Hsized Hsup.
  pose proof (init_wf s TD Hinit) as Hwf.
  assert (HT : match T with
               | IntegerTy _ | VoidTy | FloatTy | DoubleTy | PackedTy _ _ =>
                   True
               | _ => False
               end) by (destruct T; try discriminate; exact I).
  assert (Hsize : getTypeSize isSized TD T = getTypeSize_scalar T).
  { destruct T; try contradiction; simpl; rewrite Hsized; reflexivity. }
  assert (Hdef : exists Size, getTypeSize_scalar T = Some Size
                              /\ (Size = 1 \/ Size = 2 \/ Size = 4 \/ Size = 8)).
  { destruct T; try discriminate; simpl; eauto 6.
    simpl in Hsup.
    destruct (_ <=? 8); [eauto 6 |].
    destruct (_ <=? 16); [eauto 6 |].
    destruct (_ <=? 32); [eauto 6 |].
    rewrite Hsup. eauto 6. }
  destruct Hdef as (Size & HS & Hcases).
  destruct (getTypeSize_scalar_key T Size Hsup HS) as [Hkey Hc].
  assert (Hk : scalar_AlignType T <> PACKED_ALIGN)
    by (destruct T; discriminate).
  destruct (consulted_present TD _ _ Hwf Hc Hk) as (e & Hl & Hg & _).
  exists Size, e. split; [rewrite Hsize; exact HS |].
  split; [exact Hcases |]. split; [exact Hl |].
  intros b. rewrite getAlignmentTy_scalar by exact HT.
  rewrite Hsized, HS, Hkey, Hg. reflexivity.
Qed.

(** X15 (witness): [i1] in the default description. *)
Lemma scalar_alignment_exact_witness :
  exists Size e,
    getTypeSize all_sized default_TD (IntegerTy 1) = Some Size
    /\ (Size = 1 \/ Size = 2 \/ Size = 4 \/ Size = 8)
    /\ lookup_key
         (TargetAlignElem_get (scalar_AlignType (IntegerTy 1)) 0 0 (Size * 8))
         (Alignments default_TD) = Some e
    /\ forall b,
         getAlignmentTy all_sized default_TD (IntegerTy 1) b
         = Some (which_align b e).
Proof.
  exact (scalar_alignment_exact all_sized [] default_TD (IntegerTy 1)
           init_empty eq_refl eq_refl).
Defined.

(** X16: the elements that no query looks at.  In the object built from
    any description string, setting the alignment of a key other than
    that of the aggregates ([a0]), of the integers of 8, 16, 32 and 64
    bits, of [f32] and [f64] and of the vectors changes the size, the
    alignment and the structure layout of no type: the element of [i1],
    for one, is never used. *)
Theorem unconsulted_entry_invisible :
  forall (isSized : Ty -> bool) (s : str) (TD : TargetData)
         (k : AlignTypeEnum) (a p w : Z),
    init s = Some TD -> consulted k w = false ->
    (forall T,
       getTypeSize isSized (setAlignment k a p w TD) T
       = getTypeSize isSized TD T
       /\ forall b, getAlignmentTy isSized (setAlignment k a p w TD) T b
                    = getAlignmentTy isSized TD T b)
    /\ (forall elts,
          getStructLayout isSized (setAlignment k a p w TD) elts
          = getStructLayout isSized TD elts).
Proof.
  intros isSized s TD k a p w Hinit Hc.
  pose proof (init_wf s TD Hinit) as Hwf.
  destruct (setAlignment_frame k a p w TD) as (_ & Hm & Ha & Hp & _).
  assert (Hall : forall T,
            getTypeSize isSized (setAlignment k a p w TD) T
            = getTypeSize isSized TD T
            /\ forall b, getAlignmentTy isSized (setAlignment k a p w TD) T b
                         = getAlignmentTy isSized TD T b).
  { apply queries_ext; try assumption.
    intros k' w' Hc'. apply getAlignment_setAlignment_other; assumption. }
  split; [exact Hall |].
  intros elts. unfold getStructLayout, StructLayout_new. f_equal.
  apply StructLayout_loop_ext. apply Forall_forall. intros T _.
  destruct (Hall T) as [Hs Hal]. split; [exact Hs | apply Hal].
Qed.

(** X16 (witness): the element of [i1] of the default description set to
    4 bytes, and a structure with an [i1] in it. *)
Lemma unconsulted_entry_invisible_witness :
  let T := StructTy [IntegerTy 1; IntegerTy 32] in
  getTypeSize all_sized (setAlignment INTEGER_ALIGN 4 4 1 default_TD) T
  = getTypeSize all_sized default_TD T.
Proof.
  intros T.
  exact (proj1 (proj1 (unconsulted_entry_invisible all_sized [] default_TD
                         INTEGER_ALIGN 4 4 1 init_empty eq_refl) T)).
Defined.

Lemma StructLayout_loop_total (f g : Ty -> option Z) (elts : list Ty) :
  Forall (fun T => exists a sz, f T = Some a /\ 1 <= a < 256
                                /\ g T = Some sz) elts ->
  forall L, exists L', StructLayout_loop f g elts L = Some L'.
Proof.
  induction 1 as [| T rest (a & sz & Hf & Ha & Hg) _ IH]; intros L; simpl.
  - eauto.
  - rewrite Hf, Hg. unfold StructLayout_place.
    rewrite (to_unsigned32_small a) by lia.
    destruct (Z.eqb_spec a 0); [lia |]. apply IH.
Qed.

Lemma no_zero_abi_lookup (TD : TargetData) (e : TargetAlignElem) :
  wf TD -> no_zero_abi TD = true -> In e (Alignments TD) ->
  AlignType e <> AGGREGATE_ALIGN -> 1 <= ABIAlign e < 256.
Proof.
  intros (_ & Hok & _) Hnz Hin Hk.
  unfold no_zero_abi in Hnz. apply andb_true_iff in Hnz.
  destruct Hnz as [_ Hnz]. rewrite forallb_forall in Hnz.
  specialize (Hnz e Hin). rewrite Forall_forall in Hok.
  destruct (Hok e Hin) as (Hr & _).
  apply orb_true_iff in Hnz. destruct Hnz as [Hnz | Hnz].
  - apply AlignTypeEnum_eqb_eq in Hnz. contradiction.
  - apply negb_true_iff in Hnz. apply Z.eqb_neq in Hnz. lia.
Qed.

Lemma getAlignment_vector_defined (TD : TargetData) (w : Z) :
  wf TD -> w <= 128 ->
  exists e, getAlignment TD PACKED_ALIGN w = Some e
            /\ In e (Alignments TD) /\ AlignType e = PACKED_ALIGN.
Proof.
  intros Hwf Hw.
  assert (Hin : In (mkTargetAlignElem PACKED_ALIGN 16 16 128) default_table)
    by (vm_compute; tauto).
  destruct (wf_seed TD _ _ _ _ Hwf Hin) as (r & _ & Hr & Hk & Hrw).
  destruct Hwf as (Hs & _).
  pose proof (getAlignment_spec TD PACKED_ALIGN w Hs) as H. cbv zeta in H.
  destruct (getAlignment TD PACKED_ALIGN w) as [e |].
  - destruct H as (He & Hge & _). exists e.
    split; [reflexivity |]. split; [exact He |].
    apply lt_false in Hge. simpl in Hge.
    destruct (AlignType e); try reflexivity;
      vm_compute in Hge; destruct Hge as [Hge | [Hge _]]; discriminate.
  - specialize (H r Hr). apply lt_true in H. simpl in H.
    rewrite Hk, Hrw in H. lia.
Qed.

Lemma queries_total (isSized : Ty -> bool) (TD : TargetData) :
  wf TD -> no_zero_abi TD = true ->
  forall T, supported isSized T = true ->
    (exists Size, getTypeSize isSized TD T = Some Size)
    /\ (exists a, getAlignmentTy isSized TD T true = Some a /\ 1 <= a < 256)
    /\ (exists a, getAlignmentTy isSized TD T false = Some a).
Proof.
  intros Hwf Hnz.
  assert (Hptr : 1 <= PointerABIAlign TD < 256).
  { destruct Hwf as (_ & _ & _ & _ & Hr & _).
    unfold no_zero_abi in Hnz. apply andb_true_iff in Hnz.
    destruct Hnz as [Hnz _]. apply negb_true_iff, Z.eqb_neq in Hnz. lia. }
  assert (Hscalar : forall T,
            isSized T = true -> supported_scalar T = true ->
            (exists Size, getTypeSize isSized TD T = Some Size)
            /\ (exists a, getAlignmentTy isSized TD T true = Some a
                          /\ 1 <= a < 256)
            /\ (exists a, getAlignmentTy isSized TD T false = Some a)).
  { intros T Hsized Hsup.
    assert (HT : match T with
                 | IntegerTy _ | VoidTy | FloatTy | DoubleTy | PackedTy _ _ =>
                     True
                 | _ => False
                 end) by (destruct T; try discriminate; exact I).
    assert (Hsize : getTypeSize isSized TD T = getTypeSize_scalar T).
    { destruct T; try contradiction; simpl; rewrite Hsized; reflexivity. }
    assert (Hdef : exists Size, getTypeSize_scalar T = Some Size).
    { destruct T; try discriminate; simpl; eauto.
      simpl in Hsup.
      destruct (_ <=? 8); [eauto |].
      destruct (_ <=? 16); [eauto |].
      destruct (_ <=? 32); [eauto |].
      rewrite Hsup. eauto. }
    destruct Hdef as (Size & HS).
    destruct (getTypeSize_scalar_key T Size Hsup HS) as [Hkey Hc].
    assert (Hk : scalar_AlignType T <> PACKED_ALIGN)
      by (destruct T; discriminate).
    destruct (consulted_present TD _ _ Hwf Hc Hk) as (e & _ & Hg & Hin & Hek & _).
    split; [exists Size; rewrite Hsize; exact HS |].
    rewrite !getAlignmentTy_scalar by exact HT.
    rewrite Hsized, HS, Hkey, Hg. simpl.
    split; [| eauto]. exists (ABIAlign e). split; [reflexivity |].
    apply (no_zero_abi_lookup TD e Hwf Hnz Hin).
    rewrite Hek. destruct T; discriminate. }
  induction T using Ty_nested_ind; intros Hsup; simpl in Hsup;
    apply andb_true_iff in Hsup; destruct Hsup as [Hsized Hsup].
  - simpl. rewrite Hsized. simpl.
    split; [eauto | split; [| eauto]].
    exists (PointerABIAlign TD). split; [reflexivity | exact Hptr].
  - apply Hscalar; [exact Hsized | reflexivity].
  - apply Hscalar; [exact Hsized | reflexivity].
  - apply Hscalar; [exact Hsized | reflexivity].
  - apply Hscalar; [exact Hsized | exact Hsup].
  - simpl. rewrite Hsized. simpl.
    split; [eauto | split; [| eauto]].
    exists (PointerABIAlign TD). split; [reflexivity | exact Hptr].
  - simpl. rewrite Hsized. simpl.
    destruct (IHT Hsup) as ((sz & Hs) & (a & Ha & Har) & (q & Hq)).
    rewrite Hs, Ha, Hq. destruct (Z.eqb_spec a 0); [lia |].
    split; [eauto | split; [| eauto]].
    exists a. split; [reflexivity | exact Har].
  - apply andb_true_iff in Hsup. destruct Hsup as [Hlo Hhi].
    apply Z.leb_le in Hlo. apply Z.ltb_lt in Hhi.
    simpl. rewrite Hsized. simpl. split; [eauto |].
    assert (Hq : 0 <= Z.quot bw 8 <= 16).
    { split; [apply Z.quot_pos; lia |].
      assert (Z.quot bw 8 < 17) by (apply Z.quot_lt_upper_bound; lia).
      lia. }
    assert (Hw : to_short (to_uint64 (Z.quot bw 8 * 8)) = Z.quot bw 8 * 8).
    { rewrite to_uint64_small by lia. apply to_short_small. lia. }
    rewrite Hw.
    destruct (getAlignment_vector_defined TD (Z.quot bw 8 * 8) Hwf)
      as (e & Hg & Hin & Hk); [lia |].
    rewrite Hg. split; [| eauto]. exists (ABIAlign e).
    split; [reflexivity |].
    apply (no_zero_abi_lookup TD e Hwf Hnz Hin). rewrite Hk. discriminate.
  - apply andb_true_iff in Hsup. destruct Hsup as [_ Hsup].
    simpl. rewrite Hsized. simpl.
    assert (Hloop : exists L,
              StructLayout_new (fun E => getAlignmentTy isSized TD E true)
                (getTypeSize isSized TD) elts = Some L).
    { unfold StructLayout_new.
      destruct (StructLayout_loop_total
                  (fun E => getAlignmentTy isSized TD E true)
                  (getTypeSize isSized TD) elts) with
        (L := {| StructSize := 0; StructAlignment := 0; MemberOffsets := [] |})
        as [L0 HL0].
      - rewrite forallb_forall in Hsup. rewrite Forall_forall in H |- *.
        intros T HT.
        destruct (H T HT (Hsup T HT)) as ((sz & Hs) & (a & Ha & Har) & _).
        exists a, sz. auto.
      - rewrite HL0. simpl. eauto. }
    destruct Hloop as [L HL]. rewrite HL. simpl. split; [eauto |].
    destruct (consulted_present TD AGGREGATE_ALIGN 0 Hwf eq_refl)
      as (e & _ & Hg & Hin & _); [discriminate |].
    rewrite Hg. split; [| eauto].
    eexists. split; [reflexivity |].
    assert (HSA : 1 <= StructAlignment L <= 255).
    { apply (StructLayout_new_align
               (fun E => getAlignmentTy isSized TD E true)
               (getTypeSize isSized TD) elts L); [| exact HL].
      intros T a. apply getAlignmentTy_range. exact Hwf. }
    destruct Hwf as (_ & Hok & _). rewrite Forall_forall in Hok.
    destruct (Hok e Hin) as (Hr & _).
    destruct (Z.ltb_spec (ABIAlign e) (StructAlignment L));
      rewrite to_uchar_small; lia.
  - discriminate.
Qed.

(** X17: the queries are defined on the supported types.  In the object
    built from a description string in which no ABI alignment is 0 (that
    of the aggregates apart), every sized type made of pointers, integers
    of at most 64 bits, [void], [float], [double], vectors of at most 128
    bits, arrays and structures of at least one element has a size, an
    ABI alignment, which is at least 1, and a preferred alignment, and
    every such structure has a layout: no assertion fails, nothing is
    divided by 0 and no lookup leaves the table.  The structure of no
    element is left out, at every depth: the memory that
    [getStructLayout] asks for it is not of the size of the layout (see
    [getStructLayout_malloc_size]). *)
Theorem queries_defined :
  forall (isSized : Ty -> bool) (s : str) (TD : TargetData) (T : Ty),
    init s = Some TD -> no_zero_abi TD = true ->
    supported isSized T = true ->
    (exists Size, getTypeSize isSized TD T = Some Size)
    /\ (exists a, getABITypeAlignment isSized TD T = Some a /\ 1 <= a < 256)
    /\ (exists a, getPrefTypeAlignment isSized TD T = Some a)
    /\ (forall elts, T = StructTy elts ->
          exists L, getStructLayout isSized TD elts = Some L).
Proof.
  intros isSized s TD T Hinit Hnz Hsup.
  pose proof (init_wf s TD Hinit) as Hwf.
  destruct (queries_total isSized TD Hwf Hnz T Hsup) as (Hs & Ha & Hp).
  split; [exact Hs |]. split; [exact Ha |]. split; [exact Hp |].
  intros elts ->. destruct Hs as [Size HS]. simpl in HS.
  destruct (negb (isSized (StructTy elts))); [discriminate |].
  unfold getStructLayout, getABITypeAlignment.
  destruct (StructLayout_new _ _ elts) as [L |]; [eauto | discriminate].
Qed.

(** X17 (witness): a structure of an [i8], three [double] and a pointer,
    in the default description. *)
Lemma queries_defined_witness :
  let T := StructTy [IntegerTy 8; ArrayTy DoubleTy 3; PointerTy VoidTy] in
  exists Size, getTypeSize all_sized default_TD T = Some Size.
Proof.
  intros T.
  assert (Hnz : no_zero_abi default_TD = true) by (vm_compute; reflexivity).
  assert (Hsup : supported all_sized T = true) by (vm_compute; reflexivity).
  exact (proj1 (queries_defined all_sized [] default_TD T init_empty Hnz
                  Hsup)).
Defined.

(** ** Splitting the indices of an address *)

Lemma indexed_offset_walk_shift (isSized : Ty -> bool) (TD : TargetData)
    (idx : list Value) :
  forall (T : Ty) (acc d : Z),
    indexed_offset_walk isSized TD T idx (acc + d)
    = option_map (fun r => r + d) (indexed_offset_walk isSized TD T idx acc).
Proof.
  induction idx as [| i rest IH]; intros T acc d; [reflexivity |].
  destruct T; try reflexivity; simpl.
  - destruct i as [w v | U]; [| reflexivity].
    destruct (getTypeSize isSized TD T) as [size |]; [| reflexivity].
    rewrite <- IH. f_equal. lia.
  - destruct i as [w v | U]; [| reflexivity].
    destruct (getTypeSize isSized TD T) as [size |]; [| reflexivity].
    rewrite <- IH. f_equal. lia.
  - destruct i as [w v | U]; [| reflexivity].
    destruct (getTypeSize isSized TD T) as [size |]; [| reflexivity].
    rewrite <- IH. f_equal. lia.
  - destruct i as [w v | U]; [| reflexivity].
    destruct (w =? 32); [| reflexivity].
    destruct (getStructLayout isSized TD ContainedTys) as [L |];
      [| reflexivity].
    destruct (nth_error (MemberOffsets L) _) as [o |]; [| reflexivity].
    destruct (nth_error ContainedTys _) as [F |]; [| reflexivity].
    rewrite <- IH. f_equal. lia.
Qed.

Lemma indexed_offset_walk_app (isSized : Ty -> bool) (TD : TargetData)
    (i1 i2 : list Value) :
  forall (T : Ty) (acc : Z),
    indexed_offset_walk isSized TD T (i1 ++ i2) acc
    = match indexed_offset_walk isSized TD T i1 acc,
            fold_left gep_type_next i1 (Some T) with
      | Some a, Some T' => indexed_offset_walk isSized TD T' i2 a
      | _, _ => None
      end.
Proof.
  induction i1 as [| i rest IH]; intros T acc; [reflexivity |].
  destruct T; try reflexivity.
  - cbn [app indexed_offset_walk fold_left gep_type_next].
    destruct i as [w v | U]; [| reflexivity].
    destruct (getTypeSize isSized TD T) as [size |]; [apply IH | reflexivity].
  - cbn [app indexed_offset_walk fold_left gep_type_next].
    destruct i as [w v | U]; [| reflexivity].
    destruct (getTypeSize isSized TD T) as [size |]; [apply IH | reflexivity].
  - cbn [app indexed_offset_walk fold_left gep_type_next].
    destruct i as [w v | U]; [| reflexivity].
    destruct (getTypeSize isSized TD T) as [size |]; [apply IH | reflexivity].
  - cbn [app indexed_offset_walk fold_left gep_type_next].
    destruct i as [w v | U]; [| reflexivity].
    destruct (Z.eqb_spec w 32) as [-> | _]; [| reflexivity].
    destruct (getStructLayout isSized TD ContainedTys) as [L |];
      [| reflexivity].
    destruct (nth_error (MemberOffsets L) _) as [o |]; [| reflexivity].
    unfold getZExtValue.
    destruct (nth_error ContainedTys _) as [F |]; [apply IH | reflexivity].
Qed.

Lemma getIndexedOffset_pointer (isSized : Ty -> bool) (TD : TargetData)
    (E : Ty) (idx : list Value) :
  getIndexedOffset isSized TD (PointerTy E) idx
  = option_map to_uint64 (indexed_offset_walk isSized TD (PointerTy E) idx 0).
Proof.
  unfold getIndexedOffset. change 0 with (to_uint64 0) at 1.
  apply getIndexedOffset_loop_walk.
Qed.

(** X18: splitting the indices of an address.  When the indices [i1]
    lead from a pointer type to the type [T'], at the offset [r1], and the
    indices [i2] after a first index 0 lead from a pointer to [T'] to the
    offset [r2], then the indices [i1 ++ i2] lead from the first pointer
    type to the sum of [r1] and [r2], as an unsigned 64-bit integer. *)
Theorem getIndexedOffset_split :
  forall (isSized : Ty -> bool) (TD : TargetData) (E T' : Ty)
         (i1 i2 : list Value) (r1 r2 : Z),
    fold_left gep_type_next i1 (Some (PointerTy E)) = Some T' ->
    getIndexedOffset isSized TD (PointerTy E) i1 = Some r1 ->
    getIndexedOffset isSized TD (PointerTy T') (ConstantInt 64 0 :: i2)
    = Some r2 ->
    getIndexedOffset isSized TD (PointerTy E) (i1 ++ i2)
    = Some (to_uint64 (r1 + r2)).
Proof.
  intros isSized TD E T' i1 i2 r1 r2 Hty H1 H2.
  rewrite getIndexedOffset_pointer in H1, H2 |- *.
  rewrite indexed_offset_walk_app, Hty.
  destruct (indexed_offset_walk isSized TD (PointerTy E) i1 0) as [w1 |]
    eqn:Hw1; cbn [option_map] in H1; [| discriminate].
  injection H1 as <-.
  cbn [indexed_offset_walk] in H2.
  destruct (getTypeSize isSized TD T') as [size |];
    cbn [option_map] in H2; [| discriminate].
  change (to_signed 64 0) with 0 in H2.
  replace w1 with (0 + 0 * size + w1) at 1 by lia.
  rewrite indexed_offset_walk_shift.
  destruct (indexed_offset_walk isSized TD T' i2 (0 + 0 * size)) as [w2 |]
    eqn:Hw2; cbn [option_map] in H2; [| discriminate].
  injection H2 as <-. cbn [option_map].
  rewrite to_uint64_add_l, to_uint64_add_r. f_equal. f_equal. lia.
Qed.

(** X18 (witness): in the default description, the second element of the
    array that is the second member of a structure. *)
Lemma getIndexedOffset_split_witness :
  let E := StructTy [IntegerTy 8; ArrayTy (IntegerTy 32) 4] in
  let i1 := [ConstantInt 64 0; ConstantInt 32 1] in
  let i2 := [ConstantInt 64 2] in
  getIndexedOffset all_sized default_TD (PointerTy E) i1 = Some 4
  /\ getIndexedOffset all_sized default_TD (PointerTy E) (i1 ++ i2)
     = Some (to_uint64 (4 + 8)).
Proof.
  intros E i1 i2.
  assert (Hty : fold_left gep_type_next i1 (Some (PointerTy E))
                = Some (ArrayTy (IntegerTy 32) 4)) by reflexivity.
  assert (H1 : getIndexedOffset all_sized default_TD (PointerTy E) i1
               = Some 4) by (vm_compute; reflexivity).
  assert (H2 : getIndexedOffset all_sized default_TD
                 (PointerTy (ArrayTy (IntegerTy 32) 4))
                 (ConstantInt 64 0 :: i2) = Some 8)
    by (vm_compute; reflexivity).
  split; [exact H1 |].
  exact (getIndexedOffset_split all_sized default_TD E
           (ArrayTy (IntegerTy 32) 4) i1 i2 4 8 Hty H1 H2).
Defined.

(** ** The cache of the layouts *)

Lemma Ty_eqb_eq (a : Ty) : forall b, Ty_eqb a b = true <-> a = b.
Proof.
  induction a using Ty_nested_ind; intros b.
  - destruct b; simpl; split; congruence.
  - destruct b; simpl; split; congruence.
  - destruct b; simpl; split; congruence.
  - destruct b; simpl; split; congruence.
  - destruct b; simpl; split; try congruence.
    + intros H. apply Z.eqb_eq in H. congruence.
    + intros [= ->]. apply Z.eqb_refl.
  - destruct b; simpl; split; try congruence.
    + intros H. apply IHa in H. congruence.
    + intros [= <-]. apply IHa. reflexivity.
  - destruct b; simpl; split; try congruence.
    + intros H. apply andb_true_iff in H. destruct H as [H1 H2].
      apply IHa in H1. apply Z.eqb_eq in H2. congruence.
    + intros [= <- <-]. apply andb_true_iff. split;
        [apply IHa; reflexivity | apply Z.eqb_refl].
  - destruct b; simpl; split; try congruence.
    + intros H. apply andb_true_iff in H. destruct H as [H1 H2].
      apply IHa in H1. apply Z.eqb_eq in H2. congruence.
    + intros [= <- <-]. apply andb_true_iff. split;
        [apply IHa; reflexivity | apply Z.eqb_refl].
  - destruct b as [ | | | | | | | | ys | ]; try (simpl; split; congruence).
    assert (Hlist : Ty_eqb (StructTy elts) (StructTy ys) = true
                    <-> elts = ys).
    { revert ys. induction H as [| x xs Hx _ IH]; intros [| y ys]; simpl;
        try (split; congruence).
      split.
      - intros H. apply andb_true_iff in H. destruct H as [H1 H2].
        apply Hx in H1. apply IH in H2. congruence.
      - intros [= <- <-]. apply andb_true_iff. split;
          [apply Hx; reflexivity | apply IH; reflexivity]. }
    rewrite Hlist. split; congruence.
  - destruct b; simpl; split; congruence.
Qed.

Lemma LayoutKey_eqb_eq (a b : LayoutKey) :
  LayoutKey_eqb a b = true <-> a = b.
Proof.
  destruct a as [ta ea], b as [tb eb]. unfold LayoutKey_eqb.
  cbn [fst snd]. rewrite andb_true_iff, Nat.eqb_eq, Ty_eqb_eq.
  split; [intros [-> [= ->]]; reflexivity | intros [= -> ->]; auto].
Qed.

Lemma LayoutKey_eqb_refl (k : LayoutKey) : LayoutKey_eqb k k = true.
Proof. apply LayoutKey_eqb_eq. reflexivity. Qed.

Lemma LayoutKey_eqb_neq (a b : LayoutKey) :
  a <> b -> LayoutKey_eqb a b = false.
Proof.
  intros H. destruct (LayoutKey_eqb a b) eqn:E; [| reflexivity].
  apply LayoutKey_eqb_eq in E. contradiction.
Qed.

Lemma DenseMap_find_erase_same (k : LayoutKey) (m : LayoutInfoTy) :
  DenseMap_find k (DenseMap_erase k m) = None.
Proof.
  induction m as [| [k' v] rest IH]; simpl; [reflexivity |].
  destruct (LayoutKey_eqb k' k) eqn:E; [exact IH |].
  simpl. rewrite E. exact IH.
Qed.

Lemma DenseMap_find_erase_other (k k' : LayoutKey) (m : LayoutInfoTy) :
  k' <> k -> DenseMap_find k' (DenseMap_erase k m) = DenseMap_find k' m.
Proof.
  intros Hne. induction m as [| [k0 v] rest IH]; simpl; [reflexivity |].
  destruct (LayoutKey_eqb k0 k) eqn:E.
  - apply LayoutKey_eqb_eq in E. subst k0.
    rewrite (LayoutKey_eqb_neq k k') by congruence. exact IH.
  - simpl. destruct (LayoutKey_eqb k0 k'); [reflexivity | exact IH].
Qed.

Lemma DenseMap_find_set_same (k : LayoutKey) (v : Slot) (m : LayoutInfoTy) :
  DenseMap_find k (DenseMap_set k v m) = Some v.
Proof. simpl. rewrite LayoutKey_eqb_refl. reflexivity. Qed.

Lemma DenseMap_find_set_other (k k' : LayoutKey) (v : Slot)
    (m : LayoutInfoTy) :
  k' <> k -> DenseMap_find k' (DenseMap_set k v m) = DenseMap_find k' m.
Proof.
  intros Hne. simpl. rewrite (LayoutKey_eqb_neq k k') by congruence.
  apply DenseMap_find_erase_other. exact Hne.
Qed.

Lemma DenseMap_find_filter (this : nat) (k : LayoutKey) (m : LayoutInfoTy) :
  DenseMap_find k
    (filter (fun entry => negb (Nat.eqb (fst (fst entry)) this)) m)
  = if Nat.eqb (fst k) this then None else DenseMap_find k m.
Proof.
  induction m as [| [k' v] rest IH]; simpl.
  - destruct (Nat.eqb (fst k) this); reflexivity.
  - destruct (Nat.eqb (fst k') this) eqn:E; simpl.
    + rewrite IH. destruct (Nat.eqb (fst k) this) eqn:Ek; [reflexivity |].
      destruct (LayoutKey_eqb k' k) eqn:Ekk; [| reflexivity].
      apply LayoutKey_eqb_eq in Ekk. subst k'. congruence.
    + rewrite IH. destruct (LayoutKey_eqb k' k) eqn:Ekk; [| reflexivity].
      apply LayoutKey_eqb_eq in Ekk. subst k'. rewrite E. reflexivity.
Qed.

Lemma Ty_size_element (elts : list Ty) (E : Ty) :
  In E elts -> (Ty_size E <= list_sum (map Ty_size elts))%nat.
Proof.
  induction elts as [| x rest IH]; simpl; [contradiction |].
  intros [-> | H]; [lia |]. specialize (IH H). lia.
Qed.

Section CacheProofs.

Variable isSized : Ty -> bool.
Variable this : nat.
Variable TD : TargetData.

Lemma extends_refl (m : LayoutInfoTy) : extends isSized this TD m m.
Proof. split; [auto | intros k s H1 H2; congruence]. Qed.

Lemma extends_trans (m1 m2 m3 : LayoutInfoTy) :
  extends isSized this TD m1 m2 -> extends isSized this TD m2 m3 ->
  extends isSized this TD m1 m3.
Proof.
  intros [H1 N1] [H2 N2]. split.
  - intros k s H. apply H2, H1, H.
  - intros k s Hn H3. destruct (DenseMap_find k m2) as [s2 |] eqn:E.
    + pose proof (H2 k s2 E) as E3. rewrite E3 in H3. injection H3 as <-.
      apply (N1 k s2 Hn E).
    + apply (N2 k s E H3).
Qed.

Lemma slots_ok_extends (n : nat) (m m' : LayoutInfoTy) :
  slots_ok isSized this TD n m -> extends isSized this TD m m' ->
  slots_ok isSized this TD n m'.
Proof.
  intros Hok [H1 N1] elts s Hs.
  destruct (DenseMap_find (this, elts) m) as [s0 |] eqn:E.
  - pose proof (H1 _ _ E) as E'. rewrite E' in Hs. injection Hs as <-.
    apply (Hok elts s0 E).
  - destruct (N1 _ _ E Hs) as (_ & L & -> & HL). exact HL.
Qed.

Lemma slots_ok_mono (n n' : nat) (m : LayoutInfoTy) :
  (n' <= n)%nat -> slots_ok isSized this TD n m ->
  slots_ok isSized this TD n' m.
Proof.
  intros Hle Hok elts s Hs. specialize (Hok elts s Hs).
  destruct s; [lia | exact Hok].
Qed.

Lemma coherent_slots_ok (n : nat) (m : LayoutInfoTy) :
  coherent isSized this TD m -> slots_ok isSized this TD n m.
Proof.
  intros Hc elts s Hs. destruct (Hc elts s Hs) as (L & -> & HL). exact HL.
Qed.

Lemma coherent_extends (m m' : LayoutInfoTy) :
  coherent isSized this TD m -> extends isSized this TD m m' ->
  coherent isSized this TD m'.
Proof.
  intros Hc [H1 N1] elts s Hs.
  destruct (DenseMap_find (this, elts) m) as [s0 |] eqn:E.
  - pose proof (H1 _ _ E) as E'. rewrite E' in Hs. injection Hs as <-.
    apply (Hc elts s0 E).
  - destruct (N1 _ _ E Hs) as (_ & L & -> & HL). eauto.
Qed.

Lemma extends_others (m m' : LayoutInfoTy) (k : LayoutKey) :
  extends isSized this TD m m' -> fst k <> this ->
  DenseMap_find k m' = DenseMap_find k m.
Proof.
  intros [H1 N1] Hk. destruct (DenseMap_find k m) as [s |] eqn:E.
  - apply H1. exact E.
  - destruct (DenseMap_find k m') as [s' |] eqn:E'; [| reflexivity].
    destruct (N1 k s' E E') as [Hthis _]. contradiction.
Qed.

End CacheProofs.

Section CacheSound.

Variable isSized : Ty -> bool.
Variable this : nat.
Variable TD : TargetData.

Lemma agrees_ret (A : Type) (n : nat) (a : A) :
  agrees isSized this TD n (Cached_ret a) (Some a).
Proof. intros m _. exists m. split; [apply extends_refl | reflexivity]. Qed.

Lemma agrees_fail (A : Type) (n : nat) :
  agrees isSized this TD n (@Cached_fail A) None.
Proof. intros m _. exists m. split; [apply extends_refl | reflexivity]. Qed.

Lemma agrees_lift (A : Type) (n : nat) (o : option A) :
  agrees isSized this TD n (Cached_lift o) o.
Proof.
  intros m _. exists m. split; [apply extends_refl |].
  destruct o; reflexivity.
Qed.

Lemma agrees_mono (A : Type) (n n' : nat) (q : Cached A) (p : option A) :
  (n' <= n)%nat -> agrees isSized this TD n' q p ->
  agrees isSized this TD n q p.
Proof.
  intros Hle H m Hok. apply H. apply (slots_ok_mono _ _ _ n); assumption.
Qed.

Lemma agrees_bind (A B : Type) (n : nat) (c : Cached A) (p : option A)
    (f : A -> Cached B) (g : A -> option B) :
  agrees isSized this TD n c p ->
  (forall a, agrees isSized this TD n (f a) (g a)) ->
  agrees isSized this TD n (Cached_bind c f)
    (match p with Some a => g a | None => None end).
Proof.
  intros Hc Hf m Hok. destruct (Hc m Hok) as (m1 & He & Hq).
  unfold Cached_bind. rewrite Hq. destruct p as [a |]; simpl.
  - destruct (Hf a m1 (slots_ok_extends _ _ _ _ _ _ Hok He))
      as (m2 & He2 & Hq2).
    exists m2. split; [apply (extends_trans _ _ _ _ _ _ He He2) | exact Hq2].
  - exists m. split; [apply extends_refl | reflexivity].
Qed.

Lemma StructLayout_loop_c_agrees (n : nat) (f g : Ty -> Cached Z)
    (fp gp : Ty -> option Z) (elts : list Ty) :
  Forall (fun E => agrees isSized this TD n (f E) (fp E)
                   /\ agrees isSized this TD n (g E) (gp E)) elts ->
  forall L,
    agrees isSized this TD n (StructLayout_loop_c f g elts L)
      (StructLayout_loop fp gp elts L).
Proof.
  induction 1 as [| T rest [Hf Hg] _ IH]; intros L.
  - apply agrees_ret.
  - cbn [StructLayout_loop_c StructLayout_loop].
    apply agrees_bind; [exact Hf |]. intros a.
    apply agrees_bind; [exact Hg |]. intros sz.
    destruct (StructLayout_place _ _ L) as [L' |];
      [apply IH | apply agrees_fail].
Qed.

Lemma getStructLayout_with_agrees (f g : Ty -> Cached Z)
    (fp gp : Ty -> option Z) (elts : list Ty) :
  Forall (fun E => agrees isSized this TD (Ty_size E) (f E) (fp E)
                   /\ agrees isSized this TD (Ty_size E) (g E) (gp E))
    elts ->
  StructLayout_new fp gp elts = getStructLayout isSized TD elts ->
  agrees isSized this TD (Ty_size (StructTy elts))
    (getStructLayout_with this f g elts) (getStructLayout isSized TD elts).
Proof.
  intros Helts Hnew m Hok. unfold getStructLayout_with.
  set (key := (this, elts)).
  destruct (DenseMap_find key m) as [[| SL] |] eqn:Hfind.
  - pose proof (Hok elts _ Hfind) as Habs. simpl in Habs. lia.
  - pose proof (Hok elts _ Hfind) as HSL. simpl in HSL.
    exists m. split; [apply extends_refl |]. rewrite HSL. reflexivity.
  - set (n := list_sum (map Ty_size elts)).
    assert (Hok1 : slots_ok isSized this TD n (DenseMap_set key Unbuilt m)).
    { intros elts' s Hs.
      destruct (LayoutKey_eqb key (this, elts')) eqn:Ek.
      - apply LayoutKey_eqb_eq in Ek. rewrite <- Ek in Hs.
        rewrite DenseMap_find_set_same in Hs. injection Hs as <-.
        injection Ek as <-. simpl. unfold n. lia.
      - rewrite DenseMap_find_set_other in Hs.
        + specialize (Hok elts' s Hs). destruct s; [| exact Hok].
          simpl in Hok |- *. unfold n. lia.
        + intros Heq. rewrite Heq, LayoutKey_eqb_refl in Ek. discriminate. }
    assert (Hl : Forall (fun E => agrees isSized this TD n (f E) (fp E)
                                  /\ agrees isSized this TD n (g E) (gp E))
                   elts).
    { rewrite Forall_forall in Helts |- *. intros E HE.
      destruct (Helts E HE) as [H1 H2].
      pose proof (Ty_size_element elts E HE) as Hsz. fold n in Hsz.
      split; apply (agrees_mono _ n (Ty_size E)); assumption. }
    destruct (StructLayout_loop_c_agrees n f g fp gp elts Hl
                {| StructSize := 0; StructAlignment := 0;
                   MemberOffsets := [] |} _ Hok1) as (m2 & [H1 N1] & Hq).
    rewrite Hq. rewrite <- Hnew. unfold StructLayout_new.
    destruct (StructLayout_loop fp gp elts _) as [L |] eqn:Hloop; simpl.
    + exists (DenseMap_set key (Built (StructLayout_finish L)) m2).
      split; [| reflexivity]. split.
      * intros k s Hk.
        assert (Hne : k <> key) by (intros ->; congruence).
        rewrite DenseMap_find_set_other by exact Hne.
        apply H1. rewrite DenseMap_find_set_other by exact Hne. exact Hk.
      * intros k s Hk Hs.
        destruct (LayoutKey_eqb key k) eqn:Ek.
        -- apply LayoutKey_eqb_eq in Ek. subst k.
           rewrite DenseMap_find_set_same in Hs. injection Hs as <-.
           split; [reflexivity |]. eexists. split; [reflexivity |].
           simpl. rewrite <- Hnew. unfold StructLayout_new.
           rewrite Hloop. reflexivity.
        -- assert (Hne : k <> key).
           { intros ->. rewrite LayoutKey_eqb_refl in Ek. discriminate. }
           rewrite DenseMap_find_set_other in Hs by exact Hne.
           apply (N1 k s); [| exact Hs].
           rewrite DenseMap_find_set_other by exact Hne. exact Hk.
    + exists m. split; [apply extends_refl | reflexivity].
Qed.

Lemma getTypeSize_c_array (E : Ty) (n : Z) :
  getTypeSize_c isSized this TD (ArrayTy E n)
  = if negb (isSized (ArrayTy E n)) then Cached_fail
    else
      Size <- getTypeSize_c isSized this TD E ;;
      Alignment <- getAlignmentTy_c isSized this TD E true ;;
      if Alignment =? 0 then Cached_fail
      else
        Cached_ret
          (to_uint64
             (to_unsigned32
                (to_uint64
                   (to_uint64 (Size + Alignment - 1) / Alignment
                    * Alignment)) * n)).
Proof. reflexivity. Qed.

Lemma getTypeSize_array_eq (E : Ty) (n : Z) :
  getTypeSize isSized TD (ArrayTy E n)
  = if negb (isSized (ArrayTy E n)) then None
    else
      match getTypeSize isSized TD E with
      | Some Size =>
          match getAlignmentTy isSized TD E true with
          | Some Alignment =>
              if Alignment =? 0 then None
              else
                Some (to_uint64
                        (to_unsigned32
                           (to_uint64
                              (to_uint64 (Size + Alignment - 1) / Alignment
                               * Alignment)) * n))
          | None => None
          end
      | None => None
      end.
Proof.
  simpl. destruct (negb (isSized _)); [reflexivity |].
  destruct (getTypeSize isSized TD E), (getAlignmentTy isSized TD E true);
    reflexivity.
Qed.

Lemma getAlignmentTy_c_array (E : Ty) (n : Z) (b : bool) :
  getAlignmentTy_c isSized this TD (ArrayTy E n) b
  = if negb (isSized (ArrayTy E n)) then Cached_fail
    else getAlignmentTy_c isSized this TD E b.
Proof. reflexivity. Qed.

Lemma getAlignmentTy_array_eq (E : Ty) (n : Z) (b : bool) :
  getAlignmentTy isSized TD (ArrayTy E n) b
  = if negb (isSized (ArrayTy E n)) then None
    else getAlignmentTy isSized TD E b.
Proof. reflexivity. Qed.

Lemma getTypeSize_c_struct (elts : list Ty) :
  getTypeSize_c isSized this TD (StructTy elts)
  = if negb (isSized (StructTy elts)) then Cached_fail
    else
      Layout <- getStructLayout_c isSized this TD elts ;;
      Cached_ret (StructSize Layout).
Proof. reflexivity. Qed.

Lemma getTypeSize_struct_eq (elts : list Ty) :
  getTypeSize isSized TD (StructTy elts)
  = if negb (isSized (StructTy elts)) then None
    else
      match getStructLayout isSized TD elts with
      | Some Layout => Some (StructSize Layout)
      | None => None
      end.
Proof.
  simpl. destruct (negb (isSized _)); [reflexivity |].
  unfold getStructLayout, getABITypeAlignment.
  destruct (StructLayout_new _ _ elts); reflexivity.
Qed.

Lemma getAlignmentTy_c_struct (elts : list Ty) (b : bool) :
  getAlignmentTy_c isSized this TD (StructTy elts) b
  = if negb (isSized (StructTy elts)) then Cached_fail
    else
      Layout <- getStructLayout_c isSized this TD elts ;;
      match getAlignment TD AGGREGATE_ALIGN 0 with
      | Some elem =>
          Cached_ret
            (to_uchar
               (if which_align b elem <? StructAlignment Layout
                then StructAlignment Layout else which_align b elem))
      | None => Cached_fail
      end.
Proof. reflexivity. Qed.

Lemma getAlignmentTy_struct_eq (elts : list Ty) (b : bool) :
  getAlignmentTy isSized TD (StructTy elts) b
  = if negb (isSized (StructTy elts)) then None
    else
      match getStructLayout isSized TD elts with
      | Some Layout =>
          match getAlignment TD AGGREGATE_ALIGN 0 with
          | Some elem =>
              Some (to_uchar
                      (if which_align b elem <? StructAlignment Layout
                       then StructAlignment Layout else which_align b elem))
          | None => None
          end
      | None => None
      end.
Proof.
  rewrite getAlignmentTy_struct. destruct (negb (isSized _)); [reflexivity |].
  destruct (getStructLayout isSized TD elts),
    (getAlignment TD AGGREGATE_ALIGN 0); reflexivity.
Qed.

Lemma cached_queries_agree (T : Ty) :
  agrees isSized this TD (Ty_size T) (getTypeSize_c isSized this TD T)
    (getTypeSize isSized TD T)
  /\ forall b,
       agrees isSized this TD (Ty_size T)
         (getAlignmentTy_c isSized this TD T b)
         (getAlignmentTy isSized TD T b).
Proof.
  induction T using Ty_nested_ind.
  - split; [| intros b]; simpl; destruct (negb (isSized _));
      (apply agrees_fail || apply agrees_ret).
  - split; [| intros b]; simpl; destruct (negb (isSized _));
      (apply agrees_fail || apply agrees_lift).
  - split; [| intros b]; simpl; destruct (negb (isSized _));
      (apply agrees_fail || apply agrees_lift).
  - split; [| intros b]; simpl; destruct (negb (isSized _));
      (apply agrees_fail || apply agrees_lift).
  - split; [| intros b]; simpl; destruct (negb (isSized _));
      (apply agrees_fail || apply agrees_lift).
  - split; [| intros b]; simpl; destruct (negb (isSized _));
      (apply agrees_fail || apply agrees_ret).
  - destruct IHT as [IHs IHa].
    assert (Hsz : (Ty_size T <= Ty_size (ArrayTy T n))%nat) by (simpl; lia).
    split; [| intros b].
    + rewrite getTypeSize_c_array, getTypeSize_array_eq.
      destruct (negb (isSized _)); [apply agrees_fail |].
      apply agrees_bind; [apply (agrees_mono _ _ _ _ _ Hsz IHs) |].
      intros Size.
      apply agrees_bind; [apply (agrees_mono _ _ _ _ _ Hsz (IHa true)) |].
      intros Alignment. destruct (Alignment =? 0);
        [apply agrees_fail | apply agrees_ret].
    + rewrite getAlignmentTy_c_array, getAlignmentTy_array_eq.
      destruct (negb (isSized _)); [apply agrees_fail |].
      apply (agrees_mono _ _ _ _ _ Hsz (IHa b)).
  - split; [| intros b]; simpl; destruct (negb (isSized _));
      (apply agrees_fail || apply agrees_lift).
  - assert (HL : agrees isSized this TD (Ty_size (StructTy elts))
                   (getStructLayout_c isSized this TD elts)
                   (getStructLayout isSized TD elts)).
    { apply (getStructLayout_with_agrees _ _
               (fun E => getAlignmentTy isSized TD E true)
               (getTypeSize isSized TD)); [| reflexivity].
      eapply Forall_impl; [| exact H]. intros E [Hs Ha].
      split; [apply Ha | exact Hs]. }
    split; [| intros b].
    + rewrite getTypeSize_c_struct, getTypeSize_struct_eq.
      destruct (negb (isSized _)); [apply agrees_fail |].
      apply agrees_bind; [exact HL |]. intros Layout. apply agrees_ret.
    + rewrite getAlignmentTy_c_struct, getAlignmentTy_struct_eq.
      destruct (negb (isSized _)); [apply agrees_fail |].
      apply agrees_bind; [exact HL |]. intros Layout.
      destruct (getAlignment TD AGGREGATE_ALIGN 0);
        [apply agrees_ret | apply agrees_fail].
  - split; [| intros b]; simpl; destruct (negb (isSized _));
      apply agrees_fail.
Qed.

End CacheSound.

Lemma getStructLayout_with_cached (this : nat) (f g : Ty -> Cached Z)
    (elts : list Ty) (m m' : LayoutInfoTy) (L : StructLayout) :
  getStructLayout_with this f g elts m = Some (L, m') ->
  DenseMap_find (this, elts) m' = Some (Built L).
Proof.
  unfold getStructLayout_with.
  destruct (DenseMap_find (this, elts) m) as [[| SL] |] eqn:Hfind.
  - discriminate.
  - intros [= <- <-]. exact Hfind.
  - destruct (StructLayout_loop_c f g elts _ _) as [[L0 m0] |];
      [| discriminate].
    intros [= <- <-]. apply DenseMap_find_set_same.
Qed.

Lemma getStructLayout_c_agrees (isSized : Ty -> bool) (this : nat)
    (TD : TargetData) (elts : list Ty) (m : LayoutInfoTy) :
  coherent isSized this TD m ->
  exists m',
    getStructLayout_c isSized this TD elts m
    = option_map (fun L => (L, m')) (getStructLayout isSized TD elts)
    /\ extends isSized this TD m m'
    /\ coherent isSized this TD m'
    /\ (forall L, getStructLayout isSized TD elts = Some L ->
                  DenseMap_find (this, elts) m' = Some (Built L)).
Proof.
  intros Hc.
  assert (Ha : agrees isSized this TD (Ty_size (StructTy elts))
                 (getStructLayout_c isSized this TD elts)
                 (getStructLayout isSized TD elts)).
  { apply (getStructLayout_with_agrees isSized this TD _ _
             (fun E => getAlignmentTy isSized TD E true)
             (getTypeSize isSized TD)); [| reflexivity].
    apply Forall_forall. intros E _.
    destruct (cached_queries_agree isSized this TD E) as [Hs Hal].
    split; [apply Hal | exact Hs]. }
  destruct (Ha m (coherent_slots_ok _ _ _ _ _ Hc)) as (m' & He & Hr).
  exists m'. split; [exact Hr |]. split; [exact He |].
  split; [apply (coherent_extends _ _ _ _ _ Hc He) |].
  intros L HL. rewrite HL in Hr. simpl in Hr.
  apply (getStructLayout_with_cached this _ _ elts m m' L Hr).
Qed.

(** X19: the cache of layouts does not show.  When every entry of the
    object in the cache holds the layout of its structure type (as in the
    cache that is not constructed yet), the size, the alignment and the
    structure layout that are computed through the cache are those
    computed without it, and they fail when those fail: the entry that is
    set before the constructor runs is never read.  The map that a query
    leaves has the entries it had, unchanged, has new entries for this
    object only, and every entry of the object still holds the layout of
    its type; the layout that was asked for is among them. *)
Theorem layout_cache_transparent :
  forall (isSized : Ty -> bool) (this : nat) (TD : TargetData)
         (LayoutInfo : option LayoutInfoTy),
    let TheMap := ManagedStatic_get LayoutInfo in
    coherent isSized this TD TheMap ->
    (forall T, exists m',
        getTypeSize_c isSized this TD T TheMap
        = option_map (fun Size => (Size, m')) (getTypeSize isSized TD T)
        /\ extends isSized this TD TheMap m'
        /\ coherent isSized this TD m')
    /\ (forall T b, exists m',
          getAlignmentTy_c isSized this TD T b TheMap
          = option_map (fun a => (a, m')) (getAlignmentTy isSized TD T b)
          /\ extends isSized this TD TheMap m'
          /\ coherent isSized this TD m')
    /\ (forall elts, exists m',
          getStructLayout_c isSized this TD elts TheMap
          = option_map (fun L => (L, m')) (getStructLayout isSized TD elts)
          /\ extends isSized this TD TheMap m'
          /\ coherent isSized this TD m'
          /\ (forall L, getStructLayout isSized TD elts = Some L ->
                        DenseMap_find (this, elts) m' = Some (Built L))).
Proof.
  intros isSized this TD LayoutInfo TheMap Hc.
  assert (Hfin : forall (A : Type) (n : nat) (q : Cached A) (p : option A),
            agrees isSized this TD n q p ->
            exists m',
              q TheMap = option_map (fun a => (a, m')) p
              /\ extends isSized this TD TheMap m'
              /\ coherent isSized this TD m').
  { intros A n q p Hq.
    destruct (Hq TheMap (coherent_slots_ok _ _ _ n _ Hc)) as (m' & He & Hr).
    exists m'. split; [exact Hr |]. split; [exact He |].
    apply (coherent_extends _ _ _ _ _ Hc He). }
  split; [| split].
  - intros T. apply (Hfin _ (Ty_size T)).
    apply (proj1 (cached_queries_agree isSized this TD T)).
  - intros T b. apply (Hfin _ (Ty_size T)).
    apply (proj2 (cached_queries_agree isSized this TD T)).
  - intros elts. apply getStructLayout_c_agrees. exact Hc.
Qed.

(** X19 (witness): the first query of a layout, on the cache that is not
    constructed, for the object at address 0 with the default
    description. *)
Lemma layout_cache_transparent_witness :
  exists m',
    getStructLayout_c all_sized 0 default_TD [IntegerTy 8; IntegerTy 32]
      (ManagedStatic_get None)
    = option_map (fun L => (L, m'))
        (getStructLayout all_sized default_TD [IntegerTy 8; IntegerTy 32]).
Proof.
  assert (Hc : coherent all_sized 0 default_TD (ManagedStatic_get None))
    by (intros elts s H; discriminate H).
  destruct (proj2 (proj2 (layout_cache_transparent all_sized 0 default_TD
                            None Hc)) [IntegerTy 8; IntegerTy 32])
    as (m' & H & _).
  exists m'. exact H.
Defined.

(** X20: [InvalidateStructLayoutInfo] does nothing on the cache that is
    not constructed, and does not construct it.  On a constructed cache
    it removes the entry of the object for the structure type and leaves
    every other entry as it is; the entries of the object that remain
    hold the layout of their type if they did, and the next query of the
    layout of that type builds it again. *)
Theorem InvalidateStructLayoutInfo_spec :
  forall (isSized : Ty -> bool) (this : nat) (TD : TargetData)
         (elts : list Ty),
    InvalidateStructLayoutInfo this elts None = None
    /\ forall m, exists m',
         InvalidateStructLayoutInfo this elts (Some m) = Some m'
         /\ DenseMap_find (this, elts) m' = None
         /\ (forall k, k <> (this, elts) ->
                       DenseMap_find k m' = DenseMap_find k m)
         /\ (coherent isSized this TD m ->
             coherent isSized this TD m'
             /\ exists m'',
                  getStructLayout_c isSized this TD elts m'
                  = option_map (fun L => (L, m''))
                      (getStructLayout isSized TD elts)
                  /\ (getStructLayout isSized TD elts <> None ->
                      DenseMap_find (this, elts) m''
                      = option_map Built (getStructLayout isSized TD elts))).
Proof.
  intros isSized this TD elts. split; [reflexivity |].
  intros m. exists (DenseMap_erase (this, elts) m).
  split; [reflexivity |].
  split; [apply DenseMap_find_erase_same |].
  split; [intros k Hk; apply DenseMap_find_erase_other; exact Hk |].
  intros Hc.
  assert (Hc' : coherent isSized this TD (DenseMap_erase (this, elts) m)).
  { intros elts' s Hs.
    destruct (LayoutKey_eqb (this, elts) (this, elts')) eqn:Ek.
    - apply LayoutKey_eqb_eq in Ek. rewrite <- Ek in Hs.
      rewrite DenseMap_find_erase_same in Hs. discriminate.
    - rewrite DenseMap_find_erase_other in Hs; [apply (Hc elts' s Hs) |].
      intros Heq. rewrite Heq, LayoutKey_eqb_refl in Ek. discriminate. }
  split; [exact Hc' |].
  destruct (getStructLayout_c_agrees isSized this TD elts _ Hc')
    as (m'' & Hr & _ & _ & Hin).
  exists m''. split; [exact Hr |].
  intros Hdef. destruct (getStructLayout isSized TD elts) as [L |];
    [| congruence].
  simpl. apply Hin. reflexivity.
Qed.

(** X21: the destructor does nothing on the cache that is not constructed,
    and does not construct it.  On a constructed cache it removes every
    entry of the object and leaves those of every other object as they
    are: the entries of another object hold the layout of their type if
    they did, and no entry is left for an object that is constructed
    later at the same address, whatever its description. *)
Theorem TargetData_destroy_spec :
  forall (this : nat),
    TargetData_destroy this None = None
    /\ forall m, exists m',
         TargetData_destroy this (Some m) = Some m'
         /\ (forall elts, DenseMap_find (this, elts) m' = None)
         /\ (forall k, fst k <> this ->
                       DenseMap_find k m' = DenseMap_find k m)
         /\ (forall isSized TD', coherent isSized this TD' m')
         /\ (forall isSized that TD2,
               that <> this -> coherent isSized that TD2 m ->
               coherent isSized that TD2 m').
Proof.
  intros this. split; [reflexivity |]. intros m.
  eexists. split; [reflexivity |].
  split; [| split; [| split]].
  - intros elts. rewrite DenseMap_find_filter. cbn [fst].
    rewrite Nat.eqb_refl. reflexivity.
  - intros k Hk. rewrite DenseMap_find_filter.
    apply Nat.eqb_neq in Hk. rewrite Hk. reflexivity.
  - intros isSized TD' elts s Hs. rewrite DenseMap_find_filter in Hs.
    cbn [fst] in Hs. rewrite Nat.eqb_refl in Hs. discriminate.
  - intros isSized that TD2 Hne Hc elts s Hs.
    rewrite DenseMap_find_filter in Hs. cbn [fst] in Hs.
    apply Nat.eqb_neq in Hne. rewrite Hne in Hs. apply (Hc elts s Hs).
Qed.

(** ** The memory of a layout *)

(** X22: the size asked of [malloc] for a layout.  For a structure type of
    at least one element it is the size of the object plus 8 bytes for
    each element after the first.  For the structure type of no element,
    [NumElts - 1] wraps to 2^32 - 1: where [size_t] has 32 bits the
    product wraps again and the size is that of the object less 8 bytes,
    but where [size_t] has 64 bits the size is that of the object plus
    8 * (2^32 - 1) bytes, nearly 32 GiB. *)
Theorem getStructLayout_malloc_size_spec :
  forall (size_t_bits sizeof_StructLayout NumElts : Z),
    size_t_bits = 32 \/ size_t_bits = 64 ->
    8 <= sizeof_StructLayout < 2 ^ 31 ->
    (1 <= NumElts < 2 ^ 32 ->
     sizeof_StructLayout + 8 * (NumElts - 1) < 2 ^ size_t_bits ->
     getStructLayout_malloc_size size_t_bits sizeof_StructLayout NumElts
     = sizeof_StructLayout + 8 * (NumElts - 1))
    /\ (size_t_bits = 32 ->
        getStructLayout_malloc_size size_t_bits sizeof_StructLayout 0
        = sizeof_StructLayout - 8)
    /\ (size_t_bits = 64 ->
        getStructLayout_malloc_size size_t_bits sizeof_StructLayout 0
        = sizeof_StructLayout + 8 * (2 ^ 32 - 1)).
Proof.
  intros bits sz n Hbits Hsz. unfold getStructLayout_malloc_size.
  split; [| split].
  - intros Hn Hfit.
    rewrite to_unsigned32_small by lia.
    assert (Hb : 0 < 2 ^ bits) by (destruct Hbits; subst; reflexivity).
    unfold to_unsigned.
    rewrite (Z.mod_small ((n - 1) * 8)) by lia.
    rewrite Z.mod_small by lia. lia.
  - intros ->. change (to_unsigned32 (0 - 1) * 8) with 34359738360.
    change (to_unsigned 32 34359738360) with 4294967288.
    unfold to_unsigned.
    replace (sz + 4294967288) with (sz - 8 + 1 * 2 ^ 32) by lia.
    rewrite Z.mod_add by lia. apply Z.mod_small. lia.
  - intros ->. change (to_unsigned32 (0 - 1) * 8) with 34359738360.
    change (to_unsigned 64 34359738360) with 34359738360.
    unfold to_unsigned. rewrite Z.mod_small; lia.
Qed.

(** X22 (witness): an object of 24 bytes and a [size_t] of 64 bits. *)
Lemma getStructLayout_malloc_size_spec_witness :
  getStructLayout_malloc_size 64 24 0 = 24 + 8 * (2 ^ 32 - 1).
Proof.
  assert (Hbits : 64 = 32 \/ 64 = 64) by (right; reflexivity).
  assert (Hsz : 8 <= 24 < 2 ^ 31) by lia.
  exact (proj2 (proj2 (getStructLayout_malloc_size_spec 64 24 0 Hbits Hsz))
           eq_refl).
Defined.

(** ** The padding of a layout *)

Lemma StructLayout_place_tight (TyAlign TySize : Z) (L L' : StructLayout) :
  StructLayout_place TyAlign TySize L = Some L' ->
  0 < TyAlign < 256 -> 0 <= TySize < 2 ^ 32 ->
  0 <= StructSize L -> StructSize L + 2 ^ 33 <= 2 ^ 64 ->
  exists off,
    MemberOffsets L' = MemberOffsets L ++ [off]
    /\ StructSize L <= off < StructSize L + TyAlign
    /\ StructSize L' = off + TySize.
Proof.
  unfold StructLayout_place. intros H Ha Hs H0 Hb.
  destruct (Z.eqb_spec TyAlign 0); [lia |].
  destruct (round_up_bounds (StructSize L) TyAlign) as [Hy _]; [lia | lia |].
  cbv zeta in Hy. injection H as <-. simpl.
  assert (Hpad : (if negb (StructSize L mod TyAlign =? 0)
                  then to_uint64 ((StructSize L / TyAlign + 1) * TyAlign)
                  else StructSize L)
                 = (if negb (StructSize L mod TyAlign =? 0)
                    then (StructSize L / TyAlign + 1) * TyAlign
                    else StructSize L)).
  { destruct (negb _); [| reflexivity]. apply to_uint64_small. lia. }
  rewrite Hpad. eexists. split; [reflexivity |].
  split; [exact Hy |]. apply to_uint64_small. lia.
Qed.

Lemma StructLayout_loop_tight (f g : Ty -> option Z) (elts : list Ty) :
  (forall T a, f T = Some a -> 0 <= a < 256) ->
  (forall T s, In T elts -> g T = Some s -> 0 <= s < 2 ^ 32) ->
  forall L L',
    StructLayout_loop f g elts L = Some L' ->
    0 <= StructSize L ->
    StructSize L + Z.of_nat (length elts) * 2 ^ 33 <= 2 ^ 64 ->
    exists offs,
      MemberOffsets L' = MemberOffsets L ++ offs
      /\ tight f g elts offs (StructSize L) (StructSize L').
Proof.
  intros Hf. induction elts as [| T rest IH]; intros Hg L L' Hloop H0 Hb.
  - simpl in Hloop. injection Hloop as <-. exists [].
    rewrite app_nil_r. simpl. split; reflexivity.
  - simpl in Hloop.
    destruct (f T) as [a |] eqn:Ha; [| discriminate].
    destruct (g T) as [sz |] eqn:Hsz; [| discriminate].
    destruct (StructLayout_place _ _ L) as [L1 |] eqn:Hp; [| discriminate].
    pose proof (Hf T a Ha) as Har.
    pose proof (Hg T sz (or_introl eq_refl) Hsz) as Hsr.
    rewrite to_unsigned32_small in Hp by lia.
    rewrite to_unsigned32_small in Hp by lia.
    assert (Hapos : 0 < a).
    { unfold StructLayout_place in Hp.
      destruct (Z.eqb_spec a 0); [discriminate | lia]. }
    change (length (T :: rest)) with (S (length rest)) in Hb.
    rewrite Nat2Z.inj_succ in Hb.
    destruct (StructLayout_place_tight a sz L L1 Hp)
      as (off & Ho & Hoff & Hs1); try lia.
    destruct (IH (fun T' s' H' => Hg T' s' (or_intror H')) L1 L' Hloop)
      as (offs & Ho' & Hpl); try lia.
    exists (off :: offs). split.
    + rewrite Ho', Ho, <- app_assoc. reflexivity.
    + simpl. exists a, sz. rewrite Hs1 in Hpl.
      split; [exact Ha |]. split; [exact Hsz |]. split; [lia | exact Hpl].
Qed.

Lemma tight_spec (f g : Ty -> option Z) (elts : list Ty) :
  forall (offs : list Z) (start fin : Z),
    tight f g elts offs start fin ->
    (forall T a off,
       nth_error elts 0 = Some T -> f T = Some a ->
       nth_error offs 0 = Some off -> off < start + a)
    /\ (forall i T0 s0 o0 T a o,
          nth_error elts i = Some T0 -> g T0 = Some s0 ->
          nth_error offs i = Some o0 ->
          nth_error elts (S i) = Some T -> f T = Some a ->
          nth_error offs (S i) = Some o -> o < o0 + s0 + a)
    /\ (elts = [] -> fin = start)
    /\ (forall T s o,
          nth_error elts (length elts - 1) = Some T -> g T = Some s ->
          nth_error offs (length elts - 1) = Some o -> fin = o + s).
Proof.
  induction elts as [| T rest IH]; intros [| off offs] start fin H;
    simpl in H; try contradiction.
  - split; [intros; discriminate |]. split; [intros; discriminate |].
    split; [intros _; exact H |]. intros; discriminate.
  - destruct H as (a & sz & Ha & Hsz & Hlt & Hrest).
    destruct (IH offs (off + sz) fin Hrest) as (H0 & Hadj & Hnil & Hlast).
    split; [| split; [| split]].
    + intros T' a' o [= <-] Ha' [= <-]. assert (a' = a) by congruence. lia.
    + intros [| i] T0 s0 o0 T' a' o HT0 Hs0 Ho0 HT Ha' Ho; simpl in *.
      * injection HT0 as <-. injection Ho0 as <-.
        assert (s0 = sz) by congruence. subst s0.
        apply (H0 T' a' o HT Ha' Ho).
      * eapply Hadj; eassumption.
    + discriminate.
    + intros T' s' o HT Hs' Ho.
      destruct rest as [| T1 rest'].
      * simpl in HT, Ho. injection HT as <-. injection Ho as <-.
        assert (s' = sz) by congruence. subst s'.
        apply Hnil. reflexivity.
      * replace (length (T :: T1 :: rest') - 1)%nat
          with (S (length (T1 :: rest') - 1)) in HT, Ho by (simpl; lia).
        cbn [nth_error] in HT, Ho. apply (Hlast T' s' o HT Hs' Ho).
Qed.

(** X23: a layout has no more padding than the alignments ask for.  For
    the object built from a description string and the layout of a
    structure of fewer than 2^30 elements whose sizes are below 2^32:
    every element after the first starts less than its ABI alignment
    after the end of the element before it; the structure ends less than
    its alignment after the end of its last element; and the structure of
    no element has size 0 and alignment 1.  With the offsets being
    multiples of the alignments, each offset is the least that is
    possible. *)
Theorem StructLayout_minimal_padding :
  forall (isSized : Ty -> bool) (s : str) (TD : TargetData)
         (elts : list Ty) (L : StructLayout),
    init s = Some TD ->
    getStructLayout isSized TD elts = Some L ->
    Z.of_nat (length elts) < 2 ^ 30 ->
    (forall T Size, In T elts -> getTypeSize isSized TD T = Some Size ->
                    0 <= Size < 2 ^ 32) ->
    (forall i T0 Size0 o0 T a o,
       nth_error elts i = Some T0 ->
       getTypeSize isSized TD T0 = Some Size0 ->
       nth_error (MemberOffsets L) i = Some o0 ->
       nth_error elts (S i) = Some T ->
       getABITypeAlignment isSized TD T = Some a ->
       nth_error (MemberOffsets L) (S i) = Some o ->
       o0 + Size0 <= o < o0 + Size0 + a)
    /\ (forall T Size o,
          nth_error elts (length elts - 1) = Some T ->
          getTypeSize isSized TD T = Some Size ->
          nth_error (MemberOffsets L) (length elts - 1) = Some o ->
          o + Size <= StructSize L < o + Size + StructAlignment L)
    /\ (elts = [] -> StructSize L = 0 /\ StructAlignment L = 1).
Proof.
  intros isSized s TD elts L Hinit HL Hlen Hsizes.
  pose proof (init_wf s TD Hinit) as Hwf.
  pose proof (getStructLayout_align isSized TD elts L Hwf HL) as HSA.
  assert (Hf : forall T a, getABITypeAlignment isSized TD T = Some a ->
                           0 <= a < 256).
  { intros T a. apply getAlignmentTy_range. exact Hwf. }
  destruct (getStructLayout_placed isSized TD elts L Hwf HL Hlen Hsizes)
    as (Hpl & _ & _).
  destruct (placed_spec _ _ elts _ 0 Hpl) as (_ & _ & _ & Hadj).
  unfold getStructLayout, StructLayout_new in HL.
  destruct (StructLayout_loop _ _ elts _) as [L0 |] eqn:Hloop; [| discriminate].
  injection HL as <-.
  destruct (StructLayout_loop_placed _ _ elts Hf Hsizes _ L0 Hloop)
    as (_ & _ & _ & Hb & _); simpl; try lia.
  destruct (StructLayout_loop_tight _ _ elts Hf Hsizes _ L0 Hloop)
    as (offs & Ho & Ht); simpl; try lia.
  simpl in Ho, Ht, Hb.
  change (MemberOffsets (StructLayout_finish L0)) with (MemberOffsets L0)
    in Hadj |- *.
  rewrite Ho in Hadj |- *.
  destruct (tight_spec _ _ elts offs 0 (StructSize L0) Ht)
    as (_ & Htadj & Hnil & Hlast).
  assert (Hfin : StructSize L0 <= StructSize (StructLayout_finish L0)
                 < StructSize L0 + StructAlignment (StructLayout_finish L0)).
  { unfold StructLayout_finish in *. simpl in *.
    set (A := if StructAlignment L0 =? 0 then 1 else StructAlignment L0) in *.
    destruct (round_up_bounds (StructSize L0) A) as [Hy _]; [lia | lia |].
    cbv zeta in Hy.
    destruct (negb (StructSize L0 mod A =? 0)); [| exact Hy].
    rewrite to_uint64_small by lia. exact Hy. }
  split; [| split].
  - intros i T0 Size0 o0 T a o HT0 HS0 Ho0 HT Ha Ho1. split.
    + apply (Hadj i T0 Size0 o0 o HT0 HS0 Ho0 Ho1).
    + apply (Htadj i T0 Size0 o0 T a o HT0 HS0 Ho0 HT Ha Ho1).
  - intros T Size o HT HS Ho1.
    rewrite (Hlast T Size o HT HS Ho1) in Hfin. exact Hfin.
  - intros ->. simpl in Hloop. injection Hloop as <-. split; reflexivity.
Qed.

(** X23 (witness): the structure of an [i8], an [i32] and an [i8] under
    the default description: the [i32] starts at 4, less than 4 bytes
    after the end of the first [i8]. *)
Lemma StructLayout_minimal_padding_witness :
  let elts := [IntegerTy 8; IntegerTy 32; IntegerTy 8] in
  let L :=
    {| StructSize := 12; StructAlignment := 4; MemberOffsets := [0; 4; 8] |} in
  getStructLayout all_sized default_TD elts = Some L
  /\ 0 + 1 <= 4 < 0 + 1 + 4.
Proof.
  intros elts L.
  assert (HL : getStructLayout all_sized default_TD elts = Some L)
    by (vm_compute; reflexivity).
  assert (Hlen : Z.of_nat (length elts) < 2 ^ 30) by (vm_compute; reflexivity).
  assert (Hsz : forall T Size, In T elts ->
                  getTypeSize all_sized default_TD T = Some Size ->
                  0 <= Size < 2 ^ 32).
  { intros T Size HT HS. simpl in HT.
    destruct HT as [<- | [<- | [<- | []]]]; vm_compute in HS;
      injection HS as <-; lia. }
  assert (HS0 : getTypeSize all_sized default_TD (IntegerTy 8) = Some 1)
    by (vm_compute; reflexivity).
  assert (HA : getABITypeAlignment all_sized default_TD (IntegerTy 32)
               = Some 4) by (vm_compute; reflexivity).
  split; [exact HL |].
  exact (proj1 (StructLayout_minimal_padding all_sized [] default_TD elts L
                  init_empty HL Hlen Hsz)
           O (IntegerTy 8) 1 0 (IntegerTy 32) 4 4
           eq_refl HS0 eq_refl eq_refl HA eq_refl).
Defined.
